(** * Multi-output conditionals of GPflow: [gpflow/conditionals/mo_conditionals.py]

    A shallow embedding of the five [_conditional] implementations that the
    module registers with [conditional_dispatch], together with the tensor
    operations they perform themselves ([tf.reshape], [tf.transpose],
    [tf.stack], [tf.map_fn] and the slicing expressions).

    Scalars are kept abstract: the module never does arithmetic on tensor
    entries itself, it only rearranges them and hands them to collaborators.
    A tensor is a shape and its entries in row-major order.  Every call of an
    imported function is recorded in a call log, so that statements about
    which collaborator is invoked, how often, in which order and with which
    arguments can be made about the code.  The [logger.debug] lines do not
    bear on what is returned and are left out. *)

From Stdlib Require Import List Arith Lia Bool ZArith.
Import ListNotations.

Set Implicit Arguments.

(** ** Scalars

    Tensor entries are floating-point numbers in the source.  Only a zero
    (for diagonal embeddings), a sum and a product (for the mixing step) are
    needed, and no law is assumed of them. *)

Class Scalar (A : Type) : Type :=
  { zero : A; add : A -> A -> A; mul : A -> A -> A }.

(** ** Exceptions and results *)

Inductive Exception : Type :=
| AttributeError        (* attribute access on [None] or a missing attribute *)
| ValueError            (* wrong number of values to unpack, unequal leading axes *)
| InvalidArgumentError  (* TensorFlow: incompatible shapes, index out of range *)
| DispatchError   (* the dispatcher knows no implementation *)
| NumericalError.       (* raised inside a collaborator *)

Inductive Result (X : Type) : Type :=
| Ok (x : X)
| Raise (e : Exception).

Arguments Ok {X} _.
Arguments Raise {X} _.

Definition is_Ok {X : Type} (r : Result X) : bool :=
  match r with Ok _ => true | Raise _ => false end.

(** ** Tensors *)

Section Tensors.

Context {A : Type} {SA : Scalar A}.

Record Tensor : Type := mkTensor { shape : list nat; data : list A }.

Definition prod (s : list nat) : nat := fold_right Nat.mul 1 s.

Definition ndims (t : Tensor) : nat := length (shape t).

(** The number of entries the shape announces, and the tensors that hold
    exactly that many. *)
Definition size (t : Tensor) : nat := prod (shape t).

Definition wf (t : Tensor) : Prop := length (data t) = size t.

(** Row-major offsets and multi-indices. *)
Fixpoint ravel (s idx : list nat) : nat :=
  match s, idx with
  | _ :: s', i :: idx' => i * prod s' + ravel s' idx'
  | _, _ => 0
  end.

Fixpoint unravel (s : list nat) (i : nat) : list nat :=
  match s with
  | [] => []
  | _ :: s' => (i / prod s') :: unravel s' (i mod prod s')
  end.

Definition in_bounds (s idx : list nat) : Prop := Forall2 lt idx s.

Definition get (t : Tensor) (idx : list nat) : A :=
  nth (ravel (shape t) idx) (data t) zero.

Definition tabulate (s : list nat) (g : list nat -> A) : Tensor :=
  mkTensor s (map (fun i => g (unravel s i)) (seq 0 (prod s))).

Definition fill (s : list nat) (a : A) : Tensor := tabulate s (fun _ => a).

Fixpoint shape_eqb (s1 s2 : list nat) : bool :=
  match s1, s2 with
  | [], [] => true
  | d1 :: s1', d2 :: s2' => (d1 =? d2) && shape_eqb s1' s2'
  | _, _ => false
  end.

(** [tf.reshape(t, s)]: same entries, new shape, refused when the entry
    counts differ. *)
Definition tf_reshape (t : Tensor) (s : list nat) : Result Tensor :=
  if size t =? prod s then Ok (mkTensor s (data t))
  else Raise InvalidArgumentError.

(** [tf.transpose(t)] without a permutation reverses the axes. *)
Definition tf_transpose (t : Tensor) : Tensor :=
  tabulate (rev (shape t)) (fun idx => get t (rev idx)).

(** [tf.stack(ts, axis=0)]; of no tensor at all it is the empty tensor of
    shape [[0]]. *)
Definition tf_stack (ts : list Tensor) : Result Tensor :=
  match ts with
  | [] => Ok (mkTensor [0] [])
  | t0 :: _ =>
      if forallb (fun t => shape_eqb (shape t) (shape t0)) ts
      then Ok (mkTensor (length ts :: shape t0) (concat (map data ts)))
      else Raise InvalidArgumentError
  end.

(** The slices along the leading axis, as [tf.map_fn] hands them to its
    function. *)
Definition tf_unstack (t : Tensor) : Result (list Tensor) :=
  match shape t with
  | [] => Raise ValueError
  | d :: rest =>
      Ok (map (fun i => mkTensor rest
                          (firstn (prod rest) (skipn (i * prod rest) (data t))))
              (seq 0 d))
  end.

(** [t[0, ...]] *)
Definition index_first_0 (t : Tensor) : Result Tensor :=
  match shape t with
  | [] => Raise InvalidArgumentError
  | d :: rest =>
      if 0 <? d then Ok (mkTensor rest (firstn (prod rest) (data t)))
      else Raise InvalidArgumentError
  end.

(** [t[..., 0]] *)
Definition index_last_0 (t : Tensor) : Result Tensor :=
  match rev (shape t) with
  | [] => Raise InvalidArgumentError
  | d :: rinit =>
      if 0 <? d
      then Ok (tabulate (rev rinit) (fun idx => get t (idx ++ [0])))
      else Raise InvalidArgumentError
  end.

(** [t[:, :, None]] *)
Definition newaxis_2 (t : Tensor) : Result Tensor :=
  match shape t with
  | d0 :: d1 :: rest => Ok (mkTensor (d0 :: d1 :: 1 :: rest) (data t))
  | _ => Raise InvalidArgumentError
  end.

(** [t[:, None, :, :]] *)
Definition newaxis_1 (t : Tensor) : Result Tensor :=
  match shape t with
  | d0 :: d1 :: d2 :: rest => Ok (mkTensor (d0 :: 1 :: d1 :: d2 :: rest) (data t))
  | _ => Raise InvalidArgumentError
  end.

(** [t[..., 0, :, :]] *)
Definition index_third_last_0 (t : Tensor) : Result Tensor :=
  let s := shape t in
  let r := length s in
  if r <? 3 then Raise InvalidArgumentError
  else if 0 <? nth (r - 3) s 0
  then Ok (tabulate (firstn (r - 3) s ++ skipn (r - 2) s)
             (fun idx => get t (firstn (r - 3) idx ++ 0 :: skipn (r - 3) idx)))
  else Raise InvalidArgumentError.

(** Sum of [g 0], ..., [g (n-1)], accumulated from the left. *)
Definition sum_upto (n : nat) (g : nat -> A) : A :=
  fold_left add (map g (seq 0 n)) zero.

(** Modelled from the spec: [rollaxis_left] of [gpflow/conditionals/util.py],
    which lies outside this module.  Section 4.4 says that it moves
    the batch axis to become the trailing output axis; rolled [num_rolls]
    times, the first [num_rolls] axes end up last. *)
Definition rollaxis_left (t : Tensor) (num_rolls : nat) : Result Tensor :=
  let s := shape t in
  let r := length s in
  if r <? num_rolls then Raise InvalidArgumentError
  else Ok (tabulate (skipn num_rolls s ++ firstn num_rolls s)
             (fun idx => get t (skipn (r - num_rolls) idx
                                  ++ firstn (r - num_rolls) idx))).

(** Modelled from the spec: [expand_independent_outputs] of
    [gpflow/conditionals/util.py], which lies outside this module.
    Section 4.8: an independent-output variance [N, P] or [P, N, N] is passed
    through when [full_output_cov] is not requested, and embedded diagonally
    across the output axis, into [N, P, P] or [N, P, N, P], when it is. *)
Definition expand_independent_outputs
    (fvar : Tensor) (full_cov full_output_cov : bool) : Result Tensor :=
  if full_output_cov then
    if full_cov then
      match shape fvar with
      | [P; N; N'] =>
          Ok (tabulate [N; P; N'; P]
                (fun idx => match idx with
                            | [n; p; n'; q] =>
                                if p =? q then get fvar [p; n; n'] else zero
                            | _ => zero
                            end))
      | _ => Raise InvalidArgumentError
      end
    else
      match shape fvar with
      | [N; P] =>
          Ok (tabulate [N; P; P]
                (fun idx => match idx with
                            | [n; p; q] =>
                                if p =? q then get fvar [n; p] else zero
                            | _ => zero
                            end))
      | _ => Raise InvalidArgumentError
      end
  else Ok fvar.

(** Modelled from the spec: [mix_latent_gp] of
    [gpflow/conditionals/util.py], which lies outside this module.
    Section 4.7: with [W] of shape [P, L], latent mean [gmu] of shape [N, L]
    and latent variance [gvar] of shape [N, L] (diagonal) or [L, N, N]
    (full), the output mean is [gmu . W^T] and the output variance is
    [W (diag(gvar) or full gvar) W^T] in the layout the two flags select. *)
Definition mix_latent_gp
    (W gmu gvar : Tensor) (full_cov full_output_cov : bool)
  : Result (Tensor * Tensor) :=
  match shape W, shape gmu with
  | [P; L], [N; L'] =>
      if negb (L =? L') then Raise InvalidArgumentError
      else if negb (shape_eqb (shape gvar)
                      (if full_cov then [L; N; N] else [N; L]))
      then Raise InvalidArgumentError
      else
        let w p l := get W [p; l] in
        let g n n' l := if full_cov then get gvar [l; n; n'] else get gvar [n; l] in
        let cov n p n' q := sum_upto L (fun l => mul (mul (w p l) (g n n' l)) (w q l)) in
        let fmean :=
          tabulate [N; P]
            (fun idx => match idx with
                        | [n; p] => sum_upto L (fun l => mul (get gmu [n; l]) (w p l))
                        | _ => zero
                        end) in
        let fvar :=
          match full_cov, full_output_cov with
          | true, true =>
              tabulate [N; P; N; P]
                (fun idx => match idx with
                            | [n; p; n'; q] => cov n p n' q
                            | _ => zero
                            end)
          | true, false =>
              tabulate [P; N; N]
                (fun idx => match idx with
                            | [p; n; n'] => cov n p n' p
                            | _ => zero
                            end)
          | false, true =>
              tabulate [N; P; P]
                (fun idx => match idx with
                            | [n; p; q] => cov n p n q
                            | _ => zero
                            end)
          | false, false =>
              tabulate [N; P]
                (fun idx => match idx with
                            | [n; p] => cov n p n p
                            | _ => zero
                            end)
          end in
        Ok (fmean, fvar)
  | _, _ => Raise InvalidArgumentError
  end.

(** The four variance layouts the flags select (docstring of the first
    [_conditional], lines 56-57). *)
Definition variance_shape (N P : nat) (full_cov full_output_cov : bool)
  : list nat :=
  match full_cov, full_output_cov with
  | false, false => [N; P]
  | true, false => [P; N; N]
  | false, true => [N; P; P]
  | true, true => [N; P; N; P]
  end.

End Tensors.

Arguments Tensor A : clear implicits.

(** ** Feature and kernel objects

    The classes live in [gpflow/features] and [gpflow/kernels]; the module
    sees them through their class (for dispatch), [isinstance(kernel,
    Combination)], and the attributes [feature.features], [kernel.kernels],
    [kernel.kernel] and [kernel.W].  An attribute an object does not have is
    [None] here, and reading it raises [AttributeError].  Single-output
    kernels and inducing features are opaque handles. *)

Inductive FeatureClass : Type :=
| InducingPoints
| SharedIndependentMof
| SeparateIndependentMof
| MixedKernelSharedMof
| MixedKernelSeparateMof.

Inductive KernelClass : Type :=
| Mok
| SharedIndependentMok
| SeparateIndependentMok
| SeparateMixedMok.

Definition Handle : Type := nat.

Record Feature : Type := mkFeature
  { feature_class : FeatureClass;
    feature_features : option (list Handle) }.

Record Kernel (A : Type) : Type := mkKernel
  { kernel_class : KernelClass;
    isinstance_Combination : bool;
    kernel_kernels : option (list Handle);
    kernel_kernel : option Handle;
    kernel_W : option (Tensor A) }.

Arguments mkKernel {A} _ _ _ _ _.

(** ** Calls of imported functions *)

Inductive Call (A : Type) : Type :=
| Call_Kuu (feature : Feature) (kernel : Kernel A) (jitter : A)
| Call_Kuf (feature : Feature) (kernel : Kernel A) (Xnew : Tensor A)
| Call_kernel (kernel : Kernel A) (Xnew : Tensor A) (full full_output_cov : bool)
| Call_K (k : Handle) (Xnew : Tensor A)
| Call_K_diag (k : Handle) (Xnew : Tensor A)
| Call_base_conditional (Kmn Kmm Knn f : Tensor A) (full_cov : bool)
    (q_sqrt : option (Tensor A)) (white : bool)
| Call_independent_interdomain_conditional (Kmn Kmm Knn f : Tensor A)
    (full_cov full_output_cov : bool) (q_sqrt : option (Tensor A)) (white : bool)
| Call_fully_correlated_conditional (Kmn Kmm Knn f : Tensor A)
    (full_cov full_output_cov : bool) (q_sqrt : option (Tensor A)) (white : bool)
| Call_expand_independent_outputs (fvar : Tensor A) (full_cov full_output_cov : bool)
| Call_mix_latent_gp (W gmu gvar : Tensor A) (full_cov full_output_cov : bool)
| Call_rollaxis_left (t : Tensor A) (num_rolls : nat).

Arguments Call_K {A} _ _.
Arguments Call_K_diag {A} _ _.
Arguments Call_expand_independent_outputs {A} _ _ _.
Arguments Call_mix_latent_gp {A} _ _ _ _ _.
Arguments Call_rollaxis_left {A} _ _.

Definition is_Kuu {A : Type} (c : Call A) : bool :=
  match c with Call_Kuu _ _ _ => true | _ => false end.

Definition is_base_conditional {A : Type} (c : Call A) : bool :=
  match c with Call_base_conditional _ _ _ _ _ _ _ => true | _ => false end.

Definition is_independent_interdomain_conditional {A : Type} (c : Call A) : bool :=
  match c with
  | Call_independent_interdomain_conditional _ _ _ _ _ _ _ _ => true
  | _ => false
  end.

Definition is_fully_correlated_conditional {A : Type} (c : Call A) : bool :=
  match c with
  | Call_fully_correlated_conditional _ _ _ _ _ _ _ _ => true
  | _ => false
  end.

(** The calls inside which a Cholesky factorization can happen: the
    conditional helpers of [.util]. *)
Definition is_conditional_helper {A : Type} (c : Call A) : bool :=
  is_base_conditional c || is_independent_interdomain_conditional c
  || is_fully_correlated_conditional c.

(** ** Computations: a result or an exception, and the calls made so far *)

Section Monad.

Context {A : Type}.

Definition M (X : Type) : Type := (list (Call A) * Result X)%type.

Definition ret {X : Type} (x : X) : M X := ([], Ok x).

Definition raise {X : Type} (e : Exception) : M X := ([], Raise e).

Definition bind {X Y : Type} (m : M X) (k : X -> M Y) : M Y :=
  match m with
  | (l, Ok x) => let (l', r) := k x in (l ++ l', r)
  | (l, Raise e) => (l, Raise e)
  end.

(** A step the module performs itself: no call is recorded. *)
Definition lift {X : Type} (r : Result X) : M X := ([], r).

(** A call of an imported function. *)
Definition call {X : Type} (c : Call A) (r : Result X) : M X := ([c], r).

Definition getattr {X : Type} (a : option X) : M X :=
  match a with
  | Some x => ret x
  | None => raise AttributeError
  end.

Definition calls {X : Type} (m : M X) : list (Call A) := fst m.

Definition result {X : Type} (m : M X) : Result X := snd m.

(** Every call of a computation satisfies [P]. *)
Definition all_calls {X : Type} (P : Call A -> Prop) (m : M X) : Prop :=
  Forall P (calls m).

End Monad.

Arguments M A X : clear implicits.

Declare Scope comp_scope.
Delimit Scope comp_scope with comp.
Notation "x <- m ;; k" := (bind m (fun x => k))
  (at level 61, m at next level, right associativity) : comp_scope.
Notation "' pat <- m ;; k" := (bind m (fun x => match x with pat => k end))
  (at level 61, pat pattern, m at next level, right associativity) : comp_scope.
Open Scope comp_scope.

Fixpoint mapM {A X Y : Type} (fn : X -> M A Y) (xs : list X) : M A (list Y) :=
  match xs with
  | [] => ret []
  | x :: xs' =>
      y <- fn x ;;
      ys <- mapM fn xs' ;;
      ret (y :: ys)
  end.

(** ** Collaborators

    [covariances.Kuu], [covariances.Kuf], the kernel objects' [__call__], [K]
    and [K_diag], the process-wide [default_jitter()], and the three
    Cholesky-based helpers of [.util], whose code lies outside this module
    and whose arithmetic is floating point. *)

Record Collaborators (A : Type) : Type := mkCollaborators
  { default_jitter : A;
    Kuu : Feature -> Kernel A -> A -> Result (Tensor A);
    Kuf : Feature -> Kernel A -> Tensor A -> Result (Tensor A);
    kernel_call : Kernel A -> Tensor A -> bool -> bool -> Result (Tensor A);
    K : Handle -> Tensor A -> Result (Tensor A);
    K_diag : Handle -> Tensor A -> Result (Tensor A);
    base_conditional :
      Tensor A -> Tensor A -> Tensor A -> Tensor A -> bool ->
      option (Tensor A) -> bool -> Result (Tensor A * Tensor A);
    independent_interdomain_conditional :
      Tensor A -> Tensor A -> Tensor A -> Tensor A -> bool -> bool ->
      option (Tensor A) -> bool -> Result (Tensor A * Tensor A);
    fully_correlated_conditional :
      Tensor A -> Tensor A -> Tensor A -> Tensor A -> bool -> bool ->
      option (Tensor A) -> bool -> Result (Tensor A * Tensor A) }.

(** ** The module's own code *)

Section Conditionals.

Context {A : Type} {SA : Scalar A}.
Variable env : Collaborators A.

Local Abbreviation T := (Tensor A).

(** Calls of imported functions, recorded and answered by the collaborator. *)

Definition call_Kuu (feature : Feature) (kernel : Kernel A) (jitter : A) : M A T :=
  call (Call_Kuu feature kernel jitter) (Kuu env feature kernel jitter).

Definition call_Kuf (feature : Feature) (kernel : Kernel A) (Xnew : T) : M A T :=
  call (Call_Kuf feature kernel Xnew) (Kuf env feature kernel Xnew).

Definition call_kernel (kernel : Kernel A) (Xnew : T) (full full_output_cov : bool)
  : M A T :=
  call (Call_kernel kernel Xnew full full_output_cov)
       (kernel_call env kernel Xnew full full_output_cov).

Definition call_K (k : Handle) (Xnew : T) : M A T :=
  call (Call_K k Xnew) (K env k Xnew).

Definition call_K_diag (k : Handle) (Xnew : T) : M A T :=
  call (Call_K_diag k Xnew) (K_diag env k Xnew).

Definition call_base_conditional (Kmn Kmm Knn f : T) (full_cov : bool)
    (q_sqrt : option T) (white : bool) : M A (T * T) :=
  call (Call_base_conditional Kmn Kmm Knn f full_cov q_sqrt white)
       (base_conditional env Kmn Kmm Knn f full_cov q_sqrt white).

Definition call_independent_interdomain_conditional (Kmn Kmm Knn f : T)
    (full_cov full_output_cov : bool) (q_sqrt : option T) (white : bool)
  : M A (T * T) :=
  call (Call_independent_interdomain_conditional
          Kmn Kmm Knn f full_cov full_output_cov q_sqrt white)
       (independent_interdomain_conditional env
          Kmn Kmm Knn f full_cov full_output_cov q_sqrt white).

Definition call_fully_correlated_conditional (Kmn Kmm Knn f : T)
    (full_cov full_output_cov : bool) (q_sqrt : option T) (white : bool)
  : M A (T * T) :=
  call (Call_fully_correlated_conditional
          Kmn Kmm Knn f full_cov full_output_cov q_sqrt white)
       (fully_correlated_conditional env
          Kmn Kmm Knn f full_cov full_output_cov q_sqrt white).

Definition call_expand_independent_outputs (fvar : T)
    (full_cov full_output_cov : bool) : M A T :=
  call (Call_expand_independent_outputs fvar full_cov full_output_cov)
       (expand_independent_outputs fvar full_cov full_output_cov).

Definition call_mix_latent_gp (W gmu gvar : T) (full_cov full_output_cov : bool)
  : M A (T * T) :=
  call (Call_mix_latent_gp W gmu gvar full_cov full_output_cov)
       (mix_latent_gp W gmu gvar full_cov full_output_cov).

Definition call_rollaxis_left (t : T) (num_rolls : nat) : M A T :=
  call (Call_rollaxis_left t num_rolls) (rollaxis_left t num_rolls).

(** Lines 24-70: [SharedIndependentMof] with [SharedIndependentMok]. *)
Definition _conditional_SharedIndependent
    (Xnew : T) (feature : Feature) (kernel : Kernel A) (f : T)
    (full_cov full_output_cov : bool) (q_sqrt : option T) (white : bool)
  : M A (T * T) :=
  Kmm <- call_Kuu feature kernel (default_jitter env) ;;
  Kmn <- call_Kuf feature kernel Xnew ;;
  Knn <- call_kernel kernel Xnew full_cov false ;;
  Knn <- lift (if full_cov then index_first_0 Knn else index_last_0 Knn) ;;
  '(fmean, fvar) <- call_base_conditional Kmn Kmm Knn f full_cov q_sqrt white ;;
  fvar <- call_expand_independent_outputs fvar full_cov full_output_cov ;;
  ret (fmean, fvar).

(** Lines 104-107: the kernels whose covariances make up [Knns]. *)
Definition constituent_kernels (feature : Feature) (kernel : Kernel A)
  : M A (list Handle) :=
  if isinstance_Combination kernel then getattr (kernel_kernels kernel)
  else
    k <- getattr (kernel_kernel kernel) ;;
    features <- getattr (feature_features feature) ;;
    ret (repeat k (length features)).

(** Line 108. *)
Definition stack_Knns (kernels : list Handle) (Xnew : T) (full_cov : bool)
  : M A T :=
  Ks <- mapM (fun k => if full_cov then call_K k Xnew else call_K_diag k Xnew)
             kernels ;;
  lift (tf_stack Ks).

(** Line 111.  [q_sqrt.shape] is read before anything else. *)
Definition reshape_q_sqrt (q_sqrt : option T) : M A T :=
  q <- getattr q_sqrt ;;
  if ndims q =? 2 then lift (newaxis_2 (tf_transpose q))
  else lift (newaxis_1 q).

(** [tf.map_fn] over the five tensors of line 119: the slices along the
    leading axis are handed to [fn] one after the other and the two outputs
    are stacked.  Tensors whose leading axes differ make it raise
    [ValueError]. *)
Definition tf_map_fn (fn : T * T * T * T * T -> M A (T * T))
    (elems : T * T * T * T * T) : M A (T * T) :=
  let '(e1, e2, e3, e4, e5) := elems in
  s1 <- lift (tf_unstack e1) ;;
  s2 <- lift (tf_unstack e2) ;;
  s3 <- lift (tf_unstack e3) ;;
  s4 <- lift (tf_unstack e4) ;;
  s5 <- lift (tf_unstack e5) ;;
  let n := length s1 in
  if (length s2 =? n) && (length s3 =? n) && (length s4 =? n) && (length s5 =? n)
  then
    outs <- mapM fn (combine (combine (combine (combine s1 s2) s3) s4) s5) ;;
    r1 <- lift (tf_stack (map fst outs)) ;;
    r2 <- lift (tf_stack (map snd outs)) ;;
    ret (r1, r2)
  else raise ValueError.

(** Lines 73-129: [SeparateIndependentMof] or [SharedIndependentMof] with
    [SeparateIndependentMok], and [SeparateIndependentMof] with
    [SharedIndependentMok]. *)
Definition _conditional_SeparateIndependent
    (Xnew : T) (feature : Feature) (kernel : Kernel A) (f : T)
    (full_cov full_output_cov : bool) (q_sqrt : option T) (white : bool)
  : M A (T * T) :=
  Kmms <- call_Kuu feature kernel (default_jitter env) ;;
  Kmns <- call_Kuf feature kernel Xnew ;;
  kernels <- constituent_kernels feature kernel ;;
  Knns <- stack_Knns kernels Xnew full_cov ;;
  fs <- lift (newaxis_2 (tf_transpose f)) ;;
  q_sqrts <- reshape_q_sqrt q_sqrt ;;
  let single_gp_conditional (t : T * T * T * T * T) :=
    let '(Kmm, Kmn, Knn, f, q_sqrt) := t in
    call_base_conditional Kmn Kmm Knn f full_cov (Some q_sqrt) white in
  '(rmu, rvar) <- tf_map_fn single_gp_conditional (Kmms, Kmns, Knns, fs, q_sqrts) ;;
  rmu0 <- lift (index_last_0 rmu) ;;
  fmu <- call_rollaxis_left rmu0 1 ;;
  fvar <- (if full_cov then lift (index_third_last_0 rvar)
           else rvar0 <- lift (index_last_0 rvar) ;;
                call_rollaxis_left rvar0 1) ;;
  fvar <- call_expand_independent_outputs fvar full_cov full_output_cov ;;
  ret (fmu, fvar).

(** Lines 132-170: [SharedIndependentMof] or [SeparateIndependentMof] with
    [SeparateMixedMok]. *)
Definition _conditional_IndependentInterdomain
    (Xnew : T) (feature : Feature) (kernel : Kernel A) (f : T)
    (full_cov full_output_cov : bool) (q_sqrt : option T) (white : bool)
  : M A (T * T) :=
  Kmm <- call_Kuu feature kernel (default_jitter env) ;;
  Kmn <- call_Kuf feature kernel Xnew ;;
  Knn <- call_kernel kernel Xnew full_cov full_output_cov ;;
  call_independent_interdomain_conditional
    Kmn Kmm Knn f full_cov full_output_cov q_sqrt white.

(** Lines 173-234: [InducingPoints] with any [Mok]. *)
Definition _conditional_FullyCorrelated
    (Xnew : T) (feature : Feature) (kernel : Kernel A) (f : T)
    (full_cov full_output_cov : bool) (q_sqrt : option T) (white : bool)
  : M A (T * T) :=
  Kmm <- call_Kuu feature kernel (default_jitter env) ;;
  Kmn <- call_Kuf feature kernel Xnew ;;
  Knn <- call_kernel kernel Xnew full_cov full_output_cov ;;
  match shape Kmn with
  | [M; L; N; K] =>
      Kmm <- lift (tf_reshape Kmm [M * L; M * L]) ;;
      if Bool.eqb full_cov full_output_cov then
        Kmn <- lift (tf_reshape Kmn [M * L; N * K]) ;;
        Knn <- lift (if full_cov then tf_reshape Knn [N * K; N * K]
                     else tf_reshape Knn [N * K]) ;;
        '(fmean, fvar) <- call_base_conditional Kmn Kmm Knn f full_cov q_sqrt white ;;
        fmean <- lift (tf_reshape fmean [N; K]) ;;
        fvar <- lift (tf_reshape fvar (if full_cov then [N; K; N; K] else [N; K])) ;;
        ret (fmean, fvar)
      else
        Kmn <- lift (tf_reshape Kmn [M * L; N; K]) ;;
        '(fmean, fvar) <- call_fully_correlated_conditional
                            Kmn Kmm Knn f full_cov full_output_cov q_sqrt white ;;
        ret (fmean, fvar)
  | _ => raise ValueError
  end.

(** Lines 237-271: [MixedKernelSharedMof] or [MixedKernelSeparateMof] with
    [SeparateMixedMok].  [cb] is the function registered for
    [(SeparateIndependentMof, SeparateIndependentMok)] on line 73. *)
Definition _conditional_MixedKernel
    (Xnew : T) (feature : Feature) (kernel : Kernel A) (f : T)
    (full_cov full_output_cov : bool) (q_sqrt : option T) (white : bool)
  : M A (T * T) :=
  let cb := _conditional_SeparateIndependent in
  '(gmu, gvar) <- cb Xnew feature kernel f full_cov false q_sqrt white ;;
  W <- getattr (kernel_W kernel) ;;
  call_mix_latent_gp W gmu gvar full_cov full_output_cov.

(** ** Dispatch *)

Inductive Regime : Type :=
| SharedIndependent
| SeparateIndependent
| IndependentInterdomain
| FullyCorrelated
| MixedKernel.

Definition implementation (r : Regime) :=
  match r with
  | SharedIndependent => _conditional_SharedIndependent
  | SeparateIndependent => _conditional_SeparateIndependent
  | IndependentInterdomain => _conditional_IndependentInterdomain
  | FullyCorrelated => _conditional_FullyCorrelated
  | MixedKernel => _conditional_MixedKernel
  end.

(** Modelled from the spec: [conditional_dispatch] of
    [gpflow/conditionals/dispatch.py], which lies outside this module.  The
    table is the one the decorators of lines 24, 73-75, 132, 173 and 237
    register, looked up by the classes of the two objects (section 4.1); an
    unregistered pair is refused. *)
Definition registered_function (fc : FeatureClass) (kc : KernelClass)
  : option Regime :=
  match fc, kc with
  | InducingPoints, _ => Some FullyCorrelated
  | SharedIndependentMof, SharedIndependentMok => Some SharedIndependent
  | SeparateIndependentMof, SeparateIndependentMok => Some SeparateIndependent
  | SharedIndependentMof, SeparateIndependentMok => Some SeparateIndependent
  | SeparateIndependentMof, SharedIndependentMok => Some SeparateIndependent
  | SharedIndependentMof, SeparateMixedMok => Some IndependentInterdomain
  | SeparateIndependentMof, SeparateMixedMok => Some IndependentInterdomain
  | MixedKernelSharedMof, SeparateMixedMok => Some MixedKernel
  | MixedKernelSeparateMof, SeparateMixedMok => Some MixedKernel
  | _, _ => None
  end.

Definition conditional
    (Xnew : T) (feature : Feature) (kernel : Kernel A) (f : T)
    (full_cov full_output_cov : bool) (q_sqrt : option T) (white : bool)
  : M A (T * T) :=
  match registered_function (feature_class feature) (kernel_class kernel) with
  | Some r =>
      implementation r Xnew feature kernel f full_cov full_output_cov q_sqrt white
  | None => raise DispatchError
  end.

End Conditionals.

(** ** Reading the call log, and what is expected of the helpers *)

Section Observations.

Context {A : Type} {SA : Scalar A}.
Variable env : Collaborators A.

Local Abbreviation T := (Tensor A).

(** The call that line 108 makes for one kernel, and its answer. *)
Definition Knn_call (Xnew : T) (full_cov : bool) (k : Handle) : Call A :=
  if full_cov then Call_K k Xnew else Call_K_diag k Xnew.

Definition Knn_of (Xnew : T) (full_cov : bool) (k : Handle) : Result T :=
  if full_cov then K env k Xnew else K_diag env k Xnew.

(** The [Knn] argument of a recorded [base_conditional] call. *)
Definition Knn_argument (c : Call A) : option T :=
  match c with
  | Call_base_conditional _ _ Knn _ _ _ _ => Some Knn
  | _ => None
  end.

Fixpoint Knn_arguments (l : list (Call A)) : list T :=
  match l with
  | [] => []
  | c :: l' =>
      match Knn_argument c with
      | Some Knn => Knn :: Knn_arguments l'
      | None => Knn_arguments l'
      end
  end.

(** Modelled from the spec: the shapes of [base_conditional], whose code lies
    outside this module.  Section 4.2: called with a [Kmn] of shape [M, N]
    and an [f] of shape [M, P], it returns a mean [N, P] and a variance
    [N, P], or [P, N, N] under [full_cov].  Nothing is said of calls on
    tensors of other shapes, such as a batched [Kmn]. *)
Definition base_conditional_shapes : Prop :=
  forall Kmn Kmm Knn f full_cov q_sqrt white fmean fvar M N P,
    shape Kmn = [M; N] ->
    shape f = [M; P] ->
    base_conditional env Kmn Kmm Knn f full_cov q_sqrt white = Ok (fmean, fvar) ->
    shape fmean = [N; P]
    /\ shape fvar = (if full_cov then [P; N; N] else [N; P]).

(** Modelled from the spec: the shapes of
    [independent_interdomain_conditional], whose code lies outside this
    module.  Section 4.5b: given [Kmn] of shape [M, L, N, P], a joint [N, P]
    mean and the requested covariance layout. *)
Definition independent_interdomain_conditional_shapes : Prop :=
  forall Kmn Kmm Knn f full_cov full_output_cov q_sqrt white fmean fvar M L N P,
    shape Kmn = [M; L; N; P] ->
    independent_interdomain_conditional env Kmn Kmm Knn f
      full_cov full_output_cov q_sqrt white = Ok (fmean, fvar) ->
    shape fmean = [N; P]
    /\ shape fvar = variance_shape N P full_cov full_output_cov.

(** Modelled from the spec: the shapes of [fully_correlated_conditional],
    whose code lies outside this module.  Sections 2 and 4.6 ask the same of
    the helper for fully correlated inducing variables, on the unflattened
    [Kmn] of shape [M*L, N, K]. *)
Definition fully_correlated_conditional_shapes : Prop :=
  forall Kmn Kmm Knn f full_cov full_output_cov q_sqrt white fmean fvar ML N K,
    shape Kmn = [ML; N; K] ->
    fully_correlated_conditional env Kmn Kmm Knn f
      full_cov full_output_cov q_sqrt white = Ok (fmean, fvar) ->
    shape fmean = [N; K]
    /\ shape fvar = variance_shape N K full_cov full_output_cov.

(** Inputs with [N] new points and [P] outputs, shaped as the docstrings of
    the five implementations say (lines 36-37 and 47-48, 87-88, 145-146,
    186-187, 248-251): [Xnew] is [N, D]; [Kmn], the answer of [Kuf], is
    [M, N] for the shared kernel, [P, M, N] for the batched independent
    kernels, and [M, L, N, P] for the interdomain and the fully correlated
    case; [f] is [M, P] in the two independent cases.  In the mixed-kernel
    case [Kmn] is [L, M, N] and [f] is [M, L] for the [L] latent processes,
    and the number of outputs is that of the rows of [kernel.W], of shape
    [P, L]. *)
Definition documented_inputs (r : Regime) (N P : nat)
    (Xnew : T) (kernel : Kernel A) (f Kmn : T) : Prop :=
  exists D M,
    shape Xnew = [N; D]
    /\ match r with
       | SharedIndependent => shape Kmn = [M; N] /\ shape f = [M; P]
       | SeparateIndependent => shape Kmn = [P; M; N] /\ shape f = [M; P]
       | IndependentInterdomain => exists L, shape Kmn = [M; L; N; P]
       | FullyCorrelated => exists L, shape Kmn = [M; L; N; P]
       | MixedKernel =>
           exists L W,
             shape Kmn = [L; M; N] /\ shape f = [M; L]
             /\ kernel_W kernel = Some W /\ shape W = [P; L]
       end.

(** The two output indices of an entry of a variance with a full output
    covariance: [N, P, P], or [N, P, N, P] under [full_cov]. *)
Definition output_indices (full_cov : bool) (idx : list nat) : option (nat * nat) :=
  match full_cov, idx with
  | false, [_; p; q] => Some (p, q)
  | true, [_; p; _; q] => Some (p, q)
  | _, _ => None
  end.

(** Where the covariance of output [p] at point [n] with output [q] at point
    [n'] sits in each of the four layouts. *)
Definition variance_index (full_cov full_output_cov : bool)
    (n p n' q : nat) : list nat :=
  match full_cov, full_output_cov with
  | true, true => [n; p; n'; q]
  | true, false => [p; n; n']
  | false, true => [n; p; q]
  | false, false => [n; p]
  end.

(** The variance of latent [l] between the points [n] and [n']: read from
    [L, N, N] under [full_cov], from the diagonal [N, L] otherwise. *)
Definition latent_variance (full_cov : bool) (gvar : T) (n n' l : nat) : A :=
  if full_cov then get gvar [l; n; n'] else get gvar [n; l].

(** Calls of [expand_independent_outputs] that ask for no output covariance
    and so hand their argument back unchanged. *)
Definition expands_nothing (c : Call A) : Prop :=
  match c with
  | Call_expand_independent_outputs fvar full_cov full_output_cov =>
      full_output_cov = false
      /\ expand_independent_outputs fvar full_cov full_output_cov = Ok fvar
  | _ => True
  end.

End Observations.

(** ** What an implementation calls, with which arguments, and how it fails *)

Section Footprints.

Context {A : Type} {SA : Scalar A}.
Variable env : Collaborators A.

Local Abbreviation T := (Tensor A).

(** The imported functions each implementation has a call of in its body. *)
Definition may_call (r : Regime) (c : Call A) : bool :=
  match c with
  | Call_Kuu _ _ _ | Call_Kuf _ _ _ => true
  | Call_kernel _ _ _ _ =>
      match r with
      | SharedIndependent | IndependentInterdomain | FullyCorrelated => true
      | _ => false
      end
  | Call_K _ _ | Call_K_diag _ _ | Call_rollaxis_left _ _ =>
      match r with
      | SeparateIndependent | MixedKernel => true
      | _ => false
      end
  | Call_base_conditional _ _ _ _ _ _ _ =>
      match r with
      | IndependentInterdomain => false
      | _ => true
      end
  | Call_independent_interdomain_conditional _ _ _ _ _ _ _ _ =>
      match r with
      | IndependentInterdomain => true
      | _ => false
      end
  | Call_fully_correlated_conditional _ _ _ _ _ _ _ _ =>
      match r with
      | FullyCorrelated => true
      | _ => false
      end
  | Call_expand_independent_outputs _ _ _ =>
      match r with
      | SharedIndependent | SeparateIndependent | MixedKernel => true
      | _ => false
      end
  | Call_mix_latent_gp _ _ _ _ _ =>
      match r with
      | MixedKernel => true
      | _ => false
      end
  end.

(** A call that hands on the caller's feature, kernel, [Xnew], [full_cov]
    and [white] where it takes them. *)
Definition hands_on_inputs (feature : Feature) (kernel : Kernel A) (Xnew : T)
    (full_cov white : bool) (c : Call A) : Prop :=
  match c with
  | Call_Kuu f k _ => f = feature /\ k = kernel
  | Call_Kuf f k X => f = feature /\ k = kernel /\ X = Xnew
  | Call_kernel k X full _ => k = kernel /\ X = Xnew /\ full = full_cov
  | Call_K _ X => X = Xnew /\ full_cov = true
  | Call_K_diag _ X => X = Xnew /\ full_cov = false
  | Call_base_conditional _ _ _ _ fc _ w => fc = full_cov /\ w = white
  | Call_independent_interdomain_conditional _ _ _ _ fc _ _ w =>
      fc = full_cov /\ w = white
  | Call_fully_correlated_conditional _ _ _ _ fc _ _ w =>
      fc = full_cov /\ w = white
  | Call_expand_independent_outputs _ fc _ => fc = full_cov
  | Call_mix_latent_gp W _ _ fc _ => fc = full_cov /\ kernel_W kernel = Some W
  | Call_rollaxis_left _ n => n = 1
  end.

(** The [full_output_cov] a call carries: the caller's, except that the
    shared-kernel implementation asks the kernel with [False] (line 65) and
    the mixed-kernel implementation expands with [False] (line 269). *)
Definition hands_on_output_flag (r : Regime) (full_output_cov : bool)
    (c : Call A) : Prop :=
  match c with
  | Call_kernel _ _ _ foc =>
      foc = match r with SharedIndependent => false | _ => full_output_cov end
  | Call_independent_interdomain_conditional _ _ _ _ _ foc _ _ =>
      foc = full_output_cov
  | Call_fully_correlated_conditional _ _ _ _ _ foc _ _ =>
      foc = full_output_cov
  | Call_expand_independent_outputs _ _ foc =>
      foc = match r with MixedKernel => false | _ => full_output_cov end
  | Call_mix_latent_gp _ _ _ _ foc => foc = full_output_cov
  | _ => True
  end.

(** The [q_sqrt] a conditional helper is called with: the caller's own,
    [None] included, except in the batched calls of lines 113-120, which
    always carry a slice. *)
Definition hands_on_q_sqrt (r : Regime) (q_sqrt : option T) (c : Call A) : Prop :=
  match c with
  | Call_base_conditional _ _ _ _ _ q _ =>
      match r with
      | SeparateIndependent | MixedKernel => q <> None
      | _ => q = q_sqrt
      end
  | Call_independent_interdomain_conditional _ _ _ _ _ _ q _ => q = q_sqrt
  | Call_fully_correlated_conditional _ _ _ _ _ _ q _ => q = q_sqrt
  | _ => True
  end.

(** The calls that evaluate covariances: [Kuu], [Kuf], the multi-output
    kernel, and the [K] and [K_diag] of its constituents. *)
Definition is_covariance_call (c : Call A) : bool :=
  match c with
  | Call_Kuu _ _ _ | Call_Kuf _ _ _ | Call_kernel _ _ _ _
  | Call_K _ _ | Call_K_diag _ _ => true
  | _ => false
  end.




(** The arguments of a recorded [base_conditional] call, in the order of
    line 115: [Kmn], [Kmm], [Knn], [f], [q_sqrt]. *)
Definition base_conditional_arguments (c : Call A)
  : option (T * T * T * T * option T) :=
  match c with
  | Call_base_conditional Kmn Kmm Knn f _ q _ => Some (Kmn, Kmm, Knn, f, q)
  | _ => None
  end.

Fixpoint collect {X : Type} (sel : Call A -> option X) (l : list (Call A))
  : list X :=
  match l with
  | [] => []
  | c :: l' =>
      match sel c with
      | Some x => x :: collect sel l'
      | None => collect sel l'
      end
  end.

(** The tensor a recorded [rollaxis_left] or [expand_independent_outputs]
    call is given. *)
Definition rollaxis_left_argument (c : Call A) : option T :=
  match c with
  | Call_rollaxis_left t _ => Some t
  | _ => None
  end.

Definition expand_argument (c : Call A) : option T :=
  match c with
  | Call_expand_independent_outputs v _ _ => Some v
  | _ => None
  end.

(** The call line 115 makes for one slice of the five tensors, its answer,
    and its arguments as they are recorded. *)
Definition single_gp_call (full_cov white : bool) (t : T * T * T * T * T)
  : Call A :=
  let '(Kmm, Kmn, Knn, f, q_sqrt) := t in
  Call_base_conditional Kmn Kmm Knn f full_cov (Some q_sqrt) white.

Definition single_gp_answer (full_cov white : bool) (t : T * T * T * T * T)
  : Result (T * T) :=
  let '(Kmm, Kmn, Knn, f, q_sqrt) := t in
  base_conditional env Kmn Kmm Knn f full_cov (Some q_sqrt) white.

Definition single_gp_arguments (t : T * T * T * T * T)
  : T * T * T * T * option T :=
  let '(Kmm, Kmn, Knn, f, q_sqrt) := t in (Kmn, Kmm, Knn, f, Some q_sqrt).

(** The slices [tf.map_fn] walks through, side by side. *)
Definition zip5 (s1 s2 s3 s4 s5 : list T) : list (T * T * T * T * T) :=
  combine (combine (combine (combine s1 s2) s3) s4) s5.

End Footprints.

(** ** A small instance, for running the code

    Integer entries, two inducing points, three new points, two outputs and
    two latent processes.  The collaborators answer with tensors of the
    shapes their docstrings announce. *)

Module Example.

#[export] Instance Scalar_Z : Scalar Z := {| zero := 0%Z; add := Z.add; mul := Z.mul |}.

Definition iota (s : list nat) (k : Z) : Tensor Z :=
  tabulate s (fun idx => (k + Z.of_nat (ravel s idx))%Z).

Definition rows (X : Tensor Z) : nat := nth 0 (shape X) 0.

Definition toy_Kuu (feature : Feature) (kernel : Kernel Z) (jitter : Z)
  : Result (Tensor Z) :=
  match feature_class feature, kernel_class kernel with
  | InducingPoints, _ => Ok (iota [2; 2; 2; 2] jitter)
  | SharedIndependentMof, SharedIndependentMok => Ok (iota [2; 2] jitter)
  | _, _ => Ok (iota [2; 2; 2] jitter)
  end.

Definition toy_Kuf (feature : Feature) (kernel : Kernel Z) (Xnew : Tensor Z)
  : Result (Tensor Z) :=
  match shape Xnew with
  | [N; D] =>
      match feature_class feature, kernel_class kernel with
      | InducingPoints, _ => Ok (iota [2; 2; N; 2] 100)
      | SharedIndependentMof, SharedIndependentMok => Ok (iota [2; N] 100)
      | SharedIndependentMof, SeparateMixedMok
      | SeparateIndependentMof, SeparateMixedMok => Ok (iota [2; 2; N; 2] 100)
      | _, _ => Ok (iota [2; 2; N] 100)
      end
  | _ => Raise InvalidArgumentError
  end.

Definition toy_kernel_call (kernel : Kernel Z) (Xnew : Tensor Z)
    (full full_output_cov : bool) : Result (Tensor Z) :=
  Ok (iota (variance_shape (rows Xnew) 2 full full_output_cov) 200).

Definition toy_K (k : Handle) (Xnew : Tensor Z) : Result (Tensor Z) :=
  Ok (iota [rows Xnew; rows Xnew] (Z.of_nat (1000 * k))).

Definition toy_K_diag (k : Handle) (Xnew : Tensor Z) : Result (Tensor Z) :=
  Ok (iota [rows Xnew] (Z.of_nat (1000 * k))).

Definition toy_base_conditional (Kmn Kmm Knn f : Tensor Z) (full_cov : bool)
    (q_sqrt : option (Tensor Z)) (white : bool)
  : Result (Tensor Z * Tensor Z) :=
  match shape Kmn, shape f with
  | [M; N], [M'; P] =>
      if M =? M'
      then Ok (iota [N; P] (get Kmn [0; 0]),
               iota (if full_cov then [P; N; N] else [N; P]) (get Knn [0]))
      else Raise InvalidArgumentError
  | _, _ => Raise InvalidArgumentError
  end.

Definition toy_independent_interdomain_conditional (Kmn Kmm Knn f : Tensor Z)
    (full_cov full_output_cov : bool) (q_sqrt : option (Tensor Z)) (white : bool)
  : Result (Tensor Z * Tensor Z) :=
  match shape Kmn with
  | [M; L; N; P] =>
      Ok (iota [N; P] 4000, iota (variance_shape N P full_cov full_output_cov) 5000)
  | _ => Raise InvalidArgumentError
  end.

Definition toy_fully_correlated_conditional (Kmn Kmm Knn f : Tensor Z)
    (full_cov full_output_cov : bool) (q_sqrt : option (Tensor Z)) (white : bool)
  : Result (Tensor Z * Tensor Z) :=
  match shape Kmn with
  | [ML; N; P] =>
      Ok (iota [N; P] 6000, iota (variance_shape N P full_cov full_output_cov) 7000)
  | _ => Raise InvalidArgumentError
  end.

Definition toy : Collaborators Z :=
  {| default_jitter := 1%Z;
     Kuu := toy_Kuu;
     Kuf := toy_Kuf;
     kernel_call := toy_kernel_call;
     K := toy_K;
     K_diag := toy_K_diag;
     base_conditional := toy_base_conditional;
     independent_interdomain_conditional := toy_independent_interdomain_conditional;
     fully_correlated_conditional := toy_fully_correlated_conditional |}.

(** Three new points in one dimension, inducing values [M, P] = [2, 2], and
    the two forms of [q_sqrt]. *)
Definition Xnew : Tensor Z := iota [3; 1] 0.
Definition f : Tensor Z := iota [2; 2] 10.
Definition f_flat : Tensor Z := iota [4; 1] 10.
Definition q_sqrt_diag : Tensor Z := iota [2; 2] 20.
Definition q_sqrt_chol : Tensor Z := iota [2; 2; 2] 30.
Definition W : Tensor Z := iota [2; 2] 1.

Definition shared_feature : Feature :=
  {| feature_class := SharedIndependentMof; feature_features := None |}.
Definition separate_feature : Feature :=
  {| feature_class := SeparateIndependentMof; feature_features := Some [0; 1] |}.
Definition inducing_points : Feature :=
  {| feature_class := InducingPoints; feature_features := None |}.
Definition mixed_shared_feature : Feature :=
  {| feature_class := MixedKernelSharedMof; feature_features := None |}.

Definition shared_kernel : Kernel Z :=
  mkKernel SharedIndependentMok false None (Some 5) None.
Definition separate_kernel : Kernel Z :=
  mkKernel SeparateIndependentMok true (Some [5; 6]) None None.
Definition mixed_kernel : Kernel Z :=
  mkKernel SeparateMixedMok true (Some [5; 6]) None (Some W).

(** The pair a run returned. *)
Definition returned (m : M Z (Tensor Z * Tensor Z)) : Tensor Z * Tensor Z :=
  match result m with
  | Ok p => p
  | Raise _ => (fill [] 0%Z, fill [] 0%Z)
  end.

(** Runs of the five implementations on these inputs. *)
Definition run_SharedIndependent (full_cov full_output_cov : bool) :=
  _conditional_SharedIndependent toy Xnew shared_feature shared_kernel f
    full_cov full_output_cov None false.

Definition run_SeparateIndependent (full_cov full_output_cov : bool) :=
  _conditional_SeparateIndependent toy Xnew separate_feature separate_kernel f
    full_cov full_output_cov (Some q_sqrt_diag) false.

Definition run_IndependentInterdomain (full_cov full_output_cov : bool) :=
  _conditional_IndependentInterdomain toy Xnew shared_feature mixed_kernel f
    full_cov full_output_cov None false.

Definition run_FullyCorrelated (full_cov full_output_cov : bool) :=
  _conditional_FullyCorrelated toy Xnew inducing_points mixed_kernel f_flat
    full_cov full_output_cov None false.

Definition run_MixedKernel (full_cov full_output_cov : bool) :=
  _conditional_MixedKernel toy Xnew mixed_shared_feature mixed_kernel f
    full_cov full_output_cov (Some q_sqrt_chol) false.

End Example.


(** ** Further cases of the small instance *)

Module Cases.

Import Example.

(** Collaborators whose [Kuu] answers with three entries, too few for any
    [M*L, M*L] matrix with [M*L = 4]. *)
Definition toy_short_Kmm : Collaborators Z :=
  {| default_jitter := 1%Z;
     Kuu := fun _ _ jitter => Ok (iota [3] jitter);
     Kuf := toy_Kuf;
     kernel_call := toy_kernel_call;
     K := toy_K;
     K_diag := toy_K_diag;
     base_conditional := toy_base_conditional;
     independent_interdomain_conditional := toy_independent_interdomain_conditional;
     fully_correlated_conditional := toy_fully_correlated_conditional |}.

(** The batched independent implementation on a stack of Cholesky factors
    and without any [q_sqrt]. *)
Definition run_SeparateIndependent_chol (full_cov full_output_cov : bool) :=
  _conditional_SeparateIndependent toy Xnew separate_feature separate_kernel f
    full_cov full_output_cov (Some q_sqrt_chol) false.

Definition run_SeparateIndependent_None (full_cov full_output_cov : bool) :=
  _conditional_SeparateIndependent toy Xnew separate_feature separate_kernel f
    full_cov full_output_cov None false.

(** The fully correlated implementation on a feature and a kernel for which
    [Kuf] answers with two axes. *)
Definition run_FullyCorrelated_two_axes (full_cov full_output_cov : bool) :=
  _conditional_FullyCorrelated toy Xnew shared_feature shared_kernel f
    full_cov full_output_cov None false.

Definition run_FullyCorrelated_short_Kmm (full_cov full_output_cov : bool) :=
  _conditional_FullyCorrelated toy_short_Kmm Xnew inducing_points mixed_kernel
    f_flat full_cov full_output_cov None false.

End Cases.

(** * Properties *)

(** ** Tensors *)

Section TensorFacts.

Context {A : Type} {SA : Scalar A}.

Local Abbreviation T := (Tensor A).

Lemma shape_tabulate (s : list nat) (g : list nat -> A) :
  shape (tabulate s g) = s.
Proof. reflexivity. Qed.

Lemma wf_tabulate (s : list nat) (g : list nat -> A) : wf (tabulate s g).
Proof.
  unfold wf, size, tabulate; simpl.
  now rewrite length_map, length_seq.
Qed.

Lemma in_bounds_length (s idx : list nat) :
  in_bounds s idx -> length idx = length s.
Proof. induction 1; simpl; congruence. Qed.

Lemma ravel_lt (s idx : list nat) : in_bounds s idx -> ravel s idx < prod s.
Proof.
  induction 1 as [|i d idx s Hi _ IH]; simpl; [lia|].
  fold (prod s). nia.
Qed.

Lemma unravel_ravel (s idx : list nat) :
  in_bounds s idx -> unravel s (ravel s idx) = idx.
Proof.
  induction 1 as [|i d idx s Hi Hb IH]; simpl; [reflexivity|].
  pose proof (ravel_lt Hb) as Hlt.
  assert (Hq : (i * prod s + ravel s idx) / prod s = i).
  { rewrite Nat.add_comm, Nat.div_add by lia.
    rewrite Nat.div_small by lia. reflexivity. }
  assert (Hr : (i * prod s + ravel s idx) mod prod s = ravel s idx).
  { rewrite Nat.add_comm, Nat.Div0.mod_add.
    now apply Nat.mod_small. }
  now rewrite Hq, Hr, IH.
Qed.

(** Reading an entry of a tabulated tensor gives the tabulated function. *)
Lemma get_tabulate (s idx : list nat) (g : list nat -> A) :
  in_bounds s idx -> get (tabulate s g) idx = g idx.
Proof.
  intros Hb. unfold get, tabulate; simpl.
  pose proof (ravel_lt Hb) as Hlt.
  rewrite nth_indep with (d' := g (unravel s 0))
    by now rewrite length_map, length_seq.
  rewrite (map_nth (fun i => g (unravel s i))).
  rewrite seq_nth by assumption. simpl.
  now rewrite unravel_ravel.
Qed.

Lemma shape_eqb_eq (s1 s2 : list nat) : shape_eqb s1 s2 = true <-> s1 = s2.
Proof.
  revert s2; induction s1 as [|d1 s1 IH]; intros [|d2 s2]; simpl;
    try (split; [discriminate | discriminate]); [tauto|].
  rewrite andb_true_iff, Nat.eqb_eq, IH.
  split; [intros [-> ->]; reflexivity | intros [= -> ->]; auto].
Qed.

Lemma tf_reshape_Ok (t t' : T) (s : list nat) :
  tf_reshape t s = Ok t' <-> size t = prod s /\ t' = mkTensor s (data t).
Proof.
  unfold tf_reshape. destruct (Nat.eqb_spec (size t) (prod s)) as [E|E].
  - split; [intros [= <-]; auto | intros [_ ->]; reflexivity].
  - split; [discriminate | intros [E' _]; contradiction].
Qed.

Lemma tf_stack_Ok (ts : list T) (r : T) :
  tf_stack ts = Ok r ->
  exists s,
    Forall (fun t => shape t = s) ts
    /\ r = mkTensor (length ts :: s) (concat (map data ts))
    /\ forall t0 ts', ts = t0 :: ts' -> s = shape t0.
Proof.
  unfold tf_stack. destruct ts as [|t0 ts'].
  - intros [= <-]. exists []. repeat split; [constructor | discriminate].
  - destruct (forallb _ _) eqn:E; [|discriminate].
    intros [= <-]. exists (shape t0). split; [|split; [reflexivity|]].
    + rewrite forallb_forall in E. apply Forall_forall. intros t Ht.
      now apply shape_eqb_eq, E.
    + now intros ? ? [= <- _].
Qed.

(** A stack of which [r[..., 0]] can be taken is a stack of at least one
    tensor: the empty stack has shape [[0]]. *)
Lemma tf_stack_index_last_0 (ts : list T) (r r0 : T) :
  tf_stack ts = Ok r -> index_last_0 r = Ok r0 -> 0 < length ts.
Proof.
  destruct ts as [|t ts]; simpl; [|lia].
  intros [= <-]. discriminate.
Qed.

Lemma tf_stack_same_shape (ts : list T) (s : list nat) :
  ts <> [] -> Forall (fun t => shape t = s) ts ->
  tf_stack ts = Ok (mkTensor (length ts :: s) (concat (map data ts))).
Proof.
  intros Hne Hs. destruct ts as [|t0 ts']; [contradiction|].
  unfold tf_stack.
  assert (E0 : shape t0 = s) by now inversion Hs.
  replace (forallb _ _) with true; [now rewrite E0|].
  symmetry. apply forallb_forall. intros t Ht. apply shape_eqb_eq.
  rewrite Forall_forall in Hs. now rewrite (Hs _ Ht), E0.
Qed.

(** Chunks of a concatenation: the slices of a stack are the stacked
    tensors, as long as these hold as many entries as their shape says. *)
Lemma chunks_concat (s : list nat) (ts : list T) :
  Forall (fun t => shape t = s /\ wf t) ts ->
  forall (k : nat) (pre : list A),
    length pre = k * prod s ->
    map (fun i => mkTensor s (firstn (prod s)
                                (skipn (i * prod s) (pre ++ concat (map data ts)))))
        (seq k (length ts))
    = ts.
Proof.
  induction 1 as [|t ts [Hs Hw] _ IH]; intros k pre Hpre; [reflexivity|].
  simpl. f_equal.
  - rewrite <- Hpre, skipn_app, Nat.sub_diag, skipn_all. simpl.
    unfold wf, size in Hw. rewrite Hs in Hw.
    rewrite <- Hw, firstn_app, Nat.sub_diag, firstn_all. simpl.
    rewrite app_nil_r. destruct t; simpl in *; congruence.
  - rewrite app_assoc. apply IH.
    rewrite length_app, Hpre. unfold wf, size in Hw. rewrite Hw, Hs. simpl. lia.
Qed.

Lemma tf_unstack_stack (s : list nat) (ts : list T) :
  Forall (fun t => shape t = s /\ wf t) ts ->
  tf_unstack (mkTensor (length ts :: s) (concat (map data ts))) = Ok ts.
Proof.
  intros H. unfold tf_unstack; simpl. f_equal.
  exact (chunks_concat H 0 [] eq_refl).
Qed.

Lemma tf_unstack_Ok (t : T) (l : list T) :
  tf_unstack t = Ok l ->
  exists d rest, shape t = d :: rest /\ length l = d
    /\ Forall (fun u => shape u = rest) l.
Proof.
  unfold tf_unstack. destruct (shape t) as [|d rest]; [discriminate|].
  intros [= <-]. exists d, rest. split; [reflexivity|].
  split; [now rewrite length_map, length_seq|].
  apply Forall_forall. intros u Hu. apply in_map_iff in Hu.
  destruct Hu as (i & <- & _). reflexivity.
Qed.

Lemma index_first_0_Ok (t r : T) :
  index_first_0 t = Ok r ->
  exists d rest, shape t = d :: rest /\ 0 < d /\ shape r = rest.
Proof.
  unfold index_first_0. destruct (shape t) as [|d rest]; [discriminate|].
  destruct (Nat.ltb_spec 0 d); [|discriminate].
  intros [= <-]. exists d, rest. auto.
Qed.

Lemma index_last_0_Ok (t r : T) :
  index_last_0 t = Ok r ->
  exists init d, shape t = init ++ [d] /\ 0 < d /\ shape r = init.
Proof.
  unfold index_last_0. destruct (rev (shape t)) as [|d rinit] eqn:E; [discriminate|].
  destruct (Nat.ltb_spec 0 d); [|discriminate].
  intros [= <-]. exists (rev rinit), d.
  split; [|auto]. rewrite <- (rev_involutive (shape t)), E. reflexivity.
Qed.

Lemma newaxis_2_Ok (t r : T) :
  newaxis_2 t = Ok r ->
  exists d0 d1 rest, shape t = d0 :: d1 :: rest /\ shape r = d0 :: d1 :: 1 :: rest.
Proof.
  unfold newaxis_2. destruct (shape t) as [|d0 [|d1 rest]]; try discriminate.
  intros [= <-]. exists d0, d1, rest. auto.
Qed.

Lemma rollaxis_left_Ok (t r : T) (n : nat) :
  rollaxis_left t n = Ok r ->
  shape r = skipn n (shape t) ++ firstn n (shape t).
Proof.
  unfold rollaxis_left. destruct (_ <? _); [discriminate|].
  now intros [= <-].
Qed.

Lemma index_third_last_0_Ok (t r : T) :
  index_third_last_0 t = Ok r ->
  3 <= length (shape t)
  /\ shape r = firstn (length (shape t) - 3) (shape t)
               ++ skipn (length (shape t) - 2) (shape t).
Proof.
  unfold index_third_last_0.
  destruct (Nat.ltb_spec (length (shape t)) 3); [discriminate|].
  destruct (_ <? _); [|discriminate].
  intros [= <-]. auto.
Qed.

(** The expansion yields the layout the flags select. *)
Lemma shape_expand_independent_outputs (fvar r : T) (N P : nat)
    (full_cov full_output_cov : bool) :
  shape fvar = (if full_cov then [P; N; N] else [N; P]) ->
  expand_independent_outputs fvar full_cov full_output_cov = Ok r ->
  shape r = variance_shape N P full_cov full_output_cov.
Proof.
  unfold expand_independent_outputs.
  destruct full_cov, full_output_cov; intros Hs; rewrite ?Hs;
    intros [= <-]; (reflexivity || assumption).
Qed.

Lemma mix_latent_gp_Ok (W gmu gvar fmean fvar : T)
    (full_cov full_output_cov : bool) :
  mix_latent_gp W gmu gvar full_cov full_output_cov = Ok (fmean, fvar) ->
  exists P L N,
    shape W = [P; L] /\ shape gmu = [N; L]
    /\ shape gvar = (if full_cov then [L; N; N] else [N; L])
    /\ shape fmean = [N; P]
    /\ shape fvar = variance_shape N P full_cov full_output_cov.
Proof.
  unfold mix_latent_gp.
  destruct (shape W) as [|P [|L [|? ?]]]; try discriminate.
  destruct (shape gmu) as [|N [|L' [|? ?]]]; try discriminate.
  destruct (Nat.eqb_spec L L') as [<-|]; [|discriminate]. simpl.
  destruct (shape_eqb _ _) eqn:E; [|discriminate]. simpl.
  apply shape_eqb_eq in E.
  intros [= <- <-]. exists P, L, N.
  repeat split; try assumption; destruct full_cov, full_output_cov; reflexivity.
Qed.

End TensorFacts.

(** ** Computations *)

Section MonadFacts.

Context {A : Type}.

Lemma bind_Ok {X Y : Type} (m : M A X) (k : X -> M A Y) (l : list (Call A)) (y : Y) :
  bind m k = (l, Ok y) <->
  exists l1 x l2, m = (l1, Ok x) /\ k x = (l2, Ok y) /\ l = l1 ++ l2.
Proof.
  unfold bind. destruct m as [l1 [x|e]].
  - destruct (k x) as [l2 r] eqn:E. split.
    + intros [= <- ->]. exists l1, x, l2. auto.
    + intros (l1' & x' & l2' & [= <- <-] & E' & ->).
      rewrite E in E'. now inversion E'.
  - split; [discriminate|]. intros (? & ? & ? & [=] & _).
Qed.

Lemma call_Ok {X : Type} (c : Call A) (r : Result X) (l : list (Call A)) (x : X) :
  call c r = (l, Ok x) <-> l = [c] /\ r = Ok x.
Proof. unfold call. split; [intros [= <- ->] | intros [-> ->]]; auto. Qed.

Lemma lift_Ok {X : Type} (r : Result X) (l : list (Call A)) (x : X) :
  lift r = (l, Ok x) <-> l = [] /\ r = Ok x.
Proof. unfold lift. split; [intros [= <- ->] | intros [-> ->]]; auto. Qed.

Lemma ret_Ok {X : Type} (x y : X) (l : list (Call A)) :
  ret x = (l, Ok y) <-> l = [] /\ x = y.
Proof. unfold ret. split; [intros [= <- ->] | intros [-> ->]]; auto. Qed.

Lemma raise_Ok {X : Type} (e : Exception) (l : list (Call A)) (x : X) :
  raise e = (l, Ok x) <-> False.
Proof. unfold raise. split; [discriminate | tauto]. Qed.

Lemma getattr_Ok {X : Type} (a : option X) (l : list (Call A)) (x : X) :
  getattr a = (l, Ok x) <-> l = [] /\ a = Some x.
Proof.
  unfold getattr, ret, raise. destruct a.
  - split; [intros [= <- ->] | intros [-> [= ->]]]; auto.
  - split; [discriminate | intros [_ [=]]].
Qed.

Lemma bind_ret {X Y : Type} (x : X) (k : X -> M A Y) : bind (ret x) k = k x.
Proof. unfold bind, ret. now destruct (k x). Qed.

Lemma bind_lift_Ok {X Y : Type} (x : X) (k : X -> M A Y) :
  bind (lift (Ok x)) k = k x.
Proof. exact (bind_ret x k). Qed.

Lemma bind_call_Ok {X Y : Type} (c : Call A) (x : X) (k : X -> M A Y) :
  bind (call c (Ok x)) k = (c :: calls (k x), result (k x)).
Proof. unfold bind, call, calls, result. now destruct (k x). Qed.

Lemma bind_call_Raise {X Y : Type} (c : Call A) (e : Exception) (k : X -> M A Y) :
  bind (call c (Raise e)) k = ([c], Raise e).
Proof. reflexivity. Qed.

Lemma surjective_M {X : Type} (m : M A X) : m = (calls m, result m).
Proof. now destruct m. Qed.

(** What [mapM] returns and records when every step succeeds. *)
Lemma mapM_Ok {X Y : Type} (fn : X -> M A Y) (xs : list X)
    (l : list (Call A)) (ys : list Y) :
  mapM fn xs = (l, Ok ys) ->
  Forall2 (fun x y => result (fn x) = Ok y) xs ys
  /\ l = concat (map (fun x => calls (fn x)) xs).
Proof.
  revert l ys. induction xs as [|x xs IH]; intros l ys; simpl.
  - intros H. apply ret_Ok in H. destruct H as [-> <-]. auto.
  - intros H. apply bind_Ok in H. destruct H as (l1 & y & l2 & H1 & H2 & ->).
    apply bind_Ok in H2. destruct H2 as (l3 & ys' & l4 & H3 & H4 & ->).
    apply ret_Ok in H4. destruct H4 as [-> <-].
    destruct (IH _ _ H3) as [IH1 ->]. rewrite H1. simpl.
    rewrite app_nil_r. split; [|reflexivity].
    constructor; [now rewrite H1 | assumption].
Qed.

Lemma all_calls_ret {X : Type} (P : Call A -> Prop) (x : X) : all_calls P (ret x).
Proof. constructor. Qed.

Lemma all_calls_raise {X : Type} (P : Call A -> Prop) (e : Exception) :
  all_calls P (@raise A X e).
Proof. constructor. Qed.

Lemma all_calls_lift {X : Type} (P : Call A -> Prop) (r : Result X) :
  all_calls P (lift r).
Proof. constructor. Qed.

Lemma all_calls_getattr {X : Type} (P : Call A -> Prop) (a : option X) :
  all_calls P (getattr a).
Proof. destruct a; constructor. Qed.

Lemma all_calls_call {X : Type} (P : Call A -> Prop) (c : Call A) (r : Result X) :
  P c -> all_calls P (call c r).
Proof. intros H. repeat constructor. exact H. Qed.

Lemma all_calls_bind {X Y : Type} (P : Call A -> Prop)
    (m : M A X) (k : X -> M A Y) :
  all_calls P m -> (forall x, all_calls P (k x)) -> all_calls P (bind m k).
Proof.
  unfold all_calls, calls, bind. destruct m as [l [x|e]]; simpl; intros Hm Hk.
  - specialize (Hk x). destruct (k x) as [l' r]. simpl in *.
    apply Forall_app; auto.
  - exact Hm.
Qed.

Lemma all_calls_mapM {X Y : Type} (P : Call A -> Prop)
    (fn : X -> M A Y) (xs : list X) :
  (forall x, all_calls P (fn x)) -> all_calls P (mapM fn xs).
Proof.
  intros H. induction xs as [|x xs IH]; simpl.
  - apply all_calls_ret.
  - apply all_calls_bind; [apply H|]. intros y.
    apply all_calls_bind; [exact IH|]. intros ys. apply all_calls_ret.
Qed.

End MonadFacts.

Create HintDb calls.

#[local] Hint Resolve all_calls_ret all_calls_raise all_calls_lift
  all_calls_getattr all_calls_mapM : calls.

(** Inversion of a successful computation, one step at a time. *)
Ltac inv_comp :=
  repeat match goal with
    | H : bind _ _ = (_, Ok _) |- _ =>
        apply bind_Ok in H;
        let l1 := fresh "l" in let x := fresh "x" in let l2 := fresh "l" in
        let H1 := fresh "H" in let H2 := fresh "H" in
        destruct H as (l1 & x & l2 & H1 & H2 & ->); cbv beta in H2
    | H : call _ _ = (_, Ok _) |- _ => apply call_Ok in H; destruct H as [-> H]
    | H : lift _ = (_, Ok _) |- _ => apply lift_Ok in H; destruct H as [-> H]
    | H : ret _ = (_, Ok _) |- _ => apply ret_Ok in H; destruct H as [-> H]
    | H : getattr _ = (_, Ok _) |- _ => apply getattr_Ok in H; destruct H as [-> H]
    | H : raise _ = (_, Ok _) |- _ => apply raise_Ok in H; contradiction
    | H : (let (_, _) := ?x in _) = (_, Ok _) |- _ => destruct x
    end.

(** ** The shared-feature, shared-kernel implementation (lines 24-70) *)

Section SharedIndependentFacts.

Context {A : Type} {SA : Scalar A}.
Variable env : Collaborators A.

Local Abbreviation T := (Tensor A).

(** C8.  A call of the implementation for [SharedIndependentMof] with
    [SharedIndependentMok] returns a mean and a variance exactly when [Kuu],
    [Kuf] and the kernel each answer their single call, the kernel's answer
    can be indexed down to [Knn] ([N, N] out of [P, N, N] under [full_cov],
    [N] out of [N, P] otherwise), [base_conditional] answers its single call,
    which receives [f] and [q_sqrt] whole, with all their columns, and the
    expansion of the variance it returned succeeds.  The calls made are then
    these five, once each and in this order, and the variance returned is the
    expanded one. *)
Theorem SharedIndependent_calls_base_conditional_once
    (Xnew : T) (feature : Feature) (kernel : Kernel A) (f : T)
    (full_cov full_output_cov : bool) (q_sqrt : option T) (white : bool)
    (log : list (Call A)) (fmean fvar : T) :
  _conditional_SharedIndependent env Xnew feature kernel f
    full_cov full_output_cov q_sqrt white = (log, Ok (fmean, fvar))
  <->
  exists Kmm Kmn Knn0 Knn bvar,
    Kuu env feature kernel (default_jitter env) = Ok Kmm
    /\ Kuf env feature kernel Xnew = Ok Kmn
    /\ kernel_call env kernel Xnew full_cov false = Ok Knn0
    /\ (if full_cov then index_first_0 Knn0 else index_last_0 Knn0) = Ok Knn
    /\ (forall N P, shape Knn0 = variance_shape N P full_cov false ->
                    shape Knn = if full_cov then [N; N] else [N])
    /\ base_conditional env Kmn Kmm Knn f full_cov q_sqrt white = Ok (fmean, bvar)
    /\ expand_independent_outputs bvar full_cov full_output_cov = Ok fvar
    /\ log = [Call_Kuu feature kernel (default_jitter env);
              Call_Kuf feature kernel Xnew;
              Call_kernel kernel Xnew full_cov false;
              Call_base_conditional Kmn Kmm Knn f full_cov q_sqrt white;
              Call_expand_independent_outputs bvar full_cov full_output_cov]
    /\ length (filter is_base_conditional log) = 1.
Proof.
  unfold _conditional_SharedIndependent, call_Kuu, call_Kuf, call_kernel,
    call_base_conditional, call_expand_independent_outputs.
  split.
  - intros H. inv_comp.
    match goal with H : (_, _) = (_, _) |- _ => injection H as <- <- end.
    match goal with
    | H1 : Kuu _ _ _ _ = Ok ?a, H2 : Kuf _ _ _ _ = Ok ?b,
      H3 : kernel_call _ _ _ _ _ = Ok ?c, H4 : (if _ then _ else _) = Ok ?d,
      H5 : base_conditional _ _ _ _ _ _ _ _ = Ok (_, ?e) |- _ =>
        exists a, b, c, d, e
    end.
    repeat (split; [assumption|]).
    split; [|split; [assumption|split; [assumption|split; reflexivity]]].
    intros N P HN.
    destruct full_cov; simpl in HN.
    + match goal with H : index_first_0 _ = Ok _ |- _ =>
        apply index_first_0_Ok in H; destruct H as (d & rest & E & _ & ->) end.
      congruence.
    + match goal with H : index_last_0 _ = Ok _ |- _ =>
        apply index_last_0_Ok in H; destruct H as (init & d & E & _ & ->) end.
      rewrite HN in E. change [N; P] with ([N] ++ [P]) in E.
      apply app_inj_tail in E. now destruct E as [-> _].
  - intros (Kmm & Kmn & Knn0 & Knn & bvar & H1 & H2 & H3 & H4 & _ & H5 & H6 & -> & _).
    rewrite H1, bind_call_Ok, H2. cbv beta. rewrite bind_call_Ok, H3. cbv beta.
    rewrite bind_call_Ok, H4. cbv beta. rewrite bind_lift_Ok, H5, bind_call_Ok.
    rewrite H6, bind_call_Ok. reflexivity.
Qed.

End SharedIndependentFacts.

(** ** The fully correlated implementation (lines 173-234) *)

Section FullyCorrelatedFacts.

Context {A : Type} {SA : Scalar A}.
Variable env : Collaborators A.

Local Abbreviation T := (Tensor A).

(** C2.  With [full_cov == full_output_cov], a call of the implementation
    for [InducingPoints] returns a mean and a variance exactly when [Kuu],
    [Kuf] (with a four-axis answer [M, L, N, K]) and the kernel answer with
    tensors that can be flattened, [base_conditional] answers its single call
    on the flattened [M*L, N*K], [M*L, M*L] and [N*K] (flags false) or
    [N*K, N*K] (flags true) tensors, and its mean and variance can be
    reshaped to [N, K] and to [N, K] (flags false) or [N, K, N, K] (flags
    true), which is what is returned. *)
Theorem FullyCorrelated_flattens_when_flags_agree
    (Xnew : T) (feature : Feature) (kernel : Kernel A) (f : T)
    (full_cov full_output_cov : bool) (q_sqrt : option T) (white : bool)
    (log : list (Call A)) (fmean fvar : T) :
  full_output_cov = full_cov ->
  _conditional_FullyCorrelated env Xnew feature kernel f
    full_cov full_output_cov q_sqrt white = (log, Ok (fmean, fvar))
  <->
  exists Kmm Kmn Knn M L N K bmean bvar,
    Kuu env feature kernel (default_jitter env) = Ok Kmm
    /\ Kuf env feature kernel Xnew = Ok Kmn
    /\ kernel_call env kernel Xnew full_cov full_output_cov = Ok Knn
    /\ shape Kmn = [M; L; N; K]
    /\ size Kmm = (M * L) * (M * L)
    /\ size Knn = (if full_cov then (N * K) * (N * K) else N * K)
    /\ base_conditional env
         (mkTensor [M * L; N * K] (data Kmn))
         (mkTensor [M * L; M * L] (data Kmm))
         (mkTensor (if full_cov then [N * K; N * K] else [N * K]) (data Knn))
         f full_cov q_sqrt white = Ok (bmean, bvar)
    /\ size bmean = N * K
    /\ size bvar = (if full_cov then (N * K) * (N * K) else N * K)
    /\ fmean = mkTensor [N; K] (data bmean)
    /\ fvar = mkTensor (if full_cov then [N; K; N; K] else [N; K]) (data bvar)
    /\ log = [Call_Kuu feature kernel (default_jitter env);
              Call_Kuf feature kernel Xnew;
              Call_kernel kernel Xnew full_cov full_output_cov;
              Call_base_conditional
                (mkTensor [M * L; N * K] (data Kmn))
                (mkTensor [M * L; M * L] (data Kmm))
                (mkTensor (if full_cov then [N * K; N * K] else [N * K]) (data Knn))
                f full_cov q_sqrt white].
Proof.
  intros ->.
  unfold _conditional_FullyCorrelated, call_Kuu, call_Kuf, call_kernel,
    call_base_conditional.
  rewrite Bool.eqb_reflx.
  split.
  - intros H. inv_comp.
    match goal with H : Kuf _ _ _ _ = Ok ?b |- _ =>
      destruct (shape b) as [|M [|L [|N [|K [|? ?]]]]] eqn:Eshape end;
      inv_comp.
    match goal with H : (_, _) = (_, _) |- _ => injection H as <- <- end.
    repeat match goal with
      | H : tf_reshape _ _ = Ok _ |- _ =>
          apply tf_reshape_Ok in H; destruct H as [? ->]
      end.
    match goal with
    | H1 : Kuu _ _ _ _ = Ok ?a, H2 : Kuf _ _ _ _ = Ok ?b,
      H3 : kernel_call _ _ _ _ _ = Ok ?c,
      H5 : base_conditional _ _ _ _ _ _ _ _ = Ok (?d, ?e) |- _ =>
        exists a, b, c, M, L, N, K, d, e
    end.
    destruct full_cov; inv_comp;
      repeat match goal with
        | H : tf_reshape _ _ = Ok _ |- _ =>
            apply tf_reshape_Ok in H; destruct H as [? ->]
        end;
      simpl prod in *; repeat (split; [assumption || lia || reflexivity |]);
      reflexivity.
  - intros (Kmm & Kmn & Knn & M & L & N & K & bmean & bvar
            & H1 & H2 & H3 & H4 & H5 & H6 & H7 & H8 & H9 & -> & -> & ->).
    rewrite H1, bind_call_Ok, H2. cbv beta. rewrite bind_call_Ok, H3. cbv beta.
    rewrite bind_call_Ok, H4.
    assert (E1 : tf_reshape Kmm [M * L; M * L] = Ok (mkTensor [M * L; M * L] (data Kmm))).
    { apply tf_reshape_Ok. split; [simpl; lia | reflexivity]. }
    assert (E2 : tf_reshape Kmn [M * L; N * K] = Ok (mkTensor [M * L; N * K] (data Kmn))).
    { apply tf_reshape_Ok. split; [unfold size; rewrite H4; simpl; lia | reflexivity]. }
    assert (E3 : (if full_cov then tf_reshape Knn [N * K; N * K]
                  else tf_reshape Knn [N * K])
                 = Ok (mkTensor (if full_cov then [N * K; N * K] else [N * K])
                         (data Knn))).
    { destruct full_cov; apply tf_reshape_Ok; (split; [simpl; lia | reflexivity]). }
    assert (E4 : tf_reshape bmean [N; K] = Ok (mkTensor [N; K] (data bmean))).
    { apply tf_reshape_Ok. split; [simpl; lia | reflexivity]. }
    assert (E5 : tf_reshape bvar (if full_cov then [N; K; N; K] else [N; K])
                 = Ok (mkTensor (if full_cov then [N; K; N; K] else [N; K])
                         (data bvar))).
    { apply tf_reshape_Ok. split; [destruct full_cov; simpl; lia | reflexivity]. }
    rewrite E1, bind_lift_Ok, E2, bind_lift_Ok, E3, bind_lift_Ok, H7, bind_call_Ok.
    rewrite E4, bind_lift_Ok, E5, bind_lift_Ok. reflexivity.
Qed.

(** C1, as the code has it.  With [full_cov != full_output_cov], a call of
    the implementation for [InducingPoints] returns a mean and a variance
    exactly when [Kuu], [Kuf] (with a four-axis answer [M, L, N, K]) and the
    kernel answer, [Kmm] can be flattened to [M*L, M*L], and
    [fully_correlated_conditional] answers its single call on [Kmn] reshaped
    to [M*L, N, K], the flattened [Kmm] and the kernel's [Knn] as it is; what
    it returns is returned unchanged.  Neither [base_conditional] nor
    [independent_interdomain_conditional], the helper of the implementation
    for [SeparateMixedMok], is called. *)
Theorem FullyCorrelated_delegates_when_flags_differ
    (Xnew : T) (feature : Feature) (kernel : Kernel A) (f : T)
    (full_cov full_output_cov : bool) (q_sqrt : option T) (white : bool)
    (log : list (Call A)) (fmean fvar : T) :
  full_output_cov = negb full_cov ->
  _conditional_FullyCorrelated env Xnew feature kernel f
    full_cov full_output_cov q_sqrt white = (log, Ok (fmean, fvar))
  <->
  exists Kmm Kmn Knn M L N K,
    Kuu env feature kernel (default_jitter env) = Ok Kmm
    /\ Kuf env feature kernel Xnew = Ok Kmn
    /\ kernel_call env kernel Xnew full_cov full_output_cov = Ok Knn
    /\ shape Kmn = [M; L; N; K]
    /\ size Kmm = (M * L) * (M * L)
    /\ fully_correlated_conditional env
         (mkTensor [M * L; N; K] (data Kmn))
         (mkTensor [M * L; M * L] (data Kmm))
         Knn f full_cov full_output_cov q_sqrt white = Ok (fmean, fvar)
    /\ log = [Call_Kuu feature kernel (default_jitter env);
              Call_Kuf feature kernel Xnew;
              Call_kernel kernel Xnew full_cov full_output_cov;
              Call_fully_correlated_conditional
                (mkTensor [M * L; N; K] (data Kmn))
                (mkTensor [M * L; M * L] (data Kmm))
                Knn f full_cov full_output_cov q_sqrt white]
    /\ existsb is_base_conditional log = false
    /\ existsb is_independent_interdomain_conditional log = false.
Proof.
  intros ->.
  unfold _conditional_FullyCorrelated, call_Kuu, call_Kuf, call_kernel,
    call_fully_correlated_conditional.
  assert (Eflags : Bool.eqb full_cov (negb full_cov) = false)
    by now destruct full_cov.
  rewrite Eflags.
  split.
  - intros H. inv_comp.
    match goal with H : Kuf _ _ _ _ = Ok ?b |- _ =>
      destruct (shape b) as [|M [|L [|N [|K [|? ?]]]]] eqn:Eshape end;
      inv_comp.
    match goal with H : (_, _) = (_, _) |- _ => injection H as <- <- end.
    repeat match goal with
      | H : tf_reshape _ _ = Ok _ |- _ =>
          apply tf_reshape_Ok in H; destruct H as [? ->]
      end.
    match goal with
    | H1 : Kuu _ _ _ _ = Ok ?a, H2 : Kuf _ _ _ _ = Ok ?b,
      H3 : kernel_call _ _ _ _ _ = Ok ?c |- _ =>
        exists a, b, c, M, L, N, K
    end.
    simpl prod in *.
    repeat (split; [assumption || lia || reflexivity |]). reflexivity.
  - intros (Kmm & Kmn & Knn & M & L & N & K
            & H1 & H2 & H3 & H4 & H5 & H6 & -> & _).
    rewrite H1, bind_call_Ok, H2. cbv beta. rewrite bind_call_Ok, H3. cbv beta.
    rewrite bind_call_Ok, H4.
    assert (E1 : tf_reshape Kmm [M * L; M * L] = Ok (mkTensor [M * L; M * L] (data Kmm))).
    { apply tf_reshape_Ok. split; [simpl; lia | reflexivity]. }
    assert (E2 : tf_reshape Kmn [M * L; N; K] = Ok (mkTensor [M * L; N; K] (data Kmn))).
    { apply tf_reshape_Ok. split; [unfold size; rewrite H4; simpl; lia | reflexivity]. }
    rewrite E1, bind_lift_Ok, E2, bind_lift_Ok, H6, bind_call_Ok.
    reflexivity.
Qed.

End FullyCorrelatedFacts.

(** Every call of a computation satisfies a predicate: by cases on its steps. *)
Ltac calls_tac :=
  repeat first
    [ apply all_calls_ret | apply all_calls_raise | apply all_calls_lift
    | apply all_calls_getattr
    | apply all_calls_call; simpl; solve [auto]
    | apply all_calls_mapM; intros
    | apply all_calls_bind; [|intros]
    | match goal with
      | |- all_calls _ (if ?b then _ else _) => destruct b
      | |- all_calls _ (let (_, _) := ?x in _) => destruct x
      | |- all_calls _ (match ?x with _ => _ end) => destruct x
      end ].

(** ** Facts that hold of every implementation *)

Section AllRegimes.

Context {A : Type} {SA : Scalar A}.
Variable env : Collaborators A.

Local Abbreviation T := (Tensor A).

Lemma calls_bind {X Y : Type} (m : M A X) (k : X -> M A Y) :
  calls (bind m k)
  = calls m ++ match result m with Ok x => calls (k x) | Raise _ => [] end.
Proof.
  unfold calls, result, bind. destruct m as [l [x|e]]; simpl.
  - now destruct (k x).
  - now rewrite app_nil_r.
Qed.

Lemma calls_bind_call {X Y : Type} (c : Call A) (r : Result X) (k : X -> M A Y) :
  calls (bind (call c r) k)
  = c :: match r with Ok x => calls (k x) | Raise _ => [] end.
Proof. rewrite calls_bind. reflexivity. Qed.

(** After its first call, no implementation calls [Kuu] again. *)
Lemma SeparateIndependent_calls_Kuu_first
    (Xnew : T) (feature : Feature) (kernel : Kernel A) (f : T)
    (full_cov full_output_cov : bool) (q_sqrt : option T) (white : bool) :
  exists rest,
    calls (_conditional_SeparateIndependent env Xnew feature kernel f
             full_cov full_output_cov q_sqrt white)
    = Call_Kuu feature kernel (default_jitter env) :: rest
    /\ Forall (fun c => is_Kuu c = false) rest.
Proof.
  unfold _conditional_SeparateIndependent, call_Kuu. rewrite calls_bind_call.
  eexists. split; [reflexivity|].
  destruct (Kuu env feature kernel (default_jitter env)); [|constructor].
  unfold call_Kuf, constituent_kernels, stack_Knns, reshape_q_sqrt, tf_map_fn,
    call_K, call_K_diag, call_base_conditional, call_rollaxis_left,
    call_expand_independent_outputs.
  match goal with |- Forall ?P (calls ?m) => change (all_calls P m) end.
  calls_tac.
Qed.

(** C9.  Whichever of the five implementations runs, and whatever it is
    given, its first call is [covariances.Kuu] on the feature and the kernel
    with [jitter=default_jitter()], and it calls [Kuu] only this once: that
    is where [Kmm] comes from, and every call of a conditional helper, inside
    which the factorization happens, comes after it. *)
Theorem Kuu_with_default_jitter_first
    (r : Regime) (Xnew : T) (feature : Feature) (kernel : Kernel A) (f : T)
    (full_cov full_output_cov : bool) (q_sqrt : option T) (white : bool) :
  exists rest,
    calls (implementation env r Xnew feature kernel f
             full_cov full_output_cov q_sqrt white)
    = Call_Kuu feature kernel (default_jitter env) :: rest
    /\ Forall (fun c => is_Kuu c = false) rest
    /\ forall pre c post,
         Call_Kuu feature kernel (default_jitter env) :: rest = pre ++ c :: post ->
         is_conditional_helper c = true ->
         exists pre', pre = Call_Kuu feature kernel (default_jitter env) :: pre'.
Proof.
  assert (Hhelper : forall (rest : list (Call A)) pre c post,
             Call_Kuu feature kernel (default_jitter env) :: rest = pre ++ c :: post ->
             is_conditional_helper c = true ->
             exists pre', pre = Call_Kuu feature kernel (default_jitter env) :: pre').
  { intros rest [|c0 pre] c post E Hc; simpl in E; injection E as <- _.
    - discriminate.
    - now exists pre. }
  assert (Hgoal : exists rest,
             calls (implementation env r Xnew feature kernel f
                      full_cov full_output_cov q_sqrt white)
             = Call_Kuu feature kernel (default_jitter env) :: rest
             /\ Forall (fun c => is_Kuu c = false) rest).
  { destruct r; simpl.
    - unfold _conditional_SharedIndependent, call_Kuu. rewrite calls_bind_call.
      eexists. split; [reflexivity|].
      destruct (Kuu env feature kernel (default_jitter env)); [|constructor].
      unfold call_Kuf, call_kernel, call_base_conditional,
        call_expand_independent_outputs.
      match goal with |- Forall ?P (calls ?m) => change (all_calls P m) end.
      calls_tac.
    - apply SeparateIndependent_calls_Kuu_first.
    - unfold _conditional_IndependentInterdomain, call_Kuu. rewrite calls_bind_call.
      eexists. split; [reflexivity|].
      destruct (Kuu env feature kernel (default_jitter env)); [|constructor].
      unfold call_Kuf, call_kernel, call_independent_interdomain_conditional.
      match goal with |- Forall ?P (calls ?m) => change (all_calls P m) end.
      calls_tac.
    - unfold _conditional_FullyCorrelated, call_Kuu. rewrite calls_bind_call.
      eexists. split; [reflexivity|].
      destruct (Kuu env feature kernel (default_jitter env)); [|constructor].
      unfold call_Kuf, call_kernel, call_base_conditional,
        call_fully_correlated_conditional.
      match goal with |- Forall ?P (calls ?m) => change (all_calls P m) end.
      calls_tac.
    - unfold _conditional_MixedKernel. rewrite calls_bind.
      destruct (SeparateIndependent_calls_Kuu_first Xnew feature kernel f
                  full_cov false q_sqrt white) as (rest & -> & Hrest).
      simpl. eexists. split; [reflexivity|].
      apply Forall_app. split; [assumption|].
      destruct (result _) as [[gmu gvar]|]; [|constructor].
      unfold call_mix_latent_gp.
      match goal with |- Forall ?P (calls ?m) => change (all_calls P m) end.
      calls_tac. }
  destruct Hgoal as (rest & E & Hrest). exists rest. eauto.
Qed.

End AllRegimes.

Lemma Forall2_In_r {X Y : Type} (P : X -> Y -> Prop) (xs : list X) (ys : list Y) (y : Y) :
  Forall2 P xs ys -> In y ys -> exists x, In x xs /\ P x y.
Proof.
  induction 1 as [|x y' xs ys HP _ IH]; simpl; [tauto|].
  intros [<- | Hin].
  - exists x. auto.
  - destruct (IH Hin) as (x' & Hx' & HP'). exists x'. auto.
Qed.

(** ** The batched independent implementation (lines 73-129) *)

Section SeparateIndependentFacts.

Context {A : Type} {SA : Scalar A}.
Variable env : Collaborators A.

Local Abbreviation T := (Tensor A).

Lemma Knn_arguments_app (l1 l2 : list (Call A)) :
  Knn_arguments (l1 ++ l2) = Knn_arguments l1 ++ Knn_arguments l2.
Proof.
  induction l1 as [|c l1 IH]; simpl; [reflexivity|].
  destruct (Knn_argument c); simpl; now rewrite IH.
Qed.

Lemma stack_Knns_Ok (kernels : list Handle) (Xnew : T) (full_cov : bool)
    (l : list (Call A)) (Knns : T) :
  stack_Knns env kernels Xnew full_cov = (l, Ok Knns) ->
  exists Ks,
    Forall2 (fun k t => Knn_of env Xnew full_cov k = Ok t) kernels Ks
    /\ tf_stack Ks = Ok Knns
    /\ l = map (Knn_call Xnew full_cov) kernels.
Proof.
  unfold stack_Knns. intros H. inv_comp.
  match goal with H : mapM _ _ = _ |- _ =>
    apply mapM_Ok in H; destruct H as [HF ->] end.
  match goal with H : tf_stack ?Ks = Ok _ |- _ => exists Ks end.
  split; [|split; [assumption|]].
  - eapply Forall2_impl; [|exact HF]. intros k t.
    unfold Knn_of, call_K, call_K_diag. now destruct full_cov.
  - rewrite app_nil_r. clear.
    induction kernels as [|k ks IH]; simpl; [reflexivity|].
    rewrite IH. unfold Knn_call, call_K, call_K_diag. now destruct full_cov.
Qed.

Lemma reshape_q_sqrt_Ok (q_sqrt : option T) (l : list (Call A)) (qs : T) :
  reshape_q_sqrt q_sqrt = (l, Ok qs) ->
  exists q, q_sqrt = Some q /\ l = []
    /\ (if ndims q =? 2 then newaxis_2 (tf_transpose q) else newaxis_1 q) = Ok qs.
Proof.
  unfold reshape_q_sqrt. intros H. inv_comp.
  match goal with H : _ = Some ?q |- _ => exists q end.
  destruct (ndims _ =? 2); inv_comp; auto.
Qed.

Lemma tf_map_fn_Ok (fn : T * T * T * T * T -> M A (T * T))
    (e1 e2 e3 e4 e5 : T) (l : list (Call A)) (r1 r2 : T) :
  tf_map_fn fn (e1, e2, e3, e4, e5) = (l, Ok (r1, r2)) ->
  exists s1 s2 s3 s4 s5 outs,
    tf_unstack e1 = Ok s1 /\ tf_unstack e2 = Ok s2 /\ tf_unstack e3 = Ok s3
    /\ tf_unstack e4 = Ok s4 /\ tf_unstack e5 = Ok s5
    /\ length s2 = length s1 /\ length s3 = length s1
    /\ length s4 = length s1 /\ length s5 = length s1
    /\ Forall2 (fun x y => result (fn x) = Ok y)
         (combine (combine (combine (combine s1 s2) s3) s4) s5) outs
    /\ l = concat (map (fun x => calls (fn x))
                     (combine (combine (combine (combine s1 s2) s3) s4) s5))
    /\ tf_stack (map fst outs) = Ok r1
    /\ tf_stack (map snd outs) = Ok r2.
Proof.
  unfold tf_map_fn. intros H. inv_comp.
  match goal with
  | H : (if ?b then _ else _) = _ |- _ => destruct b eqn:Elen; inv_comp
  end.
  match goal with H : (_, _) = (_, _) |- _ => injection H as <- <- end.
  match goal with H : mapM _ _ = _ |- _ =>
    apply mapM_Ok in H; destruct H as [HF ->] end.
  repeat (apply andb_prop in Elen; destruct Elen as [Elen ?]).
  repeat match goal with H : (_ =? _) = true |- _ => apply Nat.eqb_eq in H end.
  do 6 eexists. repeat (split; [eassumption|]).
  split; [now rewrite !app_nil_r|]. auto.
Qed.

Lemma constituent_kernels_Ok (feature : Feature) (kernel : Kernel A)
    (l : list (Call A)) (kernels : list Handle) :
  constituent_kernels feature kernel = (l, Ok kernels) ->
  l = []
  /\ if isinstance_Combination kernel
     then kernel_kernels kernel = Some kernels
     else exists k features,
         kernel_kernel kernel = Some k
         /\ feature_features feature = Some features
         /\ kernels = repeat k (length features).
Proof.
  unfold constituent_kernels.
  destruct (isinstance_Combination kernel); intros H; inv_comp.
  - auto.
  - split; [reflexivity|]. subst. eauto.
Qed.

Lemma Knn_arguments_Knn_calls (Xnew : T) (full_cov : bool) (kernels : list Handle) :
  Knn_arguments (map (Knn_call Xnew full_cov) kernels) = [].
Proof.
  induction kernels as [|k ks IH]; simpl; [reflexivity|].
  unfold Knn_call at 1. now destruct full_cov.
Qed.

(** The [Knn] arguments of the calls [tf.map_fn] makes are the slices of its
    third tensor. *)
Lemma Knn_arguments_map_fn (full_cov white : bool) (s3 : list T) :
  forall s1 s2 s4 s5 : list T,
    length s2 = length s1 -> length s3 = length s1 ->
    length s4 = length s1 -> length s5 = length s1 ->
    Knn_arguments
      (concat (map (fun x : T * T * T * T * T =>
                      calls (let '(Kmm, Kmn, Knn, f, q_sqrt) := x in
                             call_base_conditional env Kmn Kmm Knn f full_cov
                               (Some q_sqrt) white))
                 (combine (combine (combine (combine s1 s2) s3) s4) s5)))
    = s3.
Proof.
  induction s3 as [|t3 s3 IH]; intros [|t1 s1] [|t2 s2] [|t4 s4] [|t5 s5];
    simpl; intros; try discriminate; try reflexivity.
  f_equal. apply IH; lia.
Qed.

(** C7.  Whenever the batched independent implementation returns, [Knns] was
    built as follows.  The constituent kernels are [kernel.kernels] if the
    kernel is a [Combination], and otherwise [kernel.kernel] repeated
    [len(feature.features)] times.  Each of them was asked once, in order,
    for [K(Xnew)] under [full_cov] and for [K_diag(Xnew)] otherwise, and
    [Knns] is the stack of the answers along a new leading axis.  As long as
    the answers hold as many entries as their shapes say, the slices of
    [Knns] are these answers again, and they are the [Knn] arguments of the
    successive [base_conditional] calls. *)
Theorem Knns_stacks_constituent_kernels
    (Xnew : T) (feature : Feature) (kernel : Kernel A) (f : T)
    (full_cov full_output_cov : bool) (q_sqrt : option T) (white : bool)
    (log : list (Call A)) (fmu fvar : T) :
  (forall k t, Knn_of env Xnew full_cov k = Ok t -> wf t) ->
  _conditional_SeparateIndependent env Xnew feature kernel f
    full_cov full_output_cov q_sqrt white = (log, Ok (fmu, fvar)) ->
  exists kernels Ks Knns s rest,
    (if isinstance_Combination kernel
     then kernel_kernels kernel = Some kernels
     else exists k features,
         kernel_kernel kernel = Some k
         /\ feature_features feature = Some features
         /\ kernels = repeat k (length features))
    /\ Forall2 (fun k t => Knn_of env Xnew full_cov k = Ok t) kernels Ks
    /\ tf_stack Ks = Ok Knns
    /\ Forall (fun t => shape t = s) Ks
    /\ shape Knns = length kernels :: s
    /\ data Knns = concat (map data Ks)
    /\ tf_unstack Knns = Ok Ks
    /\ log = Call_Kuu feature kernel (default_jitter env)
             :: Call_Kuf feature kernel Xnew
             :: map (Knn_call Xnew full_cov) kernels ++ rest
    /\ Knn_arguments log = Ks.
Proof.
  intros Hwf H. unfold _conditional_SeparateIndependent in H.
  unfold call_Kuu, call_Kuf, call_rollaxis_left,
    call_expand_independent_outputs in H.
  inv_comp.
  match goal with H : (_, _) = (_, _) |- _ => injection H as <- <- end.
  match goal with H : constituent_kernels _ _ = _ |- _ =>
    apply constituent_kernels_Ok in H; destruct H as [-> Hks] end.
  match goal with H : stack_Knns _ _ _ _ = _ |- _ =>
    apply stack_Knns_Ok in H; destruct H as (Ks & HKs & Hstack & ->) end.
  match goal with H : reshape_q_sqrt _ = _ |- _ =>
    apply reshape_q_sqrt_Ok in H; destruct H as (q & -> & -> & Hq) end.
  match goal with H : tf_map_fn _ _ = _ |- _ =>
    apply tf_map_fn_Ok in H;
    destruct H as (s1 & s2 & s3 & s4 & s5 & outs & U1 & U2 & U3 & U4 & U5
                   & L2 & L3 & L4 & L5 & Houts & -> & Hr1 & Hr2) end.
  match goal with H : tf_stack Ks = Ok ?k |- _ => rename k into Knns end.
  match goal with H : Forall2 _ ?ks Ks |- _ => rename ks into kernels end.
  pose proof (tf_stack_Ok _ Hstack) as (s0 & Hshape & EKnns & _).
  assert (Hlen : length Ks = length kernels)
    by (symmetry; eapply Forall2_length; eassumption).
  assert (Hall : Forall (fun t => shape t = s0 /\ wf t) Ks).
  { apply Forall_forall. intros u Hu. split.
    - rewrite Forall_forall in Hshape. now apply Hshape.
    - destruct (@Forall2_In_r _ _ _ _ _ _ HKs Hu) as (k & _ & Hk).
      now apply (Hwf k). }
  assert (Hunstack : tf_unstack Knns = Ok Ks).
  { rewrite EKnns. now apply tf_unstack_stack. }
  assert (s3 = Ks) by congruence. subst s3.
  eexists kernels, Ks, Knns, s0, _.
  split; [exact Hks|]. split; [exact HKs|]. split; [exact Hstack|].
  split; [exact Hshape|].
  split; [rewrite EKnns; simpl; congruence|].
  split; [rewrite EKnns; reflexivity|].
  split; [exact Hunstack|].
  split.
  - simpl. reflexivity.
  - rewrite !Knn_arguments_app. simpl.
    rewrite Knn_arguments_Knn_calls, Knn_arguments_map_fn by assumption.
    simpl.
    destruct full_cov; inv_comp; simpl; now rewrite ?app_nil_r.
Qed.

(** With a [base_conditional] that keeps to its shapes on matrices, what the
    batched independent implementation returns has the shapes of the
    docstring: for [Kuf]'s answer of shape [P, M, N] and [f] of shape
    [M, P], a mean [N, P] and a variance in the layout the flags select. *)
Lemma SeparateIndependent_shapes
    (Xnew : T) (feature : Feature) (kernel : Kernel A) (f : T)
    (full_cov full_output_cov : bool) (q_sqrt : option T) (white : bool)
    (log : list (Call A)) (fmu fvar : T) (Kmns : T) (M N P : nat) :
  base_conditional_shapes env ->
  Kuf env feature kernel Xnew = Ok Kmns ->
  shape Kmns = [P; M; N] ->
  shape f = [M; P] ->
  _conditional_SeparateIndependent env Xnew feature kernel f
    full_cov full_output_cov q_sqrt white = (log, Ok (fmu, fvar)) ->
  shape fmu = [N; P]
  /\ shape fvar = variance_shape N P full_cov full_output_cov.
Proof.
  intros Hbc HKuf EKmns Ef H. unfold _conditional_SeparateIndependent in H.
  unfold call_Kuu, call_Kuf, call_rollaxis_left,
    call_expand_independent_outputs in H.
  inv_comp.
  match goal with H : (_, _) = (_, _) |- _ => injection H as <- <- end.
  match goal with H : Kuf _ _ _ _ = Ok ?t |- _ =>
    rewrite HKuf in H; injection H as <- end.
  match goal with H : tf_map_fn _ _ = _ |- _ =>
    apply tf_map_fn_Ok in H;
    destruct H as (s1 & s2 & s3 & s4 & s5 & outs & U1 & U2 & U3 & U4 & U5
                   & L2 & L3 & L4 & L5 & Houts & -> & Hr1 & Hr2) end.
  match goal with H : newaxis_2 (tf_transpose f) = Ok ?t |- _ =>
    rename t into fs;
    apply newaxis_2_Ok in H; destruct H as (d0 & d1 & rest & Et & Hfs) end.
  unfold tf_transpose in Et. rewrite shape_tabulate, Ef in Et. simpl in Et.
  injection Et as <- <- <-.
  apply tf_unstack_Ok in U4. destruct U4 as (d & rest' & Efs & Hl4 & Hs4).
  rewrite Hfs in Efs. injection Efs as <- <-.
  apply tf_unstack_Ok in U2. destruct U2 as (dK & restK & EKmns' & Hl2 & Hs2).
  rewrite EKmns in EKmns'. injection EKmns' as <- <-.
  (* without a slice the stack is empty and [rmu[..., 0]] fails *)
  destruct outs as [|[mu0 var0] outs'].
  { simpl in Hr1. injection Hr1 as <-.
    match goal with H : index_last_0 _ = Ok _ |- _ => discriminate H end. }
  (* the first slice and what [base_conditional] returned for it *)
  assert (Hlen : length (combine (combine (combine (combine s1 s2) s3) s4) s5)
                 = P).
  { rewrite !length_combine. lia. }
  assert (HP : S (length outs') = P).
  { rewrite <- Hlen. symmetry. exact (Forall2_length Houts). }
  clear Hlen Hl2 Hl4.
  destruct s1 as [|a1 s1]; [inversion Houts|].
  destruct s2 as [|a2 s2]; [discriminate|].
  destruct s3 as [|a3 s3]; [discriminate|].
  destruct s4 as [|a4 s4]; [discriminate|].
  destruct s5 as [|a5 s5]; [discriminate|].
  simpl in Houts. inversion Houts as [|? ? ? ? Hfirst _]; subst.
  unfold call_base_conditional, call, result in Hfirst. simpl in Hfirst.
  destruct (Hbc _ _ _ _ _ _ _ _ _ M N 1 (Forall_inv Hs2) (Forall_inv Hs4) Hfirst)
    as (Emu & Evar).
  (* the stacked results *)
  apply tf_stack_Ok in Hr1. destruct Hr1 as (sm & _ & -> & Em).
  pose proof (Em _ _ eq_refl) as Esm. cbn [fst] in Esm. subst sm.
  apply tf_stack_Ok in Hr2. destruct Hr2 as (sv & _ & -> & Ev).
  pose proof (Ev _ _ eq_refl) as Esv. cbn [snd] in Esv. subst sv.
  match goal with H : index_last_0 _ = Ok ?t |- _ =>
    apply index_last_0_Ok in H; destruct H as (init & dl & Einit & _ & Ermu0);
    simpl in Einit; rewrite Emu, length_map in Einit;
    change (S (length outs') :: [N; 1]) with ([S (length outs'); N] ++ [1]) in Einit;
    apply app_inj_tail in Einit; destruct Einit as [<- _]
  end.
  match goal with H : rollaxis_left _ 1 = Ok ?t |- _ =>
    apply rollaxis_left_Ok in H; rewrite Ermu0 in H; simpl in H end.
  split; [assumption|].
  destruct full_cov; inv_comp.
  - match goal with H : index_third_last_0 _ = Ok ?t |- _ =>
      apply index_third_last_0_Ok in H; destruct H as [_ H];
      cbn [shape] in H; rewrite Evar in H; simpl in H;
      rewrite length_map in H end.
    eapply shape_expand_independent_outputs; [|eassumption]. assumption.
  - match goal with H : index_last_0 _ = Ok ?t |- _ =>
      apply index_last_0_Ok in H; destruct H as (init & dl' & Einit & _ & Ervar0);
      simpl in Einit; rewrite Evar, length_map in Einit;
      change (S (length outs') :: [N; 1]) with ([S (length outs'); N] ++ [1]) in Einit;
      apply app_inj_tail in Einit; destruct Einit as [<- _]
    end.
    match goal with H : rollaxis_left _ 1 = Ok ?t |- _ =>
      apply rollaxis_left_Ok in H; rewrite Ervar0 in H; simpl in H end.
    eapply shape_expand_independent_outputs; [|eassumption]. assumption.
Qed.

(** Line 111 reads [q_sqrt.shape]: without a [q_sqrt] the implementation
    never returns. *)
Lemma SeparateIndependent_needs_q_sqrt
    (Xnew : T) (feature : Feature) (kernel : Kernel A) (f : T)
    (full_cov full_output_cov : bool) (white : bool) :
  is_Ok (result (_conditional_SeparateIndependent env Xnew feature kernel f
                   full_cov full_output_cov None white)) = false.
Proof.
  destruct (_conditional_SeparateIndependent _ _ _ _ _ _ _ _ _)
    as [l [[fmu fvar]|e]] eqn:E; [exfalso|reflexivity].
  unfold _conditional_SeparateIndependent in E. inv_comp.
  match goal with H : reshape_q_sqrt None = _ |- _ =>
    apply reshape_q_sqrt_Ok in H; destruct H as (q & [=] & _) end.
Qed.

(** C3, at the code.  Through the public entry point, a feature and a kernel
    whose classes select the batched independent implementation or the
    mixed-kernel implementation, which reuses it, never get a mean and a
    variance back when [q_sqrt] is [None]: the call raises. *)
Theorem conditional_without_q_sqrt_raises
    (Xnew : T) (feature : Feature) (kernel : Kernel A) (f : T)
    (full_cov full_output_cov : bool) (white : bool) :
  registered_function (feature_class feature) (kernel_class kernel)
    = Some SeparateIndependent
  \/ registered_function (feature_class feature) (kernel_class kernel)
    = Some MixedKernel ->
  is_Ok (result (conditional env Xnew feature kernel f
                   full_cov full_output_cov None white)) = false.
Proof.
  unfold conditional. intros [-> | ->]; simpl.
  - apply SeparateIndependent_needs_q_sqrt.
  - pose proof (SeparateIndependent_needs_q_sqrt Xnew feature kernel f
                  full_cov false white) as Hin.
    unfold _conditional_MixedKernel.
    destruct (_conditional_SeparateIndependent _ _ _ _ _ _ _ _ _)
      as [l [x|e]]; [discriminate|reflexivity].
Qed.

End SeparateIndependentFacts.

(** ** Shapes and entries of the returned variance *)

Section VarianceFacts.

Context {A : Type} {SA : Scalar A}.
Variable env : Collaborators A.

Local Abbreviation T := (Tensor A).

(** Both independent implementations end with the expansion of lines 70
    and 129. *)
Lemma independent_ends_with_expansion
    (r : Regime) (Xnew : T) (feature : Feature) (kernel : Kernel A) (f : T)
    (full_cov full_output_cov : bool) (q_sqrt : option T) (white : bool)
    (log : list (Call A)) (fmean fvar : T) :
  r = SharedIndependent \/ r = SeparateIndependent ->
  implementation env r Xnew feature kernel f
    full_cov full_output_cov q_sqrt white = (log, Ok (fmean, fvar)) ->
  exists pre bvar,
    expand_independent_outputs bvar full_cov full_output_cov = Ok fvar
    /\ log = pre ++ [Call_expand_independent_outputs bvar full_cov full_output_cov].
Proof.
  intros [-> | ->]; simpl;
    [unfold _conditional_SharedIndependent
    | unfold _conditional_SeparateIndependent];
    unfold call_expand_independent_outputs; intros H; inv_comp;
    match goal with H : (_, _) = (_, _) |- _ => injection H as <- <- end;
    match goal with H : expand_independent_outputs ?b _ _ = Ok _ |- _ =>
      eexists _, b; split; [exact H|] end;
    rewrite app_nil_r, !app_assoc; reflexivity.
Qed.

Lemma expand_off_diagonal (bvar fvar : T) (full_cov : bool) :
  expand_independent_outputs bvar full_cov true = Ok fvar ->
  length (shape fvar) = (if full_cov then 4 else 3)
  /\ forall idx p q,
       in_bounds (shape fvar) idx ->
       output_indices full_cov idx = Some (p, q) ->
       p <> q ->
       get fvar idx = zero.
Proof.
  unfold expand_independent_outputs. destruct full_cov.
  - destruct (shape bvar) as [|P [|N [|N' [|? ?]]]]; try discriminate.
    intros [= <-]. split; [reflexivity|].
    intros idx p q Hb Hidx Hpq. rewrite get_tabulate by exact Hb.
    destruct idx as [|n [|p' [|n' [|q' [|? ?]]]]]; try discriminate.
    simpl in Hidx. injection Hidx as -> ->.
    now destruct (Nat.eqb_spec p q).
  - destruct (shape bvar) as [|N [|P [|? ?]]]; try discriminate.
    intros [= <-]. split; [reflexivity|].
    intros idx p q Hb Hidx Hpq. rewrite get_tabulate by exact Hb.
    destruct idx as [|n [|p' [|q' [|? ?]]]]; try discriminate.
    simpl in Hidx. injection Hidx as -> ->.
    now destruct (Nat.eqb_spec p q).
Qed.

(** C5.  When the shared-kernel or the batched independent implementation
    returns under [full_output_cov=True], the variance has the rank of
    [N, P, P], or of [N, P, N, P] under [full_cov], and each of its entries
    whose two output indices differ is exactly zero. *)
Theorem independent_outputs_have_zero_cross_covariance
    (r : Regime) (Xnew : T) (feature : Feature) (kernel : Kernel A) (f : T)
    (full_cov : bool) (q_sqrt : option T) (white : bool)
    (log : list (Call A)) (fmean fvar : T) :
  r = SharedIndependent \/ r = SeparateIndependent ->
  implementation env r Xnew feature kernel f
    full_cov true q_sqrt white = (log, Ok (fmean, fvar)) ->
  length (shape fvar) = (if full_cov then 4 else 3)
  /\ forall idx p q,
       in_bounds (shape fvar) idx ->
       output_indices full_cov idx = Some (p, q) ->
       p <> q ->
       get fvar idx = zero.
Proof.
  intros Hr H.
  destruct (independent_ends_with_expansion _ _ _ _ _ _ _ _ Hr H)
    as (pre & bvar & Hexp & _).
  exact (expand_off_diagonal _ _ Hexp).
Qed.

(** C4.  Take inputs with [N] new points and [P] outputs, shaped as the
    docstrings say, and let [base_conditional] and the two other
    Cholesky-based helpers keep to the shapes the spec gives them on such
    inputs.  Then whichever of the five implementations runs, and whatever
    the two flags are, a mean and a variance that are returned have shapes
    [N, P] and, for these [N] and [P], [N, P] (false, false), [P, N, N]
    (true, false), [N, P, P] (false, true) or [N, P, N, P] (true, true).
    The code's part is the slicing, stacking, rolling and reshaping around
    the helpers; in the interdomain case, and in the fully correlated case
    with differing flags, it is that [Kuf]'s answer reaches the helper as it
    is, or reshaped to [M*L, N, P], and that the helper's answer is
    returned as it is. *)
Theorem variance_has_the_layout_the_flags_select
    (r : Regime) (Xnew : T) (feature : Feature) (kernel : Kernel A) (f : T)
    (full_cov full_output_cov : bool) (q_sqrt : option T) (white : bool)
    (log : list (Call A)) (fmean fvar : T) (Kmn : T) (N P : nat) :
  base_conditional_shapes env ->
  independent_interdomain_conditional_shapes env ->
  fully_correlated_conditional_shapes env ->
  Kuf env feature kernel Xnew = Ok Kmn ->
  documented_inputs r N P Xnew kernel f Kmn ->
  implementation env r Xnew feature kernel f
    full_cov full_output_cov q_sqrt white = (log, Ok (fmean, fvar)) ->
  shape fmean = [N; P]
  /\ shape fvar = variance_shape N P full_cov full_output_cov.
Proof.
  intros Hbc Hii Hfc HKuf (D & M & _ & Hin) H. destruct r; simpl in H.
  - destruct Hin as [EKmn Ef].
    unfold _conditional_SharedIndependent, call_Kuf, call_base_conditional,
      call_expand_independent_outputs in H.
    inv_comp.
    match goal with H : (_, _) = (_, _) |- _ => injection H as <- <- end.
    match goal with H : Kuf _ _ _ _ = Ok _ |- _ =>
      rewrite HKuf in H; injection H as <- end.
    match goal with H : base_conditional _ _ _ _ _ _ _ _ = Ok _ |- _ =>
      destruct (Hbc _ _ _ _ _ _ _ _ _ _ _ _ EKmn Ef H) as (Emean & Evar) end.
    split; [assumption|].
    eapply shape_expand_independent_outputs; eassumption.
  - destruct Hin as [EKmn Ef].
    eapply SeparateIndependent_shapes; eassumption.
  - destruct Hin as (L & EKmn).
    unfold _conditional_IndependentInterdomain, call_Kuf,
      call_independent_interdomain_conditional in H.
    inv_comp.
    match goal with H : Kuf _ _ _ _ = Ok _ |- _ =>
      rewrite HKuf in H; injection H as <- end.
    match goal with H : independent_interdomain_conditional _ _ _ _ _ _ _ _ _ = Ok _ |- _ =>
      exact (Hii _ _ _ _ _ _ _ _ _ _ _ _ _ _ EKmn H) end.
  - destruct Hin as (L & EKmn).
    unfold _conditional_FullyCorrelated, call_Kuu, call_Kuf, call_kernel,
      call_base_conditional, call_fully_correlated_conditional in H.
    inv_comp.
    match goal with H : Kuf _ _ _ _ = Ok _ |- _ =>
      rewrite HKuf in H; injection H as <- end.
    rewrite EKmn in *. inv_comp.
    destruct (Bool.eqb full_cov full_output_cov) eqn:Eflags; inv_comp;
      match goal with H : (_, _) = (_, _) |- _ => injection H as <- <- end.
    + apply Bool.eqb_prop in Eflags. subst full_output_cov.
      repeat match goal with
        | H : tf_reshape _ _ = Ok _ |- _ =>
            apply tf_reshape_Ok in H; destruct H as [_ ->]
        end.
      split; [reflexivity|]. now destruct full_cov.
    + match goal with
      | H : tf_reshape Kmn _ = Ok ?t |- _ =>
          apply tf_reshape_Ok in H; destruct H as [_ ->]
      end.
      match goal with
      | H : fully_correlated_conditional _ _ _ _ _ _ _ _ _ = Ok _ |- _ =>
          eapply Hfc; [|exact H]; reflexivity
      end.
  - destruct Hin as (L & W & EKmn & Ef & EW & EsW).
    unfold _conditional_MixedKernel, call_mix_latent_gp in H.
    inv_comp.
    match goal with H : _conditional_SeparateIndependent _ _ _ _ _ _ _ _ _ = _ |- _ =>
      destruct (SeparateIndependent_shapes _ _ _ _ _ _ _ _ Hbc HKuf EKmn Ef H)
        as (Egmu & _) end.
    match goal with H : kernel_W kernel = Some _ |- _ =>
      rewrite EW in H; injection H as <- end.
    match goal with H : mix_latent_gp _ _ _ _ _ = Ok _ |- _ =>
      apply mix_latent_gp_Ok in H;
      destruct H as (P' & L' & N' & EsW' & Egmu' & _ & Emean & Evar) end.
    rewrite EsW in EsW'. injection EsW' as <- <-.
    rewrite Egmu in Egmu'. injection Egmu' as <-.
    auto.
Qed.

End VarianceFacts.

(** ** The mixed-kernel implementation (lines 237-271) *)

Section MixedKernelFacts.

Context {A : Type} {SA : Scalar A}.
Variable env : Collaborators A.

Local Abbreviation T := (Tensor A).

Lemma in_bounds_2 (N P n p : nat) : n < N -> p < P -> in_bounds [N; P] [n; p].
Proof. intros. repeat constructor; assumption. Qed.

Lemma in_bounds_3 (N1 N2 N3 n1 n2 n3 : nat) :
  n1 < N1 -> n2 < N2 -> n3 < N3 -> in_bounds [N1; N2; N3] [n1; n2; n3].
Proof. intros. repeat constructor; assumption. Qed.

Lemma in_bounds_4 (N1 N2 N3 N4 n1 n2 n3 n4 : nat) :
  n1 < N1 -> n2 < N2 -> n3 < N3 -> n4 < N4 ->
  in_bounds [N1; N2; N3; N4] [n1; n2; n3; n4].
Proof. intros. repeat constructor; assumption. Qed.

(** The entries of what the mixing step returns. *)
Lemma mix_latent_gp_entries (W gmu gvar fmean fvar : T)
    (full_cov full_output_cov : bool) (P L N : nat) :
  mix_latent_gp W gmu gvar full_cov full_output_cov = Ok (fmean, fvar) ->
  shape W = [P; L] -> shape gmu = [N; L] ->
  (forall n p, n < N -> p < P ->
     get fmean [n; p] = sum_upto L (fun l => mul (get gmu [n; l]) (get W [p; l])))
  /\ (forall n p n' q, n < N -> p < P -> n' < N -> q < P ->
        (full_cov = false -> n' = n) -> (full_output_cov = false -> q = p) ->
        get fvar (variance_index full_cov full_output_cov n p n' q)
        = sum_upto L (fun l => mul (mul (get W [p; l])
                                      (latent_variance full_cov gvar n n' l))
                                 (get W [q; l]))).
Proof.
  unfold mix_latent_gp. intros H EW Egmu. rewrite EW, Egmu in H.
  rewrite Nat.eqb_refl in H. simpl in H.
  destruct (shape_eqb _ _); [|discriminate]. simpl in H.
  injection H as <- <-. split.
  - intros n p Hn Hp. now rewrite get_tabulate by now apply in_bounds_2.
  - intros n p n' q Hn Hp Hn' Hq Hfc Hfoc.
    unfold variance_index, latent_variance.
    destruct full_cov, full_output_cov;
      try rewrite (Hfc eq_refl); try rewrite (Hfoc eq_refl).
    + now rewrite get_tabulate by now apply in_bounds_4.
    + now rewrite get_tabulate by now apply in_bounds_3.
    + now rewrite get_tabulate by now apply in_bounds_3.
    + now rewrite get_tabulate by now apply in_bounds_2.
Qed.

(** C6.  Whenever the mixed-kernel implementation returns, the batched
    independent implementation was run first, on the same arguments, and
    returned the per-latent mean [gmu], of shape [N, L], and variance [gvar],
    of shape [L, N, N] under [full_cov] and [N, L] otherwise; [mix_latent_gp]
    was then called, once, on [kernel.W], of shape [P, L], and on these two.
    The mean returned is [gmu . W^T], of shape [N, P]; the variance returned
    has the layout the two flags select and its entries are those of
    [W gvar W^T], with [gvar] read as a diagonal in the latents. *)
Theorem MixedKernel_mixes_independent_latents
    (Xnew : T) (feature : Feature) (kernel : Kernel A) (f : T)
    (full_cov full_output_cov : bool) (q_sqrt : option T) (white : bool)
    (log : list (Call A)) (fmean fvar : T) :
  _conditional_MixedKernel env Xnew feature kernel f
    full_cov full_output_cov q_sqrt white = (log, Ok (fmean, fvar)) ->
  exists inner_log gmu gvar W P L N,
    _conditional_SeparateIndependent env Xnew feature kernel f
      full_cov false q_sqrt white = (inner_log, Ok (gmu, gvar))
    /\ kernel_W kernel = Some W
    /\ shape W = [P; L]
    /\ shape gmu = [N; L]
    /\ shape gvar = (if full_cov then [L; N; N] else [N; L])
    /\ log = inner_log ++ [Call_mix_latent_gp W gmu gvar full_cov full_output_cov]
    /\ shape fmean = [N; P]
    /\ shape fvar = variance_shape N P full_cov full_output_cov
    /\ (forall n p, n < N -> p < P ->
          get fmean [n; p]
          = sum_upto L (fun l => mul (get gmu [n; l]) (get W [p; l])))
    /\ (forall n p n' q, n < N -> p < P -> n' < N -> q < P ->
          (full_cov = false -> n' = n) -> (full_output_cov = false -> q = p) ->
          get fvar (variance_index full_cov full_output_cov n p n' q)
          = sum_upto L (fun l => mul (mul (get W [p; l])
                                        (latent_variance full_cov gvar n n' l))
                                   (get W [q; l]))).
Proof.
  unfold _conditional_MixedKernel, call_mix_latent_gp. intros H. inv_comp.
  match goal with
  | Hin : _conditional_SeparateIndependent _ _ _ _ _ _ _ _ _ = (?il, Ok (?gmu, ?gvar)),
    HW : kernel_W kernel = Some ?W,
    Hmix : mix_latent_gp _ _ _ _ _ = Ok _ |- _ =>
      destruct (mix_latent_gp_Ok _ _ _ _ _ Hmix)
        as (P & L & N & EW & Egmu & Egvar & Emean & Evar);
      destruct (mix_latent_gp_entries _ _ _ _ _ Hmix EW Egmu) as [Hmean Hvar];
      exists il, gmu, gvar, W, P, L, N
  end.
  repeat (split; [assumption || reflexivity|]). assumption.
Qed.

Lemma SeparateIndependent_expands_nothing
    (Xnew : T) (feature : Feature) (kernel : Kernel A) (f : T)
    (full_cov : bool) (q_sqrt : option T) (white : bool) :
  all_calls expands_nothing
    (_conditional_SeparateIndependent env Xnew feature kernel f
       full_cov false q_sqrt white).
Proof.
  unfold _conditional_SeparateIndependent, call_Kuu, call_Kuf,
    constituent_kernels, stack_Knns, reshape_q_sqrt, tf_map_fn,
    call_K, call_K_diag, call_base_conditional, call_rollaxis_left,
    call_expand_independent_outputs.
  calls_tac.
Qed.

(** C10.  Whatever [full_output_cov] the caller passes, the mixed-kernel
    implementation runs the batched independent implementation with
    [full_output_cov=False], and only then the mixing step, which alone
    receives the caller's flag.  Every call of [expand_independent_outputs]
    it makes asks for no output covariance and hands its argument back
    unchanged; the variance the inner computation returns is that argument. *)
Theorem MixedKernel_inner_call_has_no_output_covariance
    (Xnew : T) (feature : Feature) (kernel : Kernel A) (f : T)
    (full_cov full_output_cov : bool) (q_sqrt : option T) (white : bool) :
  _conditional_MixedKernel env Xnew feature kernel f
    full_cov full_output_cov q_sqrt white
  = ('(gmu, gvar) <- _conditional_SeparateIndependent env Xnew feature kernel f
                       full_cov false q_sqrt white ;;
     W <- getattr (kernel_W kernel) ;;
     call_mix_latent_gp W gmu gvar full_cov full_output_cov)
  /\ Forall expands_nothing
       (calls (_conditional_MixedKernel env Xnew feature kernel f
                 full_cov full_output_cov q_sqrt white))
  /\ forall inner_log gmu gvar,
       _conditional_SeparateIndependent env Xnew feature kernel f
         full_cov false q_sqrt white = (inner_log, Ok (gmu, gvar)) ->
       exists pre,
         inner_log = pre ++ [Call_expand_independent_outputs gvar full_cov false].
Proof.
  split; [reflexivity|]. split.
  - unfold _conditional_MixedKernel.
    match goal with |- Forall ?P (calls ?m) => change (all_calls P m) end.
    apply all_calls_bind; [apply SeparateIndependent_expands_nothing|].
    intros [gmu gvar]. unfold call_mix_latent_gp. calls_tac.
  - intros inner_log gmu gvar H.
    destruct (@independent_ends_with_expansion _ _ env SeparateIndependent
                _ _ _ _ _ _ _ _ _ _ _ (or_intror eq_refl) H)
      as (pre & bvar & Hexp & ->).
    unfold expand_independent_outputs in Hexp. injection Hexp as ->.
    now exists pre.
Qed.

End MixedKernelFacts.

(** ** The small instance: the statements above at work *)

Import Example.

Lemma toy_base_conditional_shapes : base_conditional_shapes toy.
Proof.
  intros Kmn Kmm Knn f0 fc q w fmean fvar M N P EKmn Ef H. simpl in H.
  unfold toy_base_conditional in H. rewrite EKmn, Ef, Nat.eqb_refl in H.
  injection H as <- <-. now destruct fc.
Qed.

Lemma toy_independent_interdomain_conditional_shapes :
  independent_interdomain_conditional_shapes toy.
Proof.
  intros Kmn Kmm Knn f0 fc foc q w fmean fvar M L N P EKmn H. simpl in H.
  unfold toy_independent_interdomain_conditional in H. rewrite EKmn in H.
  injection H as <- <-. now split.
Qed.

Lemma toy_fully_correlated_conditional_shapes :
  fully_correlated_conditional_shapes toy.
Proof.
  intros Kmn Kmm Knn f0 fc foc q w fmean fvar ML N P EKmn H. simpl in H.
  unfold toy_fully_correlated_conditional in H. rewrite EKmn in H.
  injection H as <- <-. now split.
Qed.

Lemma toy_Knn_wf (full_cov : bool) (k : Handle) (t : Tensor Z) :
  Knn_of toy Xnew full_cov k = Ok t -> wf t.
Proof.
  unfold Knn_of. destruct full_cov; simpl; intros [= <-]; apply wf_tabulate.
Qed.

(** C1 as the spec words it fails on this run: the flags differ, the call
    returns, and the helper called is [fully_correlated_conditional]; the
    helper of the implementation for [SeparateMixedMok],
    [independent_interdomain_conditional], is called by that implementation
    and not by this one. *)
Lemma FullyCorrelated_does_not_call_the_interdomain_helper :
  true <> false
  /\ is_Ok (result (run_FullyCorrelated true false)) = true
  /\ existsb is_independent_interdomain_conditional
       (calls (run_FullyCorrelated true false)) = false
  /\ existsb is_fully_correlated_conditional
       (calls (run_FullyCorrelated true false)) = true
  /\ existsb is_independent_interdomain_conditional
       (calls (run_IndependentInterdomain true false)) = true.
Proof. repeat split; (discriminate || reflexivity). Qed.

Lemma FullyCorrelated_delegates_when_flags_differ_witness :
  false = negb true
  /\ exists (Kmm Kmn Knn : Tensor Z) (M L N K : nat),
       Kuu toy inducing_points mixed_kernel (default_jitter toy) = Ok Kmm
       /\ Kuf toy inducing_points mixed_kernel Xnew = Ok Kmn
       /\ kernel_call toy mixed_kernel Xnew true false = Ok Knn
       /\ shape Kmn = [M; L; N; K]
       /\ size Kmm = M * L * (M * L)
       /\ fully_correlated_conditional toy
            (mkTensor [M * L; N; K] (data Kmn))
            (mkTensor [M * L; M * L] (data Kmm))
            Knn f_flat true false None false
          = Ok (fst (returned (run_FullyCorrelated true false)),
                snd (returned (run_FullyCorrelated true false)))
       /\ calls (run_FullyCorrelated true false)
          = [Call_Kuu inducing_points mixed_kernel (default_jitter toy);
             Call_Kuf inducing_points mixed_kernel Xnew;
             Call_kernel mixed_kernel Xnew true false;
             Call_fully_correlated_conditional
               (mkTensor [M * L; N; K] (data Kmn))
               (mkTensor [M * L; M * L] (data Kmm))
               Knn f_flat true false None false]
       /\ existsb is_base_conditional (calls (run_FullyCorrelated true false)) = false
       /\ existsb is_independent_interdomain_conditional
            (calls (run_FullyCorrelated true false)) = false.
Proof.
  split; [reflexivity|].
  apply (proj1 (@FullyCorrelated_delegates_when_flags_differ Z toy
                  Xnew inducing_points mixed_kernel f_flat true false None false
                  (calls (run_FullyCorrelated true false))
                  (fst (returned (run_FullyCorrelated true false)))
                  (snd (returned (run_FullyCorrelated true false)))
                  eq_refl)).
  reflexivity.
Defined.

Lemma FullyCorrelated_flattens_when_flags_agree_witness :
  true = true
  /\ exists (Kmm Kmn Knn : Tensor Z) (M L N K : nat) (bmean bvar : Tensor Z),
       Kuu toy inducing_points mixed_kernel (default_jitter toy) = Ok Kmm
       /\ Kuf toy inducing_points mixed_kernel Xnew = Ok Kmn
       /\ kernel_call toy mixed_kernel Xnew true true = Ok Knn
       /\ shape Kmn = [M; L; N; K]
       /\ size Kmm = M * L * (M * L)
       /\ size Knn = N * K * (N * K)
       /\ base_conditional toy
            (mkTensor [M * L; N * K] (data Kmn))
            (mkTensor [M * L; M * L] (data Kmm))
            (mkTensor [N * K; N * K] (data Knn))
            f_flat true None false = Ok (bmean, bvar)
       /\ size bmean = N * K
       /\ size bvar = N * K * (N * K)
       /\ fst (returned (run_FullyCorrelated true true))
          = mkTensor [N; K] (data bmean)
       /\ snd (returned (run_FullyCorrelated true true))
          = mkTensor [N; K; N; K] (data bvar)
       /\ calls (run_FullyCorrelated true true)
          = [Call_Kuu inducing_points mixed_kernel (default_jitter toy);
             Call_Kuf inducing_points mixed_kernel Xnew;
             Call_kernel mixed_kernel Xnew true true;
             Call_base_conditional
               (mkTensor [M * L; N * K] (data Kmn))
               (mkTensor [M * L; M * L] (data Kmm))
               (mkTensor [N * K; N * K] (data Knn))
               f_flat true None false].
Proof.
  split; [reflexivity|].
  apply (proj1 (@FullyCorrelated_flattens_when_flags_agree Z toy
                  Xnew inducing_points mixed_kernel f_flat true true None false
                  (calls (run_FullyCorrelated true true))
                  (fst (returned (run_FullyCorrelated true true)))
                  (snd (returned (run_FullyCorrelated true true)))
                  eq_refl)).
  reflexivity.
Defined.

Lemma conditional_without_q_sqrt_raises_witness :
  registered_function SeparateIndependentMof SeparateIndependentMok
    = Some SeparateIndependent
  /\ result (conditional toy Xnew separate_feature separate_kernel f
               false false None false) = Raise AttributeError
  /\ is_Ok (result (conditional toy Xnew separate_feature separate_kernel f
                      false false None false)) = false.
Proof.
  split; [reflexivity|]. split; [reflexivity|].
  apply (@conditional_without_q_sqrt_raises Z _ toy
           Xnew separate_feature separate_kernel f false false false).
  left. reflexivity.
Defined.

Lemma variance_has_the_layout_the_flags_select_witness :
  documented_inputs SeparateIndependent 3 2 Xnew separate_kernel f
    (iota [2; 2; 3] 100)
  /\ shape (fst (returned (run_SeparateIndependent true true))) = [3; 2]
  /\ shape (snd (returned (run_SeparateIndependent true true)))
     = variance_shape 3 2 true true.
Proof.
  assert (Hin : documented_inputs SeparateIndependent 3 2 Xnew separate_kernel f
                  (iota [2; 2; 3] 100))
    by (exists 1, 2; repeat split).
  split; [exact Hin|].
  apply (@variance_has_the_layout_the_flags_select Z _ toy SeparateIndependent
           Xnew separate_feature separate_kernel f true true
           (Some q_sqrt_diag) false
           (calls (run_SeparateIndependent true true))
           (fst (returned (run_SeparateIndependent true true)))
           (snd (returned (run_SeparateIndependent true true)))
           (iota [2; 2; 3] 100) 3 2
           toy_base_conditional_shapes
           toy_independent_interdomain_conditional_shapes
           toy_fully_correlated_conditional_shapes
           eq_refl Hin eq_refl).
Defined.

Lemma independent_outputs_have_zero_cross_covariance_witness :
  length (shape (snd (returned (run_SeparateIndependent false true)))) = 3
  /\ (forall (idx : list nat) (p q : nat),
        in_bounds (shape (snd (returned (run_SeparateIndependent false true)))) idx ->
        output_indices false idx = Some (p, q) ->
        p <> q ->
        get (snd (returned (run_SeparateIndependent false true))) idx = zero).
Proof.
  apply (@independent_outputs_have_zero_cross_covariance Z _ toy
           SeparateIndependent Xnew separate_feature separate_kernel f false
           (Some q_sqrt_diag) false
           (calls (run_SeparateIndependent false true))
           (fst (returned (run_SeparateIndependent false true)))
           (snd (returned (run_SeparateIndependent false true)))).
  - right. reflexivity.
  - reflexivity.
Defined.

Lemma MixedKernel_mixes_independent_latents_witness :
  exists (inner_log : list (Call Z)) (gmu gvar W : Tensor Z) (P L N : nat),
    _conditional_SeparateIndependent toy Xnew mixed_shared_feature mixed_kernel f
      false false (Some q_sqrt_chol) false = (inner_log, Ok (gmu, gvar))
    /\ kernel_W mixed_kernel = Some W
    /\ shape W = [P; L]
    /\ shape gmu = [N; L]
    /\ shape gvar = [N; L]
    /\ calls (run_MixedKernel false true)
       = inner_log ++ [Call_mix_latent_gp W gmu gvar false true]
    /\ shape (fst (returned (run_MixedKernel false true))) = [N; P]
    /\ shape (snd (returned (run_MixedKernel false true)))
       = variance_shape N P false true
    /\ (forall n p : nat, n < N -> p < P ->
          get (fst (returned (run_MixedKernel false true))) [n; p]
          = sum_upto L (fun l : nat => mul (get gmu [n; l]) (get W [p; l])))
    /\ (forall n p n' q : nat, n < N -> p < P -> n' < N -> q < P ->
          (false = false -> n' = n) -> (true = false -> q = p) ->
          get (snd (returned (run_MixedKernel false true)))
            (variance_index false true n p n' q)
          = sum_upto L
              (fun l : nat =>
                 mul (mul (get W [p; l]) (latent_variance false gvar n n' l))
                     (get W [q; l]))).
Proof.
  apply (@MixedKernel_mixes_independent_latents Z _ toy
           Xnew mixed_shared_feature mixed_kernel f false true
           (Some q_sqrt_chol) false
           (calls (run_MixedKernel false true))
           (fst (returned (run_MixedKernel false true)))
           (snd (returned (run_MixedKernel false true)))).
  reflexivity.
Defined.

Lemma Knns_stacks_constituent_kernels_witness :
  exists (kernels : list Handle) (Ks : list (Tensor Z)) (Knns : Tensor Z)
         (s : list nat) (rest : list (Call Z)),
    kernel_kernels separate_kernel = Some kernels
    /\ Forall2 (fun (k : Handle) (t : Tensor Z) => Knn_of toy Xnew false k = Ok t)
         kernels Ks
    /\ tf_stack Ks = Ok Knns
    /\ Forall (fun t : Tensor Z => shape t = s) Ks
    /\ shape Knns = length kernels :: s
    /\ data Knns = concat (map data Ks)
    /\ tf_unstack Knns = Ok Ks
    /\ calls (run_SeparateIndependent false false)
       = Call_Kuu separate_feature separate_kernel (default_jitter toy)
         :: Call_Kuf separate_feature separate_kernel Xnew
         :: map (Knn_call Xnew false) kernels ++ rest
    /\ Knn_arguments (calls (run_SeparateIndependent false false)) = Ks.
Proof.
  apply (@Knns_stacks_constituent_kernels Z _ toy
           Xnew separate_feature separate_kernel f false false
           (Some q_sqrt_diag) false
           (calls (run_SeparateIndependent false false))
           (fst (returned (run_SeparateIndependent false false)))
           (snd (returned (run_SeparateIndependent false false)))).
  - exact (toy_Knn_wf false).
  - reflexivity.
Defined.

Lemma SharedIndependent_calls_base_conditional_once_witness :
  exists Kmm Kmn Knn0 Knn bvar : Tensor Z,
    Kuu toy shared_feature shared_kernel (default_jitter toy) = Ok Kmm
    /\ Kuf toy shared_feature shared_kernel Xnew = Ok Kmn
    /\ kernel_call toy shared_kernel Xnew true false = Ok Knn0
    /\ index_first_0 Knn0 = Ok Knn
    /\ (forall N P : nat,
          shape Knn0 = variance_shape N P true false -> shape Knn = [N; N])
    /\ base_conditional toy Kmn Kmm Knn f true None false
       = Ok (fst (returned (run_SharedIndependent true true)), bvar)
    /\ expand_independent_outputs bvar true true
       = Ok (snd (returned (run_SharedIndependent true true)))
    /\ calls (run_SharedIndependent true true)
       = [Call_Kuu shared_feature shared_kernel (default_jitter toy);
          Call_Kuf shared_feature shared_kernel Xnew;
          Call_kernel shared_kernel Xnew true false;
          Call_base_conditional Kmn Kmm Knn f true None false;
          Call_expand_independent_outputs bvar true true]
    /\ length (filter is_base_conditional (calls (run_SharedIndependent true true))) = 1.
Proof.
  apply (proj1 (@SharedIndependent_calls_base_conditional_once Z _ toy
                  Xnew shared_feature shared_kernel f true true None false
                  (calls (run_SharedIndependent true true))
                  (fst (returned (run_SharedIndependent true true)))
                  (snd (returned (run_SharedIndependent true true))))).
  reflexivity.
Defined.

Lemma Kuu_with_default_jitter_first_witness :
  exists rest : list (Call Z),
    calls (run_MixedKernel false true)
    = Call_Kuu mixed_shared_feature mixed_kernel 1%Z :: rest
    /\ Forall (fun c : Call Z => is_Kuu c = false) rest
    /\ (forall (pre : list (Call Z)) (c : Call Z) (post : list (Call Z)),
          Call_Kuu mixed_shared_feature mixed_kernel 1%Z :: rest = pre ++ c :: post ->
          is_conditional_helper c = true ->
          exists pre' : list (Call Z),
            pre = Call_Kuu mixed_shared_feature mixed_kernel 1%Z :: pre').
Proof.
  exact (@Kuu_with_default_jitter_first Z _ toy MixedKernel
           Xnew mixed_shared_feature mixed_kernel f false true
           (Some q_sqrt_chol) false).
Defined.

Lemma MixedKernel_inner_call_has_no_output_covariance_witness :
  Forall expands_nothing (calls (run_MixedKernel false true))
  /\ Forall expands_nothing (calls (run_MixedKernel false false))
  /\ exists pre : list (Call Z),
       calls (run_SeparateIndependent true false)
       = pre ++ [Call_expand_independent_outputs
                   (snd (returned (run_SeparateIndependent true false)))
                   true false].
Proof.
  split; [|split].
  - exact (proj1 (proj2 (@MixedKernel_inner_call_has_no_output_covariance Z _ toy
                           Xnew mixed_shared_feature mixed_kernel f false true
                           (Some q_sqrt_chol) false))).
  - exact (proj1 (proj2 (@MixedKernel_inner_call_has_no_output_covariance Z _ toy
                           Xnew mixed_shared_feature mixed_kernel f false false
                           (Some q_sqrt_chol) false))).
  - apply (proj2 (proj2 (@MixedKernel_inner_call_has_no_output_covariance Z _ toy
                           Xnew separate_feature separate_kernel f true true
                           (Some q_sqrt_diag) false))
             (calls (run_SeparateIndependent true false))
             (fst (returned (run_SeparateIndependent true false)))).
    reflexivity.
Defined.

(** * More of the module: footprints, failures and data flow *)

(** ** What every run calls *)

Ltac footprint_tac :=
  repeat first
    [ apply all_calls_ret | apply all_calls_raise | apply all_calls_lift
    | apply all_calls_getattr
    | apply all_calls_call; simpl; solve [repeat split; auto; congruence]
    | apply all_calls_mapM; intros
    | apply all_calls_bind; [|intros]
    | match goal with
      | |- all_calls _ (if ?b then _ else _) => destruct b
      | |- all_calls _ (let (_, _) := ?x in _) => destruct x
      | |- all_calls _ (match ?x with _ => _ end) => destruct x
      end ].

Section FootprintFacts.

Context {A : Type} {SA : Scalar A}.
Variable env : Collaborators A.

Local Abbreviation T := (Tensor A).

(** The calls the batched independent implementation can make: whatever
    holds of these holds of every call of every run. *)
Lemma SeparateIndependent_all_calls (P : Call A -> Prop)
    (Xnew : T) (feature : Feature) (kernel : Kernel A) (f : T)
    (full_cov full_output_cov : bool) (q_sqrt : option T) (white : bool) :
  P (Call_Kuu feature kernel (default_jitter env)) ->
  P (Call_Kuf feature kernel Xnew) ->
  (forall k, full_cov = true -> P (Call_K k Xnew)) ->
  (forall k, full_cov = false -> P (Call_K_diag k Xnew)) ->
  (forall Kmn Kmm Knn f' q,
      P (Call_base_conditional Kmn Kmm Knn f' full_cov (Some q) white)) ->
  (forall t, P (Call_rollaxis_left t 1)) ->
  (forall v, P (Call_expand_independent_outputs v full_cov full_output_cov)) ->
  all_calls P (_conditional_SeparateIndependent env Xnew feature kernel f
                 full_cov full_output_cov q_sqrt white).
Proof.
  intros HKuu HKuf HK HKd Hbc Hroll Hexp.
  unfold _conditional_SeparateIndependent, call_Kuu, call_Kuf,
    constituent_kernels, stack_Knns, reshape_q_sqrt, tf_map_fn,
    call_K, call_K_diag, call_base_conditional, call_rollaxis_left,
    call_expand_independent_outputs.
  repeat first
    [ apply all_calls_ret | apply all_calls_raise | apply all_calls_lift
    | apply all_calls_getattr
    | apply all_calls_call; solve [auto]
    | apply all_calls_mapM; intros
    | apply all_calls_bind; [|intros]
    | match goal with
      | |- all_calls _ (if full_cov then _ else _) =>
          destruct full_cov eqn:?
      | |- all_calls _ (if ?b then _ else _) => destruct b
      | |- all_calls _ (let (_, _) := ?x in _) => destruct x
      | |- all_calls _ (match ?x with _ => _ end) => destruct x
      end ].
Qed.

(** Each implementation calls only the imported functions its own body
    names: no run of the shared-kernel or the batched implementation ever
    reaches an interdomain, fully correlated or mixing helper, the batched
    and the mixed-kernel implementations never call the multi-output kernel
    itself, the interdomain implementation never calls [base_conditional],
    and so on, on every input and on failing runs too. *)
Theorem implementations_keep_to_their_helpers
    (r : Regime) (Xnew : T) (feature : Feature) (kernel : Kernel A) (f : T)
    (full_cov full_output_cov : bool) (q_sqrt : option T) (white : bool) :
  Forall (fun c => may_call r c = true)
    (calls (implementation env r Xnew feature kernel f
              full_cov full_output_cov q_sqrt white)).
Proof.
  match goal with |- Forall ?P (calls ?m) => change (all_calls P m) end.
  destruct r; simpl.
  - unfold _conditional_SharedIndependent, call_Kuu, call_Kuf, call_kernel,
      call_base_conditional, call_expand_independent_outputs.
    footprint_tac.
  - apply SeparateIndependent_all_calls; intros; reflexivity.
  - unfold _conditional_IndependentInterdomain, call_Kuu, call_Kuf,
      call_kernel, call_independent_interdomain_conditional.
    footprint_tac.
  - unfold _conditional_FullyCorrelated, call_Kuu, call_Kuf, call_kernel,
      call_base_conditional, call_fully_correlated_conditional.
    footprint_tac.
  - unfold _conditional_MixedKernel, call_mix_latent_gp.
    apply all_calls_bind.
    + apply SeparateIndependent_all_calls; intros; reflexivity.
    + intros [gmu gvar]. footprint_tac.
Qed.

Lemma all_calls_bind_Ok {X Y : Type} (P : Call A -> Prop)
    (m : M A X) (k : X -> M A Y) :
  all_calls P m -> (forall x, result m = Ok x -> all_calls P (k x)) ->
  all_calls P (bind m k).
Proof.
  unfold all_calls, calls, result, bind.
  destruct m as [l [x|e]]; simpl; intros Hm Hk.
  - specialize (Hk x eq_refl). destruct (k x) as [l' r']. simpl in *.
    apply Forall_app; auto.
  - exact Hm.
Qed.

(** Every call of every run is on the caller's own feature, kernel and
    [Xnew], and carries the caller's [full_cov] and [white]: [K] is asked
    only under [full_cov] and [K_diag] only without it, [rollaxis_left] is
    always asked for one roll, and the mixing matrix handed to
    [mix_latent_gp] is [kernel.W]. *)
Theorem calls_carry_the_callers_inputs
    (r : Regime) (Xnew : T) (feature : Feature) (kernel : Kernel A) (f : T)
    (full_cov full_output_cov : bool) (q_sqrt : option T) (white : bool) :
  Forall (hands_on_inputs feature kernel Xnew full_cov white)
    (calls (implementation env r Xnew feature kernel f
              full_cov full_output_cov q_sqrt white)).
Proof.
  match goal with |- Forall ?P (calls ?m) => change (all_calls P m) end.
  destruct r; simpl.
  - unfold _conditional_SharedIndependent, call_Kuu, call_Kuf, call_kernel,
      call_base_conditional, call_expand_independent_outputs.
    footprint_tac.
  - apply SeparateIndependent_all_calls; intros; simpl; auto.
  - unfold _conditional_IndependentInterdomain, call_Kuu, call_Kuf,
      call_kernel, call_independent_interdomain_conditional.
    footprint_tac.
  - unfold _conditional_FullyCorrelated, call_Kuu, call_Kuf, call_kernel,
      call_base_conditional, call_fully_correlated_conditional.
    footprint_tac.
  - unfold _conditional_MixedKernel, call_mix_latent_gp.
    apply all_calls_bind.
    + apply SeparateIndependent_all_calls; intros; simpl; auto.
    + intros [gmu gvar]. apply all_calls_bind_Ok; [apply all_calls_getattr|].
      intros W HW. apply all_calls_call. simpl. split; [reflexivity|].
      destruct (kernel_W kernel); [now injection HW as -> | discriminate].
Qed.

(** The [full_output_cov] of the caller reaches the interdomain and fully
    correlated helpers, [mix_latent_gp], and the expansion of the two
    independent implementations unchanged.  Two calls never see it: the
    shared-kernel implementation asks the kernel with [False] and the
    mixed-kernel implementation expands with [False]. *)
Theorem calls_carry_the_output_flag
    (r : Regime) (Xnew : T) (feature : Feature) (kernel : Kernel A) (f : T)
    (full_cov full_output_cov : bool) (q_sqrt : option T) (white : bool) :
  Forall (hands_on_output_flag r full_output_cov)
    (calls (implementation env r Xnew feature kernel f
              full_cov full_output_cov q_sqrt white)).
Proof.
  match goal with |- Forall ?P (calls ?m) => change (all_calls P m) end.
  destruct r; simpl.
  - unfold _conditional_SharedIndependent, call_Kuu, call_Kuf, call_kernel,
      call_base_conditional, call_expand_independent_outputs.
    footprint_tac.
  - apply SeparateIndependent_all_calls; intros; simpl; auto.
  - unfold _conditional_IndependentInterdomain, call_Kuu, call_Kuf,
      call_kernel, call_independent_interdomain_conditional.
    footprint_tac.
  - unfold _conditional_FullyCorrelated, call_Kuu, call_Kuf, call_kernel,
      call_base_conditional, call_fully_correlated_conditional.
    footprint_tac.
  - unfold _conditional_MixedKernel, call_mix_latent_gp.
    apply all_calls_bind.
    + apply SeparateIndependent_all_calls; intros; simpl; auto.
    + intros [gmu gvar]. footprint_tac.
Qed.

(** The shared-kernel, interdomain and fully correlated implementations
    hand the caller's [q_sqrt] to their conditional helper as it is, [None]
    included; the batched and the mixed-kernel implementations never call
    [base_conditional] without a [q_sqrt]. *)
Theorem calls_carry_q_sqrt
    (r : Regime) (Xnew : T) (feature : Feature) (kernel : Kernel A) (f : T)
    (full_cov full_output_cov : bool) (q_sqrt : option T) (white : bool) :
  Forall (hands_on_q_sqrt r q_sqrt)
    (calls (implementation env r Xnew feature kernel f
              full_cov full_output_cov q_sqrt white)).
Proof.
  match goal with |- Forall ?P (calls ?m) => change (all_calls P m) end.
  destruct r; simpl.
  - unfold _conditional_SharedIndependent, call_Kuu, call_Kuf, call_kernel,
      call_base_conditional, call_expand_independent_outputs.
    footprint_tac.
  - apply SeparateIndependent_all_calls; intros; simpl; auto; discriminate.
  - unfold _conditional_IndependentInterdomain, call_Kuu, call_Kuf,
      call_kernel, call_independent_interdomain_conditional.
    footprint_tac.
  - unfold _conditional_FullyCorrelated, call_Kuu, call_Kuf, call_kernel,
      call_base_conditional, call_fully_correlated_conditional.
    footprint_tac.
  - unfold _conditional_MixedKernel, call_mix_latent_gp.
    apply all_calls_bind.
    + apply SeparateIndependent_all_calls; intros; simpl; auto; discriminate.
    + intros [gmu gvar]. footprint_tac.
Qed.

End FootprintFacts.

(** ** How every run fails *)

Section FailureFacts.

Context {A : Type} {SA : Scalar A}.
Variable env : Collaborators A.

Local Abbreviation T := (Tensor A).








End FailureFacts.

(** ** Entries of sliced, stacked and reshaped tensors *)

Section EntryFacts.

Context {A : Type} {SA : Scalar A}.

Local Abbreviation T := (Tensor A).

Lemma in_bounds_cons (d i : nat) (s idx : list nat) :
  in_bounds (d :: s) (i :: idx) <-> i < d /\ in_bounds s idx.
Proof.
  unfold in_bounds. split.
  - intros H. inversion H; subst. auto.
  - intros [Hi Hb]. now constructor.
Qed.

(** Entry [idx] of the slice number [p] is entry [p :: idx] of the tensor. *)
Lemma get_unstack (t : T) (sl : list T) (p : nat) (u : T) (idx : list nat) :
  tf_unstack t = Ok sl ->
  nth_error sl p = Some u ->
  in_bounds (shape u) idx ->
  get u idx = get t (p :: idx).
Proof.
  unfold tf_unstack. destruct (shape t) as [|d rest] eqn:Es; [discriminate|].
  intros [= <-] Hp Hb.
  rewrite nth_error_map in Hp.
  destruct (nth_error (seq 0 d) p) as [i|] eqn:Ei; [|discriminate].
  simpl in Hp. injection Hp as <-.
  assert (Hpd : p < d).
  { rewrite <- (length_seq d 0). apply nth_error_Some. congruence. }
  apply nth_error_nth with (d := 0) in Ei. rewrite seq_nth in Ei by assumption.
  simpl in Ei. subst i. simpl in Hb.
  unfold get. simpl. rewrite Es. simpl. fold (prod rest).
  rewrite nth_firstn.
  pose proof (ravel_lt Hb) as Hlt.
  destruct (Nat.ltb_spec (ravel rest idx) (prod rest)); [|lia].
  now rewrite nth_skipn.
Qed.

Lemma tf_unstack_length (t : T) (sl : list T) (d : nat) (rest : list nat) :
  tf_unstack t = Ok sl -> shape t = d :: rest ->
  length sl = d /\ Forall (fun u => shape u = rest) sl.
Proof.
  intros H Es. destruct (tf_unstack_Ok _ H) as (d' & rest' & Es' & Hl & Hs).
  rewrite Es in Es'. injection Es' as <- <-. auto.
Qed.

(** [t[..., 0]] *)
Lemma get_index_last_0 (t r : T) (idx : list nat) :
  index_last_0 t = Ok r -> in_bounds (shape r) idx ->
  get r idx = get t (idx ++ [0]).
Proof.
  unfold index_last_0. destruct (rev (shape t)) as [|d rinit]; [discriminate|].
  destruct (0 <? d); [|discriminate].
  intros [= <-] Hb. now rewrite get_tabulate.
Qed.

(** [t[0, ...]] *)
Lemma get_index_first_0 (t r : T) (idx : list nat) :
  index_first_0 t = Ok r -> in_bounds (shape r) idx ->
  get r idx = get t (0 :: idx).
Proof.
  unfold index_first_0. destruct (shape t) as [|d rest] eqn:Es; [discriminate|].
  destruct (0 <? d); [|discriminate].
  intros [= <-] Hb. simpl in Hb. unfold get. simpl. rewrite Es. simpl.
  rewrite nth_firstn. pose proof (ravel_lt Hb) as Hlt.
  now destruct (Nat.ltb_spec (ravel rest idx) (prod rest)); [|lia].
Qed.

(** [tf.transpose(t)] of a matrix. *)
Lemma get_tf_transpose_2 (t : T) (M P m p : nat) :
  shape t = [M; P] -> m < M -> p < P ->
  get (tf_transpose t) [p; m] = get t [m; p].
Proof.
  intros Es Hm Hp. unfold tf_transpose. rewrite Es. simpl rev.
  rewrite get_tabulate; [reflexivity|]. now repeat constructor.
Qed.

(** [t[:, :, None]] of a matrix. *)
Lemma get_newaxis_2 (t r : T) (a b : nat) :
  newaxis_2 t = Ok r -> length (shape t) = 2 ->
  get r [a; b; 0] = get t [a; b].
Proof.
  unfold newaxis_2. destruct (shape t) as [|d0 [|d1 [|? ?]]] eqn:Es; try discriminate.
  intros [= <-] _. unfold get. simpl. rewrite Es. simpl. f_equal; lia.
Qed.

(** [t[:, None, :, :]] of a three-axis tensor. *)
Lemma get_newaxis_1 (t r : T) (a b c : nat) :
  newaxis_1 t = Ok r -> length (shape t) = 3 ->
  get r [a; 0; b; c] = get t [a; b; c].
Proof.
  unfold newaxis_1.
  destruct (shape t) as [|d0 [|d1 [|d2 [|? ?]]]] eqn:Es; try discriminate.
  intros [= <-] _. unfold get. simpl. rewrite Es. simpl. f_equal; lia.
Qed.

(** Entry [p :: idx] of a stack is entry [idx] of the tensor number [p]. *)
Lemma get_tf_stack (ts : list T) (r u : T) (p : nat) (idx : list nat) :
  tf_stack ts = Ok r -> Forall wf ts ->
  nth_error ts p = Some u -> in_bounds (shape u) idx ->
  get r (p :: idx) = get u idx.
Proof.
  intros Hst Hwf Hp Hb.
  destruct (tf_stack_Ok _ Hst) as (s0 & Hshape & Er & _).
  assert (Hun : tf_unstack r = Ok ts).
  { rewrite Er. apply tf_unstack_stack. apply Forall_forall. intros v Hv.
    rewrite Forall_forall in Hshape, Hwf. auto. }
  symmetry. eapply get_unstack; eassumption.
Qed.

(** Reading a reshaped tensor at the same row-major offset. *)
Lemma get_same_offset (s s' : list nat) (d : list A) (idx idx' : list nat) :
  ravel s idx = ravel s' idx' ->
  get (mkTensor s d) idx = get (mkTensor s' d) idx'.
Proof. unfold get. simpl. now intros ->. Qed.

End EntryFacts.

(** ** The batched independent implementation, step by step *)

Section BatchedFacts.

Context {A : Type} {SA : Scalar A}.
Variable env : Collaborators A.

Local Abbreviation T := (Tensor A).

Lemma collect_app {X : Type} (sel : Call A -> option X) (l1 l2 : list (Call A)) :
  collect sel (l1 ++ l2) = collect sel l1 ++ collect sel l2.
Proof.
  induction l1 as [|c l1 IH]; simpl; [reflexivity|].
  destruct (sel c); simpl; now rewrite IH.
Qed.

Lemma collect_none {X : Type} (sel : Call A -> option X) (l : list (Call A)) :
  Forall (fun c => sel c = None) l -> collect sel l = [].
Proof.
  induction 1 as [|c l Hc _ IH]; simpl; [reflexivity|]. now rewrite Hc.
Qed.

Lemma collect_all {X Y : Type} (sel : Call A -> option X)
    (mk : Y -> Call A) (g : Y -> X) (ys : list Y) :
  (forall y, sel (mk y) = Some (g y)) ->
  collect sel (map mk ys) = map g ys.
Proof.
  intros H. induction ys as [|y ys IH]; simpl; [reflexivity|].
  now rewrite H, IH.
Qed.

Lemma nth_error_combine {X Y : Type} (l : list X) (l' : list Y) (n : nat)
    (x : X) (y : Y) :
  nth_error (combine l l') n = Some (x, y) ->
  nth_error l n = Some x /\ nth_error l' n = Some y.
Proof.
  revert l' n. induction l as [|a l IH]; intros [|b l'] [|n]; simpl;
    try discriminate.
  - intros [= -> ->]. auto.
  - apply IH.
Qed.

Lemma length_zip5 (s1 s2 s3 s4 s5 : list T) :
  length s2 = length s1 -> length s3 = length s1 ->
  length s4 = length s1 -> length s5 = length s1 ->
  length (zip5 s1 s2 s3 s4 s5) = length s1.
Proof.
  intros. unfold zip5. rewrite !length_combine. lia.
Qed.

Lemma single_gp_calls (full_cov white : bool) (z : list (T * T * T * T * T)) :
  concat (map (fun x : T * T * T * T * T =>
                 calls (let '(Kmm, Kmn, Knn, f0, q_sqrt) := x in
                        call_base_conditional env Kmn Kmm Knn f0
                          full_cov (Some q_sqrt) white))
            z)
  = map (single_gp_call full_cov white) z.
Proof.
  induction z as [|[[[[a1 a2] a3] a4] a5] z IH]; [reflexivity|].
  cbn [map concat]. rewrite IH. reflexivity.
Qed.

(** Everything a successful run went through, in the order of lines
    102-129. *)
Lemma SeparateIndependent_inversion
    (Xnew : T) (feature : Feature) (kernel : Kernel A) (f : T)
    (full_cov full_output_cov : bool) (q_sqrt : option T) (white : bool)
    (log : list (Call A)) (fmu fvar : T) :
  _conditional_SeparateIndependent env Xnew feature kernel f
    full_cov full_output_cov q_sqrt white = (log, Ok (fmu, fvar)) ->
  exists Kmms Kmns kernels Ks Knns fs q qs s1 s2 s3 s4 s5 outs
         rmu rvar rmu0 bvar tail,
    Kuu env feature kernel (default_jitter env) = Ok Kmms
    /\ Kuf env feature kernel Xnew = Ok Kmns
    /\ (if isinstance_Combination kernel
        then kernel_kernels kernel = Some kernels
        else exists k features,
            kernel_kernel kernel = Some k
            /\ feature_features feature = Some features
            /\ kernels = repeat k (length features))
    /\ Forall2 (fun k t => Knn_of env Xnew full_cov k = Ok t) kernels Ks
    /\ tf_stack Ks = Ok Knns
    /\ newaxis_2 (tf_transpose f) = Ok fs
    /\ q_sqrt = Some q
    /\ (if ndims q =? 2 then newaxis_2 (tf_transpose q) else newaxis_1 q) = Ok qs
    /\ tf_unstack Kmms = Ok s1 /\ tf_unstack Kmns = Ok s2
    /\ tf_unstack Knns = Ok s3 /\ tf_unstack fs = Ok s4
    /\ tf_unstack qs = Ok s5
    /\ length s2 = length s1 /\ length s3 = length s1
    /\ length s4 = length s1 /\ length s5 = length s1
    /\ Forall2 (fun x y => single_gp_answer env full_cov white x = Ok y)
         (zip5 s1 s2 s3 s4 s5) outs
    /\ tf_stack (map fst outs) = Ok rmu
    /\ tf_stack (map snd outs) = Ok rvar
    /\ index_last_0 rmu = Ok rmu0
    /\ rollaxis_left rmu0 1 = Ok fmu
    /\ (if full_cov
        then index_third_last_0 rvar = Ok bvar /\ tail = []
        else exists rvar0,
            index_last_0 rvar = Ok rvar0
            /\ rollaxis_left rvar0 1 = Ok bvar
            /\ tail = [Call_rollaxis_left rvar0 1])
    /\ expand_independent_outputs bvar full_cov full_output_cov = Ok fvar
    /\ log = Call_Kuu feature kernel (default_jitter env)
             :: Call_Kuf feature kernel Xnew
             :: map (Knn_call Xnew full_cov) kernels
             ++ map (single_gp_call full_cov white) (zip5 s1 s2 s3 s4 s5)
             ++ Call_rollaxis_left rmu0 1
             :: tail
             ++ [Call_expand_independent_outputs bvar full_cov full_output_cov].
Proof.
  intros H. unfold _conditional_SeparateIndependent in H.
  unfold call_Kuu, call_Kuf, call_rollaxis_left,
    call_expand_independent_outputs in H.
  inv_comp.
  match goal with H : (_, _) = (_, _) |- _ => injection H as <- <- end.
  match goal with H : constituent_kernels _ _ = _ |- _ =>
    apply constituent_kernels_Ok in H; destruct H as [-> Hks] end.
  match goal with H : stack_Knns _ _ _ _ = _ |- _ =>
    apply stack_Knns_Ok in H; destruct H as (Ks & HKs & Hstack & ->) end.
  match goal with H : reshape_q_sqrt _ = _ |- _ =>
    apply reshape_q_sqrt_Ok in H; destruct H as (q & -> & -> & Hq) end.
  match goal with H : tf_map_fn _ _ = _ |- _ =>
    apply tf_map_fn_Ok in H;
    destruct H as (s1 & s2 & s3 & s4 & s5 & outs & U1 & U2 & U3 & U4 & U5
                   & L2 & L3 & L4 & L5 & Houts & -> & Hr1 & Hr2) end.
  fold (zip5 s1 s2 s3 s4 s5) in Houts |- *.
  pose proof (single_gp_calls full_cov white (zip5 s1 s2 s3 s4 s5)) as Hlog.
  assert (Houts' : Forall2 (fun x y => single_gp_answer env full_cov white x = Ok y)
                     (zip5 s1 s2 s3 s4 s5) outs).
  { eapply Forall2_impl; [|exact Houts].
    intros [[[[a1 a2] a3] a4] a5] y Hy. exact Hy. }
  rewrite Hlog.
  match goal with
  | H1 : Kuu _ _ _ _ = Ok ?Kmms, H2 : Kuf _ _ _ _ = Ok ?Kmns,
    H3 : tf_stack Ks = Ok ?Knns, H4 : newaxis_2 (tf_transpose f) = Ok ?fs,
    H5 : (if ndims q =? 2 then _ else _) = Ok ?qs,
    H6 : tf_stack (map fst outs) = Ok ?rmu,
    H7 : tf_stack (map snd outs) = Ok ?rvar,
    H8 : index_last_0 ?rmu = Ok ?rmu0,
    H9 : expand_independent_outputs ?bvar _ _ = Ok _,
    H10 : Forall2 _ ?kernels Ks |- _ =>
      exists Kmms, Kmns, kernels, Ks, Knns, fs, q, qs, s1, s2, s3, s4, s5, outs,
        rmu, rvar, rmu0, bvar
  end.
  destruct full_cov; inv_comp.
  - exists []. repeat (split; [assumption || reflexivity|]).
    split; [auto|]. split; [assumption|]. simpl. now rewrite ?app_nil_r.
  - match goal with H : rollaxis_left ?v 1 = Ok ?b,
                    H' : expand_independent_outputs ?b _ _ = Ok _ |- _ =>
      exists [Call_rollaxis_left v 1] end.
    repeat (split; [assumption || reflexivity|]).
    split; [eauto|]. split; [assumption|]. simpl. now rewrite ?app_nil_r.
Qed.

Lemma collect_Knn_calls {X : Type} (sel : Call A -> option X)
    (Xnew : T) (full_cov : bool) (kernels : list Handle) :
  (forall k, sel (Call_K k Xnew) = None) ->
  (forall k, sel (Call_K_diag k Xnew) = None) ->
  collect sel (map (Knn_call Xnew full_cov) kernels) = [].
Proof.
  intros H1 H2. apply collect_none. apply Forall_forall. intros c Hc.
  apply in_map_iff in Hc. destruct Hc as (k & <- & _).
  unfold Knn_call. destruct full_cov; auto.
Qed.

(** The [base_conditional] calls of a successful run, read from its log. *)
Lemma collect_base_conditional_arguments
    (Xnew : T) (feature : Feature) (kernel : Kernel A)
    (full_cov full_output_cov white : bool) (kernels : list Handle)
    (z : list (T * T * T * T * T)) (rmu0 bvar : T) (tail : list (Call A)) :
  (tail = [] \/ exists rvar0, tail = [Call_rollaxis_left rvar0 1]) ->
  collect base_conditional_arguments
    (Call_Kuu feature kernel (default_jitter env)
     :: Call_Kuf feature kernel Xnew
     :: map (Knn_call Xnew full_cov) kernels
     ++ map (single_gp_call full_cov white) z
     ++ Call_rollaxis_left rmu0 1
     :: tail
     ++ [Call_expand_independent_outputs bvar full_cov full_output_cov])
  = map single_gp_arguments z.
Proof.
  intros Htail. cbn [collect base_conditional_arguments].
  rewrite !collect_app, collect_Knn_calls by reflexivity.
  rewrite (collect_all base_conditional_arguments
             (single_gp_call full_cov white) single_gp_arguments)
    by (intros [[[[a1 a2] a3] a4] a5]; reflexivity).
  destruct Htail as [-> | (rvar0 & ->)]; simpl; now rewrite app_nil_r.
Qed.

Lemma tail_cases (full_cov : bool) (rvar bvar : T) (tail : list (Call A)) :
  (if full_cov
   then index_third_last_0 rvar = Ok bvar /\ tail = []
   else exists rvar0,
       index_last_0 rvar = Ok rvar0
       /\ rollaxis_left rvar0 1 = Ok bvar
       /\ tail = [Call_rollaxis_left rvar0 1]) ->
  tail = [] \/ exists rvar0, tail = [Call_rollaxis_left rvar0 1].
Proof.
  destruct full_cov.
  - intros [_ ->]. now left.
  - intros (rvar0 & _ & _ & ->). right. now exists rvar0.
Qed.

Lemma rev_eq_cons (l l' : list nat) (d : nat) :
  rev l = d :: l' -> l = rev l' ++ [d].
Proof.
  intros H. rewrite <- (rev_involutive l), H. reflexivity.
Qed.

(** On a run that returns, [base_conditional] was called once for each
    constituent kernel, after every [K] or [K_diag] call and before
    [rollaxis_left], which is called once under [full_cov] and twice
    otherwise.  The number of kernels is then also the size of the leading
    axis of [Kuu]'s and of [Kuf]'s answer, of the last axis of [f], and of
    the last axis of a two-axis [q_sqrt] or the leading axis of any other:
    with any of them different, or no kernel at all, the call does not
    return. *)
Theorem SeparateIndependent_one_base_conditional_per_kernel
    (Xnew : T) (feature : Feature) (kernel : Kernel A) (f : T)
    (full_cov full_output_cov : bool) (q_sqrt : option T) (white : bool)
    (log : list (Call A)) (fmu fvar : T) :
  _conditional_SeparateIndependent env Xnew feature kernel f
    full_cov full_output_cov q_sqrt white = (log, Ok (fmu, fvar)) ->
  exists Kmms Kmns q kernels bcs rmu0 tail bvar,
    Kuu env feature kernel (default_jitter env) = Ok Kmms
    /\ Kuf env feature kernel Xnew = Ok Kmns
    /\ q_sqrt = Some q
    /\ 0 < length kernels
    /\ log = Call_Kuu feature kernel (default_jitter env)
             :: Call_Kuf feature kernel Xnew
             :: map (Knn_call Xnew full_cov) kernels
             ++ bcs
             ++ Call_rollaxis_left rmu0 1
             :: tail
             ++ [Call_expand_independent_outputs bvar full_cov full_output_cov]
    /\ length bcs = length kernels
    /\ Forall (fun c => is_base_conditional c = true) bcs
    /\ (if full_cov then tail = []
        else exists rvar0, tail = [Call_rollaxis_left rvar0 1])
    /\ (exists rest, shape Kmms = length kernels :: rest)
    /\ (exists rest, shape Kmns = length kernels :: rest)
    /\ (exists init, shape f = init ++ [length kernels])
    /\ (if ndims q =? 2
        then exists M, shape q = [M; length kernels]
        else exists rest, shape q = length kernels :: rest).
Proof.
  intros H.
  destruct (SeparateIndependent_inversion _ _ _ _ _ _ _ _ H)
    as (Kmms & Kmns & kernels & Ks & Knns & fs & q & qs & s1 & s2 & s3 & s4 & s5
        & outs & rmu & rvar & rmu0 & bvar & tail
        & HKuu & HKuf & _ & HKs & Hstack & Hfs & Hq & Hqs
        & U1 & U2 & U3 & U4 & U5 & L2 & L3 & L4 & L5 & Houts & Hr1 & _ & Hidx & _
        & Htail & _ & Hlog).
  destruct (tf_stack_Ok _ Hstack) as (s0 & _ & EKnns & _).
  assert (HP : length s1 = length kernels).
  { rewrite <- L3, (Forall2_length HKs).
    assert (ES : shape Knns = length Ks :: s0) by now rewrite EKnns.
    exact (proj1 (tf_unstack_length _ U3 ES)). }
  exists Kmms, Kmns, q, kernels,
    (map (single_gp_call full_cov white) (zip5 s1 s2 s3 s4 s5)),
    rmu0, tail, bvar.
  split; [assumption|]. split; [assumption|]. split; [assumption|].
  split.
  { pose proof (tf_stack_index_last_0 _ Hr1 Hidx) as Hpos.
    rewrite length_map, <- (Forall2_length Houts), length_zip5 in Hpos
      by assumption.
    now rewrite <- HP. }
  split; [assumption|].
  split. { rewrite length_map, length_zip5 by assumption. exact HP. }
  split.
  { apply Forall_forall. intros c Hc. apply in_map_iff in Hc.
    destruct Hc as ([[[[a1 a2] a3] a4] a5] & <- & _). reflexivity. }
  split.
  { destruct full_cov; [tauto|]. destruct Htail as (rvar0 & _ & _ & ->). eauto. }
  split.
  { destruct (tf_unstack_Ok _ U1) as (d & rest & E & Hl & _).
    exists rest. now rewrite E, <- HP, Hl. }
  split.
  { destruct (tf_unstack_Ok _ U2) as (d & rest & E & Hl & _).
    exists rest. now rewrite E, <- HP, <- L2, Hl. }
  split.
  { destruct (newaxis_2_Ok _ Hfs) as (d0 & d1 & rest & Et & Efs).
    destruct (tf_unstack_length _ U4 Efs) as [Hl _].
    unfold tf_transpose in Et. simpl in Et. apply rev_eq_cons in Et.
    exists (rev (d1 :: rest)). rewrite Et. f_equal. f_equal. lia. }
  destruct (Nat.eqb_spec (ndims q) 2) as [E2|E2].
  - destruct (newaxis_2_Ok _ Hqs) as (d0 & d1 & rest & Et & Eqs).
    destruct (tf_unstack_length _ U5 Eqs) as [Hl _].
    unfold tf_transpose in Et. simpl in Et. apply rev_eq_cons in Et.
    unfold ndims in E2. rewrite Et in E2. rewrite length_app in E2.
    simpl in E2. rewrite length_app, length_rev in E2. simpl in E2.
    assert (rest = []) by (destruct rest; [reflexivity | simpl in E2; lia]).
    subst rest. exists d1. rewrite Et. simpl. f_equal. f_equal. lia.
  - unfold newaxis_1 in Hqs.
    destruct (shape q) as [|d0 [|d1 [|d2 rest]]] eqn:Esq; try discriminate.
    injection Hqs as <-.
    destruct (tf_unstack_length _ U5 eq_refl) as [Hl _].
    exists (d1 :: d2 :: rest). f_equal. lia.
Qed.

(** On a run that returns, with [f] of shape [M, P], the call number [p] of
    [base_conditional] receives what belongs to output [p]: the slice [p] of
    [Kuu]'s answer as [Kmm], the slice [p] of [Kuf]'s answer as [Kmn], and
    column [p] of [f], as an [M, 1] matrix. *)
Theorem SeparateIndependent_call_p_gets_output_p
    (Xnew : T) (feature : Feature) (kernel : Kernel A) (f : T)
    (full_cov full_output_cov : bool) (q_sqrt : option T) (white : bool)
    (log : list (Call A)) (fmu fvar : T) (Kmms Kmns : T) (M P : nat) :
  _conditional_SeparateIndependent env Xnew feature kernel f
    full_cov full_output_cov q_sqrt white = (log, Ok (fmu, fvar)) ->
  Kuu env feature kernel (default_jitter env) = Ok Kmms ->
  Kuf env feature kernel Xnew = Ok Kmns ->
  shape f = [M; P] ->
  length (collect base_conditional_arguments log) = P
  /\ forall p Kmn_p Kmm_p Knn_p f_p q_p,
       nth_error (collect base_conditional_arguments log) p
       = Some (Kmn_p, Kmm_p, Knn_p, f_p, q_p) ->
       shape Kmms = P :: shape Kmm_p
       /\ (forall idx, in_bounds (shape Kmm_p) idx ->
                       get Kmm_p idx = get Kmms (p :: idx))
       /\ shape Kmns = P :: shape Kmn_p
       /\ (forall idx, in_bounds (shape Kmn_p) idx ->
                       get Kmn_p idx = get Kmns (p :: idx))
       /\ shape f_p = [M; 1]
       /\ (forall m, m < M -> get f_p [m; 0] = get f [m; p]).
Proof.
  intros H HKuu' HKuf' Ef.
  destruct (SeparateIndependent_inversion _ _ _ _ _ _ _ _ H)
    as (Kmms' & Kmns' & kernels & Ks & Knns & fs & q & qs & s1 & s2 & s3 & s4 & s5
        & outs & rmu & rvar & rmu0 & bvar & tail
        & HKuu & HKuf & _ & _ & _ & Hfs & _ & _
        & U1 & U2 & U3 & U4 & U5 & L2 & L3 & L4 & L5 & _ & _ & _ & _ & _
        & Htail & _ & ->).
  rewrite HKuu in HKuu'. injection HKuu' as <-.
  rewrite HKuf in HKuf'. injection HKuf' as <-.
  rewrite (collect_base_conditional_arguments _ _ _ _ _ _ _ _ _ _ (tail_cases _ _ _ _ Htail)).
  (* the shapes around [f] *)
  destruct (newaxis_2_Ok _ Hfs) as (d0 & d1 & rest & Et & Efs).
  unfold tf_transpose in Et. rewrite Ef in Et. simpl in Et.
  injection Et as <- <- <-.
  destruct (tf_unstack_length _ U4 Efs) as [Hl4 Hs4].
  destruct (tf_unstack_Ok _ U1) as (dm & restm & Em & Hl1 & Hs1).
  destruct (tf_unstack_Ok _ U2) as (dn & restn & En & Hl2 & Hs2).
  split. { rewrite length_map, length_zip5 by assumption. lia. }
  intros p Kmn_p Kmm_p Knn_p f_p q_p Hp.
  rewrite nth_error_map in Hp.
  destruct (nth_error (zip5 s1 s2 s3 s4 s5) p)
    as [[[[[a1 a2] a3] a4] a5]|] eqn:Ez; [|discriminate].
  simpl in Hp. injection Hp as <- <- <- <- <-.
  unfold zip5 in Ez.
  apply nth_error_combine in Ez. destruct Ez as [Ez _].
  apply nth_error_combine in Ez. destruct Ez as [Ez E4].
  apply nth_error_combine in Ez. destruct Ez as [Ez _].
  apply nth_error_combine in Ez. destruct Ez as [E1 E2].
  rewrite Forall_forall in Hs1, Hs2, Hs4.
  pose proof (Hs1 _ (nth_error_In _ _ E1)) as Sa1.
  pose proof (Hs2 _ (nth_error_In _ _ E2)) as Sa2.
  pose proof (Hs4 _ (nth_error_In _ _ E4)) as Sa4.
  assert (Hp : p < P).
  { rewrite <- Hl4. apply nth_error_Some. congruence. }
  split. { rewrite Em, Sa1. f_equal. lia. }
  split. { intros idx Hb. eapply get_unstack; eassumption. }
  split. { rewrite En, Sa2. f_equal. lia. }
  split. { intros idx Hb. eapply get_unstack; eassumption. }
  split; [assumption|].
  intros m Hm.
  rewrite (get_unstack _ p U4 E4) by (rewrite Sa4; repeat constructor; lia).
  unfold newaxis_2 in Hfs.
  assert (Es : shape (tf_transpose f) = [P; M])
    by (unfold tf_transpose; now rewrite Ef).
  rewrite (get_newaxis_2 (tf_transpose f) p m Hfs) by now rewrite Es.
  now apply (get_tf_transpose_2 f Ef).
Qed.

(** On a run that returns, the call number [p] of [base_conditional]
    receives the part of [q_sqrt] that belongs to output [p]: column [p] of a
    matrix [M, P] of standard deviations, as an [M, 1] matrix, or the factor
    number [p] of a stack [P, M, M] of Cholesky factors, as a [1, M, M]
    tensor. *)
Theorem SeparateIndependent_call_p_gets_q_sqrt_p
    (Xnew : T) (feature : Feature) (kernel : Kernel A) (f q : T)
    (full_cov full_output_cov : bool) (white : bool)
    (log : list (Call A)) (fmu fvar : T) :
  _conditional_SeparateIndependent env Xnew feature kernel f
    full_cov full_output_cov (Some q) white = (log, Ok (fmu, fvar)) ->
  forall p Kmn_p Kmm_p Knn_p f_p q_p,
    nth_error (collect base_conditional_arguments log) p
    = Some (Kmn_p, Kmm_p, Knn_p, f_p, q_p) ->
    exists qp,
      q_p = Some qp
      /\ (forall M P, shape q = [M; P] ->
            shape qp = [M; 1]
            /\ forall m, m < M -> get qp [m; 0] = get q [m; p])
      /\ (forall P M M', shape q = [P; M; M'] ->
            shape qp = [1; M; M']
            /\ forall i j, i < M -> j < M' -> get qp [0; i; j] = get q [p; i; j]).
Proof.
  intros H.
  destruct (SeparateIndependent_inversion _ _ _ _ _ _ _ _ H)
    as (Kmms & Kmns & kernels & Ks & Knns & fs & q' & qs & s1 & s2 & s3 & s4 & s5
        & outs & rmu & rvar & rmu0 & bvar & tail
        & _ & _ & _ & _ & _ & _ & Hq & Hqs
        & U1 & U2 & U3 & U4 & U5 & L2 & L3 & L4 & L5 & _ & _ & _ & _ & _
        & Htail & _ & ->).
  injection Hq as <-.
  rewrite (collect_base_conditional_arguments _ _ _ _ _ _ _ _ _ _ (tail_cases _ _ _ _ Htail)).
  intros p Kmn_p Kmm_p Knn_p f_p q_p Hp.
  rewrite nth_error_map in Hp.
  destruct (nth_error (zip5 s1 s2 s3 s4 s5) p)
    as [[[[[a1 a2] a3] a4] a5]|] eqn:Ez; [|discriminate].
  simpl in Hp. injection Hp as <- <- <- <- <-.
  unfold zip5 in Ez. apply nth_error_combine in Ez. destruct Ez as [_ E5].
  exists a5. split; [reflexivity|]. split.
  - intros M P Eq. unfold ndims in Hqs. rewrite Eq in Hqs. simpl in Hqs.
    assert (Es : shape (tf_transpose q) = [P; M])
      by (unfold tf_transpose; now rewrite Eq).
    destruct (newaxis_2_Ok _ Hqs) as (d0 & d1 & rest & Et & Eqs).
    rewrite Es in Et. injection Et as <- <- <-.
    destruct (tf_unstack_length _ U5 Eqs) as [Hl5 Hs5].
    rewrite Forall_forall in Hs5.
    pose proof (Hs5 _ (nth_error_In _ _ E5)) as Sa5.
    assert (Hp : p < P).
    { rewrite <- Hl5. apply nth_error_Some. congruence. }
    split; [assumption|]. intros m Hm.
    rewrite (get_unstack _ p U5 E5) by (rewrite Sa5; repeat constructor; lia).
    rewrite (get_newaxis_2 (tf_transpose q) p m Hqs) by now rewrite Es.
    now apply (get_tf_transpose_2 q Eq).
  - intros P M M' Eq. unfold ndims in Hqs. rewrite Eq in Hqs. simpl in Hqs.
    assert (Eqs : shape qs = [P; 1; M; M']).
    { unfold newaxis_1 in Hqs. rewrite Eq in Hqs. now injection Hqs as <-. }
    destruct (tf_unstack_length _ U5 Eqs) as [Hl5 Hs5].
    rewrite Forall_forall in Hs5.
    pose proof (Hs5 _ (nth_error_In _ _ E5)) as Sa5.
    split; [assumption|]. intros i j Hi Hj.
    rewrite (get_unstack _ p U5 E5) by (rewrite Sa5; repeat constructor; lia).
    apply (get_newaxis_1 q p i j Hqs). now rewrite Eq.
Qed.

Lemma Forall2_nth_error {X Y : Type} (R : X -> Y -> Prop)
    (xs : list X) (ys : list Y) (n : nat) (x : X) :
  Forall2 R xs ys -> nth_error xs n = Some x ->
  exists y, nth_error ys n = Some y /\ R x y.
Proof.
  intros HF. revert n. induction HF as [|x0 y0 xs ys HR _ IH]; intros [|n];
    simpl; try discriminate.
  - intros [= ->]. eauto.
  - apply IH.
Qed.

(** [t[..., 0, :, :]] of a four-axis tensor. *)
Lemma get_index_third_last_0_4 (t r : T) (P k N N' p n n' : nat) :
  index_third_last_0 t = Ok r -> shape t = [P; k; N; N'] ->
  shape r = [P; N; N']
  /\ (p < P -> n < N -> n' < N' -> get r [p; n; n'] = get t [p; 0; n; n']).
Proof.
  unfold index_third_last_0. intros H Es. rewrite Es in H. simpl in H.
  destruct (0 <? k); [|discriminate]. injection H as <-.
  split; [reflexivity|]. intros Hp Hn Hn'.
  rewrite get_tabulate; [reflexivity|]. now repeat constructor.
Qed.

(** The shapes of what the successive [base_conditional] calls returned for
    slices [M, N] of [Kmn] and [M, 1] of [f], when they are the ones
    [base_conditional] documents. *)
Lemma batched_answers_shapes (full_cov white : bool) (M N : nat)
    (s1 s2 s3 s4 s5 : list T) (outs : list (T * T)) :
  base_conditional_shapes env ->
  Forall (fun u => shape u = [M; N]) s2 ->
  Forall (fun u => shape u = [M; 1]) s4 ->
  Forall2 (fun x y => single_gp_answer env full_cov white x = Ok y)
    (zip5 s1 s2 s3 s4 s5) outs ->
  Forall (fun o => shape (fst o) = [N; 1]
                   /\ shape (snd o) = if full_cov then [1; N; N] else [N; 1])
    outs.
Proof.
  intros Hbc Hs2 Hs4 Houts.
  apply Forall_forall. intros [m v] Ho.
  destruct (In_nth_error _ _ Ho) as (n & Hn).
  assert (Hz : exists z, nth_error (zip5 s1 s2 s3 s4 s5) n = Some z
                         /\ single_gp_answer env full_cov white z = Ok (m, v)).
  { clear - Houts Hn. revert n Hn.
    induction Houts as [|x y xs ys HR _ IH]; intros [|n]; simpl;
      try discriminate.
    - intros [= ->]. eauto.
    - apply IH. }
  destruct Hz as ([[[[a1 a2] a3] a4] a5] & Ez & Hans).
  unfold zip5 in Ez. apply nth_error_combine in Ez. destruct Ez as [Ez _].
  apply nth_error_combine in Ez. destruct Ez as [Ez E4].
  apply nth_error_combine in Ez. destruct Ez as [Ez _].
  apply nth_error_combine in Ez. destruct Ez as [_ E2].
  rewrite Forall_forall in Hs2, Hs4.
  pose proof (Hs2 _ (nth_error_In _ _ E2)) as Sa2.
  pose proof (Hs4 _ (nth_error_In _ _ E4)) as Sa4.
  simpl in Hans.
  exact (Hbc _ _ _ _ _ _ _ _ _ _ _ _ Sa2 Sa4 Hans).
Qed.

Lemma collect_single_gp_calls_none {X : Type} (sel : Call A -> option X)
    (full_cov white : bool) (z : list (T * T * T * T * T)) :
  (forall Kmn Kmm Knn f q,
      sel (Call_base_conditional Kmn Kmm Knn f full_cov (Some q) white) = None) ->
  collect sel (map (single_gp_call full_cov white) z) = [].
Proof.
  intros Hsel. apply collect_none. apply Forall_forall. intros c Hc.
  apply in_map_iff in Hc.
  destruct Hc as ([[[[b1 b2] b3] b4] b5] & <- & _). apply Hsel.
Qed.

Lemma collect_rollaxis_left_arguments
    (Xnew : T) (feature : Feature) (kernel : Kernel A)
    (full_cov full_output_cov white : bool) (kernels : list Handle)
    (z : list (T * T * T * T * T)) (rmu0 bvar : T) (tail : list (Call A)) :
  collect rollaxis_left_argument
    (Call_Kuu feature kernel (default_jitter env)
     :: Call_Kuf feature kernel Xnew
     :: map (Knn_call Xnew full_cov) kernels
     ++ map (single_gp_call full_cov white) z
     ++ Call_rollaxis_left rmu0 1
     :: tail
     ++ [Call_expand_independent_outputs bvar full_cov full_output_cov])
  = rmu0 :: collect rollaxis_left_argument tail.
Proof.
  cbn [collect rollaxis_left_argument].
  rewrite !collect_app, collect_Knn_calls, collect_single_gp_calls_none
    by reflexivity.
  cbn [collect rollaxis_left_argument app].
  now rewrite collect_app, app_nil_r.
Qed.

Lemma collect_expand_arguments
    (Xnew : T) (feature : Feature) (kernel : Kernel A)
    (full_cov full_output_cov white : bool) (kernels : list Handle)
    (z : list (T * T * T * T * T)) (rmu0 bvar : T) (tail : list (Call A)) :
  (tail = [] \/ exists rvar0, tail = [Call_rollaxis_left rvar0 1]) ->
  collect expand_argument
    (Call_Kuu feature kernel (default_jitter env)
     :: Call_Kuf feature kernel Xnew
     :: map (Knn_call Xnew full_cov) kernels
     ++ map (single_gp_call full_cov white) z
     ++ Call_rollaxis_left rmu0 1
     :: tail
     ++ [Call_expand_independent_outputs bvar full_cov full_output_cov])
  = [bvar].
Proof.
  intros Htail. cbn [collect expand_argument].
  rewrite !collect_app, collect_Knn_calls, collect_single_gp_calls_none
    by reflexivity.
  destruct Htail as [-> | (rvar0 & ->)]; reflexivity.
Qed.

(** On a run that returns, what is handed on for reshaping is the stack of
    what [base_conditional] returned, output by output.  Take [Kuf]'s answer
    of shape [P, M, N] and [f] of shape [M, P], as the docstring has them, a
    [base_conditional] that keeps to the shapes it documents on matrices,
    and answers that hold as many entries as their shapes say.  Then the
    tensor given to the first [rollaxis_left] call is [P, N] and has, at
    [p, n], entry [n, 0] of the mean returned for output [p]; under
    [full_cov] the tensor given to [expand_independent_outputs] is
    [P, N, N] and has, at [p, n, n'], entry [0, n, n'] of the variance
    returned for output [p]; without [full_cov] the tensor given to the
    second [rollaxis_left] call is [P, N] and has, at [p, n], entry [n, 0]
    of that variance. *)
Theorem SeparateIndependent_stacks_the_answers
    (Xnew : T) (feature : Feature) (kernel : Kernel A) (f : T)
    (full_cov full_output_cov : bool) (q_sqrt : option T) (white : bool)
    (log : list (Call A)) (fmu fvar : T) (Kmns : T) (M N P : nat) :
  base_conditional_shapes env ->
  (forall Kmn Kmm Knn f' fc q w m v,
      base_conditional env Kmn Kmm Knn f' fc q w = Ok (m, v) -> wf m /\ wf v) ->
  Kuf env feature kernel Xnew = Ok Kmns ->
  shape Kmns = [P; M; N] ->
  shape f = [M; P] ->
  _conditional_SeparateIndependent env Xnew feature kernel f
    full_cov full_output_cov q_sqrt white = (log, Ok (fmu, fvar)) ->
  exists rmu0,
    nth_error (collect rollaxis_left_argument log) 0 = Some rmu0
    /\ shape rmu0 = [P; N]
    /\ length (collect base_conditional_arguments log) = P
    /\ forall p Kmn_p Kmm_p Knn_p f_p q_p mean_p var_p,
        nth_error (collect base_conditional_arguments log) p
        = Some (Kmn_p, Kmm_p, Knn_p, f_p, q_p) ->
        base_conditional env Kmn_p Kmm_p Knn_p f_p full_cov q_p white
        = Ok (mean_p, var_p) ->
        (forall n, n < N -> get rmu0 [p; n] = get mean_p [n; 0])
        /\ (if full_cov
            then exists bvar,
                collect expand_argument log = [bvar]
                /\ shape bvar = [P; N; N]
                /\ forall n n', n < N -> n' < N ->
                     get bvar [p; n; n'] = get var_p [0; n; n']
            else exists rvar0,
                nth_error (collect rollaxis_left_argument log) 1 = Some rvar0
                /\ shape rvar0 = [P; N]
                /\ forall n, n < N -> get rvar0 [p; n] = get var_p [n; 0]).
Proof.
  intros Hbc Hwf HKuf EKmns Ef H.
  destruct (SeparateIndependent_inversion _ _ _ _ _ _ _ _ H)
    as (Kmms & Kmns' & kernels & Ks & Knns & fs & q & qs & s1 & s2 & s3 & s4 & s5
        & outs & rmu & rvar & rmu0 & bvar & tail
        & _ & HKuf' & _ & _ & _ & Hfs & _ & _
        & U1 & U2 & U3 & U4 & U5 & L2 & L3 & L4 & L5 & Houts & Hr1 & Hr2
        & Hrmu0 & _ & Htail & _ & ->).
  rewrite HKuf in HKuf'. injection HKuf' as <-.
  (* the slices of [Kuf]'s answer and of [f] *)
  destruct (tf_unstack_length _ U2 EKmns) as [Hl2 Hs2].
  destruct (newaxis_2_Ok _ Hfs) as (d0 & d1 & rest & Et & Efs).
  unfold tf_transpose in Et. rewrite shape_tabulate, Ef in Et. simpl in Et.
  injection Et as <- <- <-.
  destruct (tf_unstack_length _ U4 Efs) as [_ Hs4].
  pose proof (batched_answers_shapes full_cov white s1 s3 s5 Hbc Hs2 Hs4 Houts)
    as Hshapes.
  assert (Hwfm : Forall wf (map fst outs) /\ Forall wf (map snd outs)).
  { split; apply Forall_forall; intros t Ht; apply in_map_iff in Ht;
      destruct Ht as ([m v] & <- & Ho);
      destruct (In_nth_error _ _ Ho) as (n & Hn);
      assert (Hz : exists z, single_gp_answer env full_cov white z = Ok (m, v))
        by (clear - Houts Hn; revert n Hn;
            induction Houts as [|x y xs ys HR _ IH]; intros [|n]; simpl;
            try discriminate; [intros [= ->]; eauto | apply IH]);
      destruct Hz as ([[[[a1 a2] a3] a4] a5] & Hans); simpl in Hans;
      apply Hwf in Hans; tauto. }
  destruct Hwfm as [Hwfmu Hwfvar].
  destruct (tf_stack_Ok _ Hr1) as (sm & _ & Ermu & Em).
  destruct (tf_stack_Ok _ Hr2) as (sv & _ & Ervar & Ev).
  pose proof (tf_stack_index_last_0 _ Hr1 Hrmu0) as Hpos.
  assert (Em0 : sm = [N; 1]).
  { destruct outs as [|o outs']; [simpl in Hpos; lia|].
    rewrite (Em _ _ eq_refl). exact (proj1 (Forall_inv Hshapes)). }
  assert (Ev0 : sv = if full_cov then [1; N; N] else [N; 1]).
  { destruct outs as [|o outs']; [simpl in Hpos; lia|].
    rewrite (Ev _ _ eq_refl). exact (proj2 (Forall_inv Hshapes)). }
  clear Em Ev Hpos. subst sm sv.
  assert (Hlen : length (zip5 s1 s2 s3 s4 s5) = P)
    by (rewrite length_zip5 by assumption; lia).
  assert (HP : length outs = P)
    by (rewrite <- Hlen; symmetry; apply (Forall2_length Houts)).
  assert (Srmu : shape rmu = [P; N; 1])
    by (rewrite Ermu; simpl; now rewrite length_map, HP).
  assert (Srvar : shape rvar = P :: (if full_cov then [1; N; N] else [N; 1]))
    by (rewrite Ervar; simpl; now rewrite length_map, HP).
  assert (Srmu0 : shape rmu0 = [P; N]).
  { destruct (index_last_0_Ok _ Hrmu0) as (init & d & E & _ & ->).
    rewrite Srmu in E. change [P; N; 1] with ([P; N] ++ [1]) in E.
    now apply app_inj_tail in E. }
  exists rmu0.
  rewrite (collect_base_conditional_arguments _ _ _ _ _ _ _ _ _ _ (tail_cases _ _ _ _ Htail)).
  rewrite collect_rollaxis_left_arguments.
  rewrite (collect_expand_arguments _ _ _ _ _ _ _ _ _ _ (tail_cases _ _ _ _ Htail)).
  split; [reflexivity|]. split; [assumption|].
  split; [now rewrite length_map|].
  intros p Kmn_p Kmm_p Knn_p f_p q_p mean_p var_p Hp Hans.
  rewrite nth_error_map in Hp.
  destruct (nth_error (zip5 s1 s2 s3 s4 s5) p)
    as [[[[[a1 a2] a3] a4] a5]|] eqn:Ez; [|discriminate].
  simpl in Hp. injection Hp as <- <- <- <- <-.
  destruct (Forall2_nth_error _ Houts Ez) as ([m v] & Ho & Hans').
  simpl in Hans'. rewrite Hans in Hans'. injection Hans' as <- <-.
  assert (HpP : p < P) by (rewrite <- HP; apply nth_error_Some; congruence).
  rewrite Forall_forall in Hshapes.
  destruct (Hshapes _ (nth_error_In _ _ Ho)) as [Smean Svar]. simpl in Smean, Svar.
  assert (Hmp : nth_error (map fst outs) p = Some mean_p)
    by (rewrite nth_error_map, Ho; reflexivity).
  assert (Hvp : nth_error (map snd outs) p = Some var_p)
    by (rewrite nth_error_map, Ho; reflexivity).
  split.
  - intros n Hn.
    rewrite (get_index_last_0 _ Hrmu0)
      by (rewrite Srmu0; repeat constructor; assumption).
    simpl. apply (get_tf_stack p Hr1 Hwfmu Hmp).
    rewrite Smean. repeat constructor; lia.
  - destruct full_cov.
    + destruct Htail as [Hbvar ->].
      destruct (get_index_third_last_0_4 rvar p 0 0 Hbvar Srvar) as [Sbvar _].
      exists bvar. split; [reflexivity|].
      split; [assumption|]. intros n n' Hn Hn'.
      destruct (get_index_third_last_0_4 rvar p n n' Hbvar Srvar) as [_ ->];
        try assumption.
      apply (get_tf_stack p Hr2 Hwfvar Hvp).
      rewrite Svar. repeat constructor; lia.
    + destruct Htail as (rvar0 & Hrvar0 & _ & ->).
      assert (Srvar0 : shape rvar0 = [P; N]).
      { destruct (index_last_0_Ok _ Hrvar0) as (init & d & E & _ & ->).
        rewrite Srvar in E. change [P; N; 1] with ([P; N] ++ [1]) in E.
        now apply app_inj_tail in E. }
      exists rvar0. split; [reflexivity|].
      split; [assumption|]. intros n Hn.
      rewrite (get_index_last_0 _ Hrvar0)
        by (rewrite Srvar0; repeat constructor; assumption).
      simpl. apply (get_tf_stack p Hr2 Hwfvar Hvp).
      rewrite Svar. repeat constructor; lia.
Qed.

End BatchedFacts.

(** ** Edge cases of the batched, fully correlated, shared and interdomain
    implementations *)

Section EdgeFacts.

Context {A : Type} {SA : Scalar A}.
Variable env : Collaborators A.

Local Abbreviation T := (Tensor A).

Lemma mapM_all_Ok {X Y : Type} (fn : X -> M A Y) (xs : list X) (ys : list Y) :
  Forall2 (fun x y => result (fn x) = Ok y) xs ys ->
  mapM fn xs = (concat (map (fun x => calls (fn x)) xs), Ok ys).
Proof.
  induction 1 as [|x y xs ys Hxy _ IH]; [reflexivity|].
  simpl. rewrite (surjective_M (fn x)), Hxy, IH.
  unfold bind, ret. simpl. now rewrite app_nil_r.
Qed.

Lemma stack_Knns_all_Ok (kernels : list Handle) (Ks : list T) (Xnew : T)
    (full_cov : bool) :
  Forall2 (fun k t => Knn_of env Xnew full_cov k = Ok t) kernels Ks ->
  stack_Knns env kernels Xnew full_cov
  = (map (Knn_call Xnew full_cov) kernels, tf_stack Ks).
Proof.
  intros HKs. unfold stack_Knns.
  rewrite (mapM_all_Ok _ (ys := Ks)).
  - unfold bind, lift. rewrite app_nil_r. f_equal.
    clear. induction kernels as [|k ks IH]; [reflexivity|].
    cbn [map concat]. rewrite IH. unfold Knn_call. now destruct full_cov.
  - eapply Forall2_impl; [|exact HKs]. intros k t.
    unfold Knn_of. now destruct full_cov.
Qed.

Lemma constituent_kernels_given (feature : Feature) (kernel : Kernel A)
    (kernels : list Handle) :
  (if isinstance_Combination kernel
   then kernel_kernels kernel = Some kernels
   else exists k features,
       kernel_kernel kernel = Some k
       /\ feature_features feature = Some features
       /\ kernels = repeat k (length features)) ->
  constituent_kernels feature kernel = ret kernels.
Proof.
  unfold constituent_kernels. destruct (isinstance_Combination kernel).
  - now intros ->.
  - intros (k & features & -> & -> & ->). reflexivity.
Qed.

(** Without a [q_sqrt], the batched independent implementation evaluates
    every covariance it would need, [Kuu], [Kuf] and [K] or [K_diag] of each
    constituent kernel, stacks them, reshapes [f], and only then raises
    [AttributeError], on reading [q_sqrt.shape]. *)
Theorem SeparateIndependent_without_q_sqrt_raises_after_the_covariances
    (Xnew : T) (feature : Feature) (kernel : Kernel A) (f : T)
    (full_cov full_output_cov : bool) (white : bool)
    (Kmms Kmns Knns : T) (kernels : list Handle) (Ks : list T) :
  Kuu env feature kernel (default_jitter env) = Ok Kmms ->
  Kuf env feature kernel Xnew = Ok Kmns ->
  (if isinstance_Combination kernel
   then kernel_kernels kernel = Some kernels
   else exists k features,
       kernel_kernel kernel = Some k
       /\ feature_features feature = Some features
       /\ kernels = repeat k (length features)) ->
  Forall2 (fun k t => Knn_of env Xnew full_cov k = Ok t) kernels Ks ->
  tf_stack Ks = Ok Knns ->
  2 <= ndims f ->
  _conditional_SeparateIndependent env Xnew feature kernel f
    full_cov full_output_cov None white
  = (Call_Kuu feature kernel (default_jitter env)
     :: Call_Kuf feature kernel Xnew
     :: map (Knn_call Xnew full_cov) kernels,
     Raise AttributeError).
Proof.
  intros HKuu HKuf Hks HKs Hstack Hf.
  unfold _conditional_SeparateIndependent, call_Kuu, call_Kuf.
  rewrite HKuu, bind_call_Ok, HKuf. cbv beta. rewrite bind_call_Ok.
  rewrite (constituent_kernels_given _ _ _ Hks), bind_ret.
  rewrite (stack_Knns_all_Ok _ _ HKs), Hstack.
  assert (Hfs : exists fs, newaxis_2 (tf_transpose f) = Ok fs).
  { unfold newaxis_2, tf_transpose, ndims in *. simpl.
    destruct (rev (shape f)) as [|d0 [|d1 rest]] eqn:El; [| |eauto];
      apply (f_equal (@length nat)) in El; rewrite length_rev in El;
      simpl in El; lia. }
  destruct Hfs as (fs & ->).
  unfold bind, lift, reshape_q_sqrt, getattr, raise, calls, result. simpl.
  now rewrite !app_nil_r.
Qed.

(** Without a [q_sqrt], the batched independent and the mixed-kernel
    implementations never get as far as a conditional helper, a reshaping
    helper or the mixing step: whatever the inputs, every call of the run is
    a covariance evaluation. *)
Theorem without_q_sqrt_only_covariances_are_evaluated
    (r : Regime) (Xnew : T) (feature : Feature) (kernel : Kernel A) (f : T)
    (full_cov full_output_cov : bool) (white : bool) :
  r = SeparateIndependent \/ r = MixedKernel ->
  Forall (fun c => is_covariance_call c = true)
    (calls (implementation env r Xnew feature kernel f
              full_cov full_output_cov None white)).
Proof.
  assert (Hsep : forall foc,
             all_calls (fun c => is_covariance_call c = true)
               (_conditional_SeparateIndependent env Xnew feature kernel f
                  full_cov foc None white)).
  { intros foc.
    unfold _conditional_SeparateIndependent, call_Kuu, call_Kuf.
    apply all_calls_bind; [now apply all_calls_call|]. intros Kmms.
    apply all_calls_bind; [now apply all_calls_call|]. intros Kmns.
    apply all_calls_bind;
      [unfold constituent_kernels; footprint_tac|]. intros kernels.
    apply all_calls_bind;
      [unfold stack_Knns, call_K, call_K_diag; footprint_tac|]. intros Knns.
    apply all_calls_bind; [apply all_calls_lift|]. intros fs.
    unfold reshape_q_sqrt, getattr, raise, bind. simpl. constructor. }
  intros [-> | ->]; simpl.
  - apply Hsep.
  - unfold _conditional_MixedKernel.
    match goal with |- Forall ?P (calls ?m) => change (all_calls P m) end.
    apply all_calls_bind_Ok; [apply Hsep|].
    intros [gmu gvar] Hok.
    pose proof (SeparateIndependent_needs_q_sqrt env Xnew feature kernel f
                  full_cov false white) as Hno.
    rewrite Hok in Hno. discriminate.
Qed.

(** The fully correlated implementation unpacks the shape of [Kuf]'s answer
    into [M, L, N, K]: when that answer does not have exactly four axes the
    call raises [ValueError], after [Kuu], [Kuf] and the kernel were
    evaluated and before any reshaping or conditioning. *)
Theorem FullyCorrelated_needs_four_axes
    (Xnew : T) (feature : Feature) (kernel : Kernel A) (f : T)
    (full_cov full_output_cov : bool) (q_sqrt : option T) (white : bool)
    (Kmm Kmn Knn : T) :
  Kuu env feature kernel (default_jitter env) = Ok Kmm ->
  Kuf env feature kernel Xnew = Ok Kmn ->
  kernel_call env kernel Xnew full_cov full_output_cov = Ok Knn ->
  ndims Kmn <> 4 ->
  _conditional_FullyCorrelated env Xnew feature kernel f
    full_cov full_output_cov q_sqrt white
  = ([Call_Kuu feature kernel (default_jitter env);
      Call_Kuf feature kernel Xnew;
      Call_kernel kernel Xnew full_cov full_output_cov],
     Raise ValueError).
Proof.
  intros HKuu HKuf HKnn Hn.
  unfold _conditional_FullyCorrelated, call_Kuu, call_Kuf, call_kernel.
  rewrite HKuu, bind_call_Ok, HKuf. cbv beta.
  rewrite bind_call_Ok, HKnn. cbv beta. rewrite bind_call_Ok.
  unfold ndims in Hn.
  destruct (shape Kmn) as [|M [|L [|N [|K [|? ?]]]]]; try reflexivity.
  now contradiction Hn.
Qed.

(** The fully correlated implementation flattens [Kuu]'s answer to
    [M*L, M*L] before it looks at the flags: when that answer does not hold
    [(M*L)^2] entries the call fails, whatever the flags, and no conditional
    helper is called. *)
Theorem FullyCorrelated_needs_a_square_Kmm
    (Xnew : T) (feature : Feature) (kernel : Kernel A) (f : T)
    (full_cov full_output_cov : bool) (q_sqrt : option T) (white : bool)
    (Kmm Kmn Knn : T) (M L N K : nat) :
  Kuu env feature kernel (default_jitter env) = Ok Kmm ->
  Kuf env feature kernel Xnew = Ok Kmn ->
  kernel_call env kernel Xnew full_cov full_output_cov = Ok Knn ->
  shape Kmn = [M; L; N; K] ->
  size Kmm <> (M * L) * (M * L) ->
  calls (_conditional_FullyCorrelated env Xnew feature kernel f
           full_cov full_output_cov q_sqrt white)
  = [Call_Kuu feature kernel (default_jitter env);
     Call_Kuf feature kernel Xnew;
     Call_kernel kernel Xnew full_cov full_output_cov]
  /\ is_Ok (result (_conditional_FullyCorrelated env Xnew feature kernel f
                      full_cov full_output_cov q_sqrt white)) = false.
Proof.
  intros HKuu HKuf HKnn Es Hsize.
  unfold _conditional_FullyCorrelated, call_Kuu, call_Kuf, call_kernel.
  rewrite HKuu, bind_call_Ok, HKuf. cbv beta.
  rewrite bind_call_Ok, HKnn. cbv beta. rewrite bind_call_Ok, Es.
  unfold tf_reshape.
  destruct (Nat.eqb_spec (size Kmm) (prod [M * L; M * L])) as [E|E].
  - exfalso. apply Hsize. rewrite E. simpl. lia.
  - split; reflexivity.
Qed.

(** The interdomain implementation reshapes and indexes nothing: once
    [Kuu], [Kuf] and the kernel have answered, their answers, [f], the two
    flags, [q_sqrt] and [white] go to [independent_interdomain_conditional]
    as they are, and what that helper returns or raises is what the call
    returns or raises. *)
Theorem IndependentInterdomain_hands_everything_on
    (Xnew : T) (feature : Feature) (kernel : Kernel A) (f : T)
    (full_cov full_output_cov : bool) (q_sqrt : option T) (white : bool)
    (Kmm Kmn Knn : T) :
  Kuu env feature kernel (default_jitter env) = Ok Kmm ->
  Kuf env feature kernel Xnew = Ok Kmn ->
  kernel_call env kernel Xnew full_cov full_output_cov = Ok Knn ->
  _conditional_IndependentInterdomain env Xnew feature kernel f
    full_cov full_output_cov q_sqrt white
  = ([Call_Kuu feature kernel (default_jitter env);
      Call_Kuf feature kernel Xnew;
      Call_kernel kernel Xnew full_cov full_output_cov;
      Call_independent_interdomain_conditional
        Kmn Kmm Knn f full_cov full_output_cov q_sqrt white],
     independent_interdomain_conditional env
       Kmn Kmm Knn f full_cov full_output_cov q_sqrt white).
Proof.
  intros HKuu HKuf HKnn.
  unfold _conditional_IndependentInterdomain, call_Kuu, call_Kuf, call_kernel,
    call_independent_interdomain_conditional.
  rewrite HKuu, bind_call_Ok, HKuf. cbv beta.
  rewrite bind_call_Ok, HKnn. cbv beta. rewrite bind_call_Ok. reflexivity.
Qed.

End EdgeFacts.

(** ** Which entries reach the helper in the shared and the fully
    correlated implementations *)

Section DataFlowFacts.

Context {A : Type} {SA : Scalar A}.
Variable env : Collaborators A.

Local Abbreviation T := (Tensor A).

(** Of the variance the kernel returns, the shared-kernel implementation
    uses the part of output 0 and nothing else: on a run that returns, the
    [Knn] handed to [base_conditional] is [Knn0[0, ...]] under [full_cov] and
    [Knn0[..., 0]] otherwise, entry by entry, where [Knn0] is the kernel's
    answer; [Kuu]'s and [Kuf]'s answers, [f] and [q_sqrt] are handed on
    whole. *)
Theorem SharedIndependent_uses_the_variance_of_output_0
    (Xnew : T) (feature : Feature) (kernel : Kernel A) (f : T)
    (full_cov full_output_cov : bool) (q_sqrt : option T) (white : bool)
    (log : list (Call A)) (fmean fvar : T) :
  _conditional_SharedIndependent env Xnew feature kernel f
    full_cov full_output_cov q_sqrt white = (log, Ok (fmean, fvar)) ->
  exists Kmm Kmn Knn0 Knn d,
    Kuu env feature kernel (default_jitter env) = Ok Kmm
    /\ Kuf env feature kernel Xnew = Ok Kmn
    /\ kernel_call env kernel Xnew full_cov false = Ok Knn0
    /\ collect base_conditional_arguments log = [(Kmn, Kmm, Knn, f, q_sqrt)]
    /\ 0 < d
    /\ shape Knn0 = (if full_cov then d :: shape Knn else shape Knn ++ [d])
    /\ forall idx, in_bounds (shape Knn) idx ->
         get Knn idx = get Knn0 (if full_cov then 0 :: idx else idx ++ [0]).
Proof.
  unfold _conditional_SharedIndependent, call_Kuu, call_Kuf, call_kernel,
    call_base_conditional, call_expand_independent_outputs.
  intros H. inv_comp.
  match goal with H : (_, _) = (_, _) |- _ => injection H as <- <- end.
  match goal with
  | H1 : Kuu _ _ _ _ = Ok ?a, H2 : Kuf _ _ _ _ = Ok ?b,
    H3 : kernel_call _ _ _ _ _ = Ok ?c, H4 : (if _ then _ else _) = Ok ?k |- _ =>
      rename a into Kmm; rename b into Kmn; rename c into Knn0;
      rename k into Knn; rename H4 into Hidx
  end.
  destruct full_cov.
  - destruct (index_first_0_Ok _ Hidx) as (d & rest & Es & Hd & Er).
    exists Kmm, Kmn, Knn0, Knn, d.
    repeat (split; [assumption || reflexivity|]).
    split; [now rewrite Es, Er|].
    intros idx Hb. now apply get_index_first_0.
  - destruct (index_last_0_Ok _ Hidx) as (init & d & Es & Hd & Er).
    exists Kmm, Kmn, Knn0, Knn, d.
    repeat (split; [assumption || reflexivity|]).
    split; [now rewrite Es, Er|].
    intros idx Hb. now apply get_index_last_0.
Qed.

(** With equal flags, the fully correlated implementation flattens by
    pairing the axes in row-major order: on a run that returns, the tensors
    handed to [base_conditional] hold, at row [m*L + l] and column
    [n*K + k], entry [m, l, n, k] of [Kuf]'s answer; at [m*L + l] and
    [m'*L + l'], entry [m, l, m', l'] of [Kuu]'s answer; and at [n*K + k]
    (and [n'*K + k'] under [full_cov]) the entry [n, k] (and [n', k']) of the
    kernel's answer.  [f] and [q_sqrt] are handed on as they are. *)
Theorem FullyCorrelated_flattening_pairs_the_axes
    (Xnew : T) (feature : Feature) (kernel : Kernel A) (f : T)
    (full_cov : bool) (q_sqrt : option T) (white : bool)
    (log : list (Call A)) (fmean fvar : T) (Kmm Kmn Knn : T) (M L N K : nat) :
  _conditional_FullyCorrelated env Xnew feature kernel f
    full_cov full_cov q_sqrt white = (log, Ok (fmean, fvar)) ->
  Kuu env feature kernel (default_jitter env) = Ok Kmm ->
  Kuf env feature kernel Xnew = Ok Kmn ->
  kernel_call env kernel Xnew full_cov full_cov = Ok Knn ->
  shape Kmn = [M; L; N; K] ->
  exists Kmn' Kmm' Knn',
    collect base_conditional_arguments log = [(Kmn', Kmm', Knn', f, q_sqrt)]
    /\ shape Kmn' = [M * L; N * K]
    /\ (forall m l n k, m < M -> l < L -> n < N -> k < K ->
          get Kmn' [m * L + l; n * K + k] = get Kmn [m; l; n; k])
    /\ shape Kmm' = [M * L; M * L]
    /\ (shape Kmm = [M; L; M; L] ->
        forall m l m' l', m < M -> l < L -> m' < M -> l' < L ->
          get Kmm' [m * L + l; m' * L + l'] = get Kmm [m; l; m'; l'])
    /\ shape Knn' = (if full_cov then [N * K; N * K] else [N * K])
    /\ (full_cov = false -> shape Knn = [N; K] ->
        forall n k, n < N -> k < K ->
          get Knn' [n * K + k] = get Knn [n; k])
    /\ (full_cov = true -> shape Knn = [N; K; N; K] ->
        forall n k n' k', n < N -> k < K -> n' < N -> k' < K ->
          get Knn' [n * K + k; n' * K + k'] = get Knn [n; k; n'; k']).
Proof.
  unfold _conditional_FullyCorrelated, call_Kuu, call_Kuf, call_kernel,
    call_base_conditional.
  intros H HKuu HKuf HKnn Es. inv_comp.
  match goal with H : Kuu _ _ _ _ = Ok ?b |- _ =>
    rewrite HKuu in H; injection H as <- end.
  match goal with H : Kuf _ _ _ _ = Ok ?b |- _ =>
    rewrite HKuf in H; injection H as <- end.
  match goal with H : kernel_call _ _ _ _ _ = Ok ?b |- _ =>
    rewrite HKnn in H; injection H as <- end.
  rewrite Es, Bool.eqb_reflx in *. inv_comp.
  match goal with H : (_, _) = (_, _) |- _ => injection H as <- <- end.
  repeat match goal with
    | H : tf_reshape Kmm _ = Ok _ |- _ =>
        apply tf_reshape_Ok in H; destruct H as [_ ->]
    | H : tf_reshape Kmn _ = Ok _ |- _ =>
        apply tf_reshape_Ok in H; destruct H as [_ ->]
    end.
  match goal with
  | H : (if full_cov then _ else _) = Ok ?k |- _ =>
      rename k into Knn'; rename H into HKnn'
  end.
  exists (mkTensor [M * L; N * K] (data Kmn)),
    (mkTensor [M * L; M * L] (data Kmm)), Knn'.
  split; [reflexivity|]. split; [reflexivity|].
  split.
  { intros m l n k _ _ _ _. destruct Kmn as [sKmn dKmn]. simpl in Es. subst sKmn.
    apply get_same_offset. simpl. nia. }
  split; [reflexivity|].
  split.
  { intros Esm m l m' l' _ _ _ _. destruct Kmm as [sKmm dKmm]. simpl in Esm. subst sKmm.
    apply get_same_offset. simpl. nia. }
  destruct full_cov;
    apply tf_reshape_Ok in HKnn'; destruct HKnn' as [_ ->];
    (split; [reflexivity|]); split; try discriminate.
  - intros _ Esn n k n' k' _ _ _ _. destruct Knn as [sKnn dKnn]. simpl in Esn. subst sKnn.
    apply get_same_offset. simpl. nia.
  - intros _ Esn n k _ _. destruct Knn as [sKnn dKnn]. simpl in Esn. subst sKnn.
    apply get_same_offset. simpl. nia.
Qed.

(** With equal flags, the fully correlated implementation un-flattens what
    [base_conditional] returns the same way: on a run that returns, the mean
    has shape [N, K] and the variance [N, K], or [N, K, N, K] under
    [full_cov]; entry [n, k] of the mean is entry [n*K + k, 0] of a returned
    [N*K, 1] mean, and the entry of output [k] at point [n] (with output
    [k'] at point [n']) of the variance is entry [n*K + k, 0] of a returned
    [N*K, 1] variance (entry [0, n*K + k, n'*K + k'] of a returned
    [1, N*K, N*K] one). *)
Theorem FullyCorrelated_unflattening_pairs_the_axes
    (Xnew : T) (feature : Feature) (kernel : Kernel A) (f : T)
    (full_cov : bool) (q_sqrt : option T) (white : bool)
    (log : list (Call A)) (fmean fvar : T) (Kmn : T) (M L N K : nat) :
  _conditional_FullyCorrelated env Xnew feature kernel f
    full_cov full_cov q_sqrt white = (log, Ok (fmean, fvar)) ->
  Kuf env feature kernel Xnew = Ok Kmn ->
  shape Kmn = [M; L; N; K] ->
  exists Kmn' Kmm' Knn' bmean bvar,
    collect base_conditional_arguments log = [(Kmn', Kmm', Knn', f, q_sqrt)]
    /\ base_conditional env Kmn' Kmm' Knn' f full_cov q_sqrt white
       = Ok (bmean, bvar)
    /\ shape fmean = [N; K]
    /\ shape fvar = (if full_cov then [N; K; N; K] else [N; K])
    /\ (shape bmean = [N * K; 1] ->
        forall n k, n < N -> k < K ->
          get fmean [n; k] = get bmean [n * K + k; 0])
    /\ (full_cov = false -> shape bvar = [N * K; 1] ->
        forall n k, n < N -> k < K ->
          get fvar [n; k] = get bvar [n * K + k; 0])
    /\ (full_cov = true -> shape bvar = [1; N * K; N * K] ->
        forall n k n' k', n < N -> k < K -> n' < N -> k' < K ->
          get fvar [n; k; n'; k'] = get bvar [0; n * K + k; n' * K + k']).
Proof.
  unfold _conditional_FullyCorrelated, call_Kuu, call_Kuf, call_kernel,
    call_base_conditional.
  intros H HKuf Es. inv_comp.
  match goal with H : Kuf _ _ _ _ = Ok ?b |- _ =>
    rewrite HKuf in H; injection H as <- end.
  rewrite Es, Bool.eqb_reflx in *. inv_comp.
  match goal with H : (_, _) = (_, _) |- _ => injection H as <- <- end.
  match goal with
  | H : base_conditional _ ?a ?b ?c _ _ _ _ = Ok (?m, ?v) |- _ =>
      exists a, b, c, m, v; rename m into bmean; rename v into bvar
  end.
  repeat match goal with
    | H : tf_reshape bmean _ = Ok _ |- _ =>
        apply tf_reshape_Ok in H; destruct H as [_ ->]
    | H : tf_reshape bvar _ = Ok _ |- _ =>
        apply tf_reshape_Ok in H; destruct H as [_ ->]
    end.
  split; [reflexivity|]. split; [assumption|].
  split; [reflexivity|]. split; [reflexivity|].
  split.
  { intros Esm n k _ _. destruct bmean as [sm dm]. simpl in Esm. subst sm.
    apply get_same_offset. simpl. nia. }
  destruct full_cov; split; try discriminate.
  - intros _ Esv n k n' k' _ _ _ _. destruct bvar as [sv dv]. simpl in Esv. subst sv.
    apply get_same_offset. simpl. nia.
  - intros _ Esv n k _ _. destruct bvar as [sv dv]. simpl in Esv. subst sv.
    apply get_same_offset. simpl. nia.
Qed.

End DataFlowFacts.

(** ** The further properties on the small instance *)

Import Cases.

Lemma toy_base_conditional_wf
    (Kmn Kmm Knn f' : Tensor Z) (fc : bool) (q : option (Tensor Z)) (w : bool)
    (m v : Tensor Z) :
  base_conditional toy Kmn Kmm Knn f' fc q w = Ok (m, v) -> wf m /\ wf v.
Proof.
  simpl. unfold toy_base_conditional.
  destruct (shape Kmn) as [|M [|N [|? ?]]]; try discriminate.
  destruct (shape f') as [|M' [|P [|? ?]]]; try discriminate.
  destruct (M =? M'); [|discriminate].
  intros [= <- <-]. split; apply wf_tabulate.
Qed.

Lemma SeparateIndependent_one_base_conditional_per_kernel_witness :
  exists (Kmms Kmns q : Tensor Z) (kernels : list Handle) (bcs : list (Call Z))
         (rmu0 : Tensor Z) (tail : list (Call Z)) (bvar : Tensor Z),
    Kuu toy separate_feature separate_kernel (default_jitter toy) = Ok Kmms
    /\ Kuf toy separate_feature separate_kernel Xnew = Ok Kmns
    /\ Some q_sqrt_diag = Some q
    /\ 0 < length kernels
    /\ calls (run_SeparateIndependent false false)
       = Call_Kuu separate_feature separate_kernel (default_jitter toy)
         :: Call_Kuf separate_feature separate_kernel Xnew
         :: map (Knn_call Xnew false) kernels
            ++ bcs
            ++ Call_rollaxis_left rmu0 1
               :: tail ++ [Call_expand_independent_outputs bvar false false]
    /\ length bcs = length kernels
    /\ Forall (fun c : Call Z => is_base_conditional c = true) bcs
    /\ (exists rvar0 : Tensor Z, tail = [Call_rollaxis_left rvar0 1])
    /\ (exists rest : list nat, shape Kmms = length kernels :: rest)
    /\ (exists rest : list nat, shape Kmns = length kernels :: rest)
    /\ (exists init : list nat, shape f = init ++ [length kernels])
    /\ (if ndims q =? 2
        then exists M : nat, shape q = [M; length kernels]
        else exists rest : list nat, shape q = length kernels :: rest).
Proof.
  apply (@SeparateIndependent_one_base_conditional_per_kernel Z _ toy
           Xnew separate_feature separate_kernel f false false
           (Some q_sqrt_diag) false
           (calls (run_SeparateIndependent false false))
           (fst (returned (run_SeparateIndependent false false)))
           (snd (returned (run_SeparateIndependent false false)))).
  reflexivity.
Defined.

Lemma SeparateIndependent_call_p_gets_output_p_witness :
  length (collect base_conditional_arguments
            (calls (run_SeparateIndependent false false))) = 2
  /\ forall (p : nat) (Kmn_p Kmm_p Knn_p f_p : Tensor Z) (q_p : option (Tensor Z)),
       nth_error (collect base_conditional_arguments
                    (calls (run_SeparateIndependent false false))) p
       = Some (Kmn_p, Kmm_p, Knn_p, f_p, q_p) ->
       shape (iota [2; 2; 2] 1) = 2 :: shape Kmm_p
       /\ (forall idx : list nat,
             in_bounds (shape Kmm_p) idx ->
             get Kmm_p idx = get (iota [2; 2; 2] 1) (p :: idx))
       /\ shape (iota [2; 2; 3] 100) = 2 :: shape Kmn_p
       /\ (forall idx : list nat,
             in_bounds (shape Kmn_p) idx ->
             get Kmn_p idx = get (iota [2; 2; 3] 100) (p :: idx))
       /\ shape f_p = [2; 1]
       /\ (forall m : nat, m < 2 -> get f_p [m; 0] = get f [m; p]).
Proof.
  apply (@SeparateIndependent_call_p_gets_output_p Z _ toy
           Xnew separate_feature separate_kernel f false false
           (Some q_sqrt_diag) false
           (calls (run_SeparateIndependent false false))
           (fst (returned (run_SeparateIndependent false false)))
           (snd (returned (run_SeparateIndependent false false)))
           (iota [2; 2; 2] 1) (iota [2; 2; 3] 100) 2 2);
    reflexivity.
Defined.

Lemma SeparateIndependent_call_p_gets_q_sqrt_p_witness :
  nth_error (collect base_conditional_arguments
               (calls (run_SeparateIndependent_chol false false))) 1
  = Some (iota [2; 3] 106, iota [2; 2] 5, iota [3] 6000,
          mkTensor [2; 1] [11; 13]%Z, Some (iota [1; 2; 2] 34))
  /\ exists qp : Tensor Z,
       Some (iota [1; 2; 2] 34) = Some qp
       /\ (forall M P : nat,
             shape q_sqrt_chol = [M; P] ->
             shape qp = [M; 1]
             /\ (forall m : nat, m < M -> get qp [m; 0] = get q_sqrt_chol [m; 1]))
       /\ (forall P M M' : nat,
             shape q_sqrt_chol = [P; M; M'] ->
             shape qp = [1; M; M']
             /\ (forall i j : nat,
                   i < M -> j < M' ->
                   get qp [0; i; j] = get q_sqrt_chol [1; i; j])).
Proof.
  assert (H : nth_error (collect base_conditional_arguments
                           (calls (run_SeparateIndependent_chol false false))) 1
              = Some (iota [2; 3] 106, iota [2; 2] 5, iota [3] 6000,
                      mkTensor [2; 1] [11; 13]%Z, Some (iota [1; 2; 2] 34)))
    by reflexivity.
  split; [exact H|].
  apply (@SeparateIndependent_call_p_gets_q_sqrt_p Z _ toy
           Xnew separate_feature separate_kernel f q_sqrt_chol false false false
           (calls (run_SeparateIndependent_chol false false))
           (fst (returned (run_SeparateIndependent_chol false false)))
           (snd (returned (run_SeparateIndependent_chol false false)))
           eq_refl 1
           (iota [2; 3] 106) (iota [2; 2] 5) (iota [3] 6000)
           (mkTensor [2; 1] [11; 13]%Z) (Some (iota [1; 2; 2] 34)) H).
Defined.

Lemma SeparateIndependent_stacks_the_answers_witness :
  exists rmu0 : Tensor Z,
    nth_error (collect rollaxis_left_argument
                 (calls (run_SeparateIndependent false false))) 0 = Some rmu0
    /\ shape rmu0 = [2; 3]
    /\ length (collect base_conditional_arguments
                 (calls (run_SeparateIndependent false false))) = 2
    /\ forall (p : nat) (Kmn_p Kmm_p Knn_p f_p : Tensor Z)
              (q_p : option (Tensor Z)) (mean_p var_p : Tensor Z),
         nth_error (collect base_conditional_arguments
                      (calls (run_SeparateIndependent false false))) p
         = Some (Kmn_p, Kmm_p, Knn_p, f_p, q_p) ->
         base_conditional toy Kmn_p Kmm_p Knn_p f_p false q_p false
         = Ok (mean_p, var_p) ->
         (forall n : nat, n < 3 -> get rmu0 [p; n] = get mean_p [n; 0])
         /\ exists rvar0 : Tensor Z,
              nth_error (collect rollaxis_left_argument
                           (calls (run_SeparateIndependent false false))) 1
              = Some rvar0
              /\ shape rvar0 = [2; 3]
              /\ (forall n : nat, n < 3 -> get rvar0 [p; n] = get var_p [n; 0]).
Proof.
  apply (@SeparateIndependent_stacks_the_answers Z _ toy
           Xnew separate_feature separate_kernel f false false
           (Some q_sqrt_diag) false
           (calls (run_SeparateIndependent false false))
           (fst (returned (run_SeparateIndependent false false)))
           (snd (returned (run_SeparateIndependent false false)))
           (iota [2; 2; 3] 100) 2 3 2
           toy_base_conditional_shapes toy_base_conditional_wf);
    reflexivity.
Defined.

Lemma SeparateIndependent_without_q_sqrt_raises_after_the_covariances_witness :
  run_SeparateIndependent_None false false
  = (Call_Kuu separate_feature separate_kernel (default_jitter toy)
     :: Call_Kuf separate_feature separate_kernel Xnew
     :: map (Knn_call Xnew false) [5; 6],
     Raise AttributeError).
Proof.
  apply (@SeparateIndependent_without_q_sqrt_raises_after_the_covariances Z _ toy
           Xnew separate_feature separate_kernel f false false false
           (iota [2; 2; 2] 1) (iota [2; 2; 3] 100)
           (mkTensor [2; 3] (data (iota [3] 5000) ++ data (iota [3] 6000)))
           [5; 6] [iota [3] 5000; iota [3] 6000]).
  - reflexivity.
  - reflexivity.
  - reflexivity.
  - repeat constructor.
  - reflexivity.
  - vm_compute. lia.
Defined.

Lemma without_q_sqrt_only_covariances_are_evaluated_witness :
  Forall (fun c : Call Z => is_covariance_call c = true)
    (calls (implementation toy MixedKernel Xnew mixed_shared_feature mixed_kernel f
              false false None false)).
Proof.
  apply (@without_q_sqrt_only_covariances_are_evaluated Z _ toy MixedKernel
           Xnew mixed_shared_feature mixed_kernel f false false false).
  right. reflexivity.
Defined.

Lemma FullyCorrelated_needs_four_axes_witness :
  ndims (iota [2; 3] 100) <> 4
  /\ run_FullyCorrelated_two_axes false false
     = ([Call_Kuu shared_feature shared_kernel (default_jitter toy);
         Call_Kuf shared_feature shared_kernel Xnew;
         Call_kernel shared_kernel Xnew false false],
        Raise ValueError).
Proof.
  assert (H : ndims (iota [2; 3] 100) <> 4) by (vm_compute; lia).
  split; [exact H|].
  apply (@FullyCorrelated_needs_four_axes Z toy
           Xnew shared_feature shared_kernel f false false None false
           (iota [2; 2] 1) (iota [2; 3] 100)
           (iota (variance_shape 3 2 false false) 200)).
  - reflexivity.
  - reflexivity.
  - reflexivity.
  - exact H.
Defined.

Lemma FullyCorrelated_needs_a_square_Kmm_witness :
  size (iota [3] 1) <> (2 * 2) * (2 * 2)
  /\ calls (run_FullyCorrelated_short_Kmm false true)
     = [Call_Kuu inducing_points mixed_kernel (default_jitter toy_short_Kmm);
        Call_Kuf inducing_points mixed_kernel Xnew;
        Call_kernel mixed_kernel Xnew false true]
  /\ is_Ok (result (run_FullyCorrelated_short_Kmm false true)) = false.
Proof.
  assert (H : size (iota [3] 1) <> (2 * 2) * (2 * 2)) by (vm_compute; lia).
  split; [exact H|].
  apply (@FullyCorrelated_needs_a_square_Kmm Z toy_short_Kmm
           Xnew inducing_points mixed_kernel f_flat false true None false
           (iota [3] 1) (iota [2; 2; 3; 2] 100)
           (iota (variance_shape 3 2 false true) 200) 2 2 3 2).
  - reflexivity.
  - reflexivity.
  - reflexivity.
  - reflexivity.
  - exact H.
Defined.

Lemma IndependentInterdomain_hands_everything_on_witness :
  run_IndependentInterdomain false true
  = ([Call_Kuu shared_feature mixed_kernel (default_jitter toy);
      Call_Kuf shared_feature mixed_kernel Xnew;
      Call_kernel mixed_kernel Xnew false true;
      Call_independent_interdomain_conditional
        (iota [2; 2; 3; 2] 100) (iota [2; 2; 2] 1)
        (iota (variance_shape 3 2 false true) 200) f false true None false],
     independent_interdomain_conditional toy
       (iota [2; 2; 3; 2] 100) (iota [2; 2; 2] 1)
       (iota (variance_shape 3 2 false true) 200) f false true None false).
Proof.
  apply (@IndependentInterdomain_hands_everything_on Z toy
           Xnew shared_feature mixed_kernel f false true None false
           (iota [2; 2; 2] 1) (iota [2; 2; 3; 2] 100)
           (iota (variance_shape 3 2 false true) 200));
    reflexivity.
Defined.

Lemma SharedIndependent_uses_the_variance_of_output_0_witness :
  exists (Kmm Kmn Knn0 Knn : Tensor Z) (d : nat),
    Kuu toy shared_feature shared_kernel (default_jitter toy) = Ok Kmm
    /\ Kuf toy shared_feature shared_kernel Xnew = Ok Kmn
    /\ kernel_call toy shared_kernel Xnew true false = Ok Knn0
    /\ collect base_conditional_arguments (calls (run_SharedIndependent true false))
       = [(Kmn, Kmm, Knn, f, None)]
    /\ 0 < d
    /\ shape Knn0 = d :: shape Knn
    /\ forall idx : list nat,
         in_bounds (shape Knn) idx -> get Knn idx = get Knn0 (0 :: idx).
Proof.
  apply (@SharedIndependent_uses_the_variance_of_output_0 Z _ toy
           Xnew shared_feature shared_kernel f true false None false
           (calls (run_SharedIndependent true false))
           (fst (returned (run_SharedIndependent true false)))
           (snd (returned (run_SharedIndependent true false)))).
  reflexivity.
Defined.

Lemma FullyCorrelated_flattening_pairs_the_axes_witness :
  exists Kmn' Kmm' Knn' : Tensor Z,
    collect base_conditional_arguments (calls (run_FullyCorrelated true true))
    = [(Kmn', Kmm', Knn', f_flat, None)]
    /\ shape Kmn' = [2 * 2; 3 * 2]
    /\ (forall m l n k : nat, m < 2 -> l < 2 -> n < 3 -> k < 2 ->
          get Kmn' [m * 2 + l; n * 2 + k] = get (iota [2; 2; 3; 2] 100) [m; l; n; k])
    /\ shape Kmm' = [2 * 2; 2 * 2]
    /\ (shape (iota [2; 2; 2; 2] 1) = [2; 2; 2; 2] ->
        forall m l m' l' : nat, m < 2 -> l < 2 -> m' < 2 -> l' < 2 ->
          get Kmm' [m * 2 + l; m' * 2 + l'] = get (iota [2; 2; 2; 2] 1) [m; l; m'; l'])
    /\ shape Knn' = [3 * 2; 3 * 2]
    /\ (true = false -> shape (iota (variance_shape 3 2 true true) 200) = [3; 2] ->
        forall n k : nat, n < 3 -> k < 2 ->
          get Knn' [n * 2 + k] = get (iota (variance_shape 3 2 true true) 200) [n; k])
    /\ (true = true ->
        shape (iota (variance_shape 3 2 true true) 200) = [3; 2; 3; 2] ->
        forall n k n' k' : nat, n < 3 -> k < 2 -> n' < 3 -> k' < 2 ->
          get Knn' [n * 2 + k; n' * 2 + k']
          = get (iota (variance_shape 3 2 true true) 200) [n; k; n'; k']).
Proof.
  apply (@FullyCorrelated_flattening_pairs_the_axes Z _ toy
           Xnew inducing_points mixed_kernel f_flat true None false
           (calls (run_FullyCorrelated true true))
           (fst (returned (run_FullyCorrelated true true)))
           (snd (returned (run_FullyCorrelated true true)))
           (iota [2; 2; 2; 2] 1) (iota [2; 2; 3; 2] 100)
           (iota (variance_shape 3 2 true true) 200) 2 2 3 2);
    reflexivity.
Defined.

Lemma FullyCorrelated_unflattening_pairs_the_axes_witness :
  exists Kmn' Kmm' Knn' bmean bvar : Tensor Z,
    collect base_conditional_arguments (calls (run_FullyCorrelated true true))
    = [(Kmn', Kmm', Knn', f_flat, None)]
    /\ base_conditional toy Kmn' Kmm' Knn' f_flat true None false = Ok (bmean, bvar)
    /\ shape (fst (returned (run_FullyCorrelated true true))) = [3; 2]
    /\ shape (snd (returned (run_FullyCorrelated true true))) = [3; 2; 3; 2]
    /\ (shape bmean = [3 * 2; 1] ->
        forall n k : nat, n < 3 -> k < 2 ->
          get (fst (returned (run_FullyCorrelated true true))) [n; k]
          = get bmean [n * 2 + k; 0])
    /\ (true = false -> shape bvar = [3 * 2; 1] ->
        forall n k : nat, n < 3 -> k < 2 ->
          get (snd (returned (run_FullyCorrelated true true))) [n; k]
          = get bvar [n * 2 + k; 0])
    /\ (true = true -> shape bvar = [1; 3 * 2; 3 * 2] ->
        forall n k n' k' : nat, n < 3 -> k < 2 -> n' < 3 -> k' < 2 ->
          get (snd (returned (run_FullyCorrelated true true))) [n; k; n'; k']
          = get bvar [0; n * 2 + k; n' * 2 + k']).
Proof.
  apply (@FullyCorrelated_unflattening_pairs_the_axes Z _ toy
           Xnew inducing_points mixed_kernel f_flat true None false
           (calls (run_FullyCorrelated true true))
           (fst (returned (run_FullyCorrelated true true)))
           (snd (returned (run_FullyCorrelated true true)))
           (iota [2; 2; 3; 2] 100) 2 2 3 2);
    reflexivity.
Defined.
